(** * Contract Intelligence Platform: analysis pipeline

    A shallow embedding of the server-side analysis logic:
    - [AIService]  (services/aiService.js): the tolerant parser of model
      replies, the lexical similarity scorer and the four stage clients;
    - [ContractService] (services/contractService.js): the orchestrator
      [analyzeContract], the failure handler, the confidence aggregate,
      the deadline window and the dashboard statistics;
    - the [Contract] document of models/Contract.js and its virtual
      ([Virtuals]);
    - [ContractReads], [Routes] (routes/contracts.js): the read
      operations and the status codes of the handlers;
    - [Config] (config/index.js), [EmailService]
      (services/emailService.js) and [Server] (the two places of
      index.js and middleware/errorHandler.js that read the environment).

    Conventions of the embedding.
    - A JavaScript string is a list of 8-bit characters.  The character
      classes of the regular expressions ([\s], [\w]), [trim] and
      [toLowerCase] are the ASCII ones.
    - A JavaScript number is a rational ([Q]), and rounding of doubles is
      not modelled.  The one division that can yield NaN (0/0 in the
      similarity) is written out.  The confidence aggregate compares,
      adds and divides whatever the replies carry, so the conversions
      the language applies there are modelled ([Coercion]): a string is
      read as a number by [>] and [/], and [+] concatenates from the
      first string on.  The concrete figures are checked on binary64
      floats at the end.
    - An exception is a value ([outcome]); a promise that rejects is an
      [outcome] that throws.
    - External collaborators are inputs: the reply of the language model
      to each request, the outcome of [save()] on a document, the
      schema's cast of a key date, the clock.  A read of the storage
      fails only on an identifier that cannot be cast.
    - An identifier is an integer.  The service's operations are given
      an identifier; the routes are given the segment of the URL, whose
      cast to an identifier can fail ([Routes.castObjectId]).
    - Of the schema's casts, those of a key date and of a value stored
      at a [Number] path are modelled.  A title is stored as given, not
      trimmed, and the elements of the extracted arrays are kept as the
      JSON they are cast from: the identifier the schema generates for
      each sub-document is not modelled, and the arrays are compared as
      the values they were cast from.  The text of a mail is kept as the
      values it is rendered from.
    - The service starts only with a configuration that loaded
      ([Config.load]); the collections it can then reach are
      [reachable_in_service].  [reachable] leaves the world of each
      operation free.
*)

From Stdlib Require Import List Ascii String ZArith QArith Bool Lia Arith.
From Stdlib Require Import Permutation Sorted DecimalString.
From Stdlib Require Uint63.
From Stdlib Require Import PrimFloat.
Import ListNotations.

Local Close Scope Q_scope.
Local Open Scope list_scope.
#[local] Set Warnings "-register-all,-abstract-large-number,-inexact-float".

(* ================================================================== *)
(** ** JavaScript strings *)
(* ================================================================== *)

Module JsString.

Definition jsstring : Type := list ascii.

(** String literals are written with Rocq's string syntax. *)
Definition lit (s : string) : jsstring := list_ascii_of_string s.

Definition code (c : ascii) : N := N_of_ascii c.

Definition chr (n : N) : ascii := ascii_of_N n.

(** The double quote and the single quote. *)
Definition dquote : ascii := chr 34.
Definition quote : ascii := chr 39.

(** A literal in which [~] stands for a double quote. *)
Definition qlit (s : string) : jsstring :=
  map (fun c => if Ascii.eqb c "~" then dquote else c) (list_ascii_of_string s).

Fixpoint str_eqb (a b : jsstring) : bool :=
  match a, b with
  | [], [] => true
  | x :: a', y :: b' => Ascii.eqb x y && str_eqb a' b'
  | _, _ => false
  end.

(** [\s] restricted to ASCII: tab, line feed, vertical tab, form feed,
    carriage return, space. *)
Definition is_space (c : ascii) : bool :=
  let n := code c in
  ((9 <=? n) && (n <=? 13))%N || (n =? 32)%N.

Definition is_digit (c : ascii) : bool :=
  let n := code c in ((48 <=? n) && (n <=? 57))%N.

Definition is_upper (c : ascii) : bool :=
  let n := code c in ((65 <=? n) && (n <=? 90))%N.

Definition is_lower (c : ascii) : bool :=
  let n := code c in ((97 <=? n) && (n <=? 122))%N.

(** [\w] is [A-Za-z0-9_]. *)
Definition is_word (c : ascii) : bool :=
  is_upper c || is_lower c || is_digit c || (code c =? 95)%N.

Definition lower_char (c : ascii) : ascii :=
  if is_upper c then chr (code c + 32) else c.

(** [s.toLowerCase()] *)
Definition toLowerCase (s : jsstring) : jsstring := map lower_char s.

Fixpoint dropWhile (p : ascii -> bool) (s : jsstring) : jsstring :=
  match s with
  | [] => []
  | c :: r => if p c then dropWhile p r else s
  end.

Fixpoint takeWhile (p : ascii -> bool) (s : jsstring) : jsstring :=
  match s with
  | [] => []
  | c :: r => if p c then c :: takeWhile p r else []
  end.

(** [s.trim()] *)
Definition trim (s : jsstring) : jsstring :=
  rev (dropWhile is_space (rev (dropWhile is_space s))).

(** [s.startsWith(p)], returning what follows the prefix. *)
Fixpoint strip_prefix (p s : jsstring) : option jsstring :=
  match p with
  | [] => Some s
  | x :: p' =>
      match s with
      | [] => None
      | y :: s' => if Ascii.eqb x y then strip_prefix p' s' else None
      end
  end.

Definition startsWith (s p : jsstring) : bool :=
  match strip_prefix p s with Some _ => true | None => false end.

Definition endsWith (s p : jsstring) : bool := startsWith (rev s) (rev p).

(** [s.includes(k)] *)
Fixpoint includes (s k : jsstring) : bool :=
  startsWith s k ||
  match s with
  | [] => false
  | _ :: r => includes r k
  end.

(** [s.replace(/re/g, ...)] for a pattern that never matches the empty
    string.  [m] tries the pattern at the head of its argument and
    returns the replacement text together with the length of the match;
    scanning resumes after the match, other characters are copied. *)
Fixpoint replace_scan (m : jsstring -> option (jsstring * nat))
                      (skip : nat) (s : jsstring) : jsstring :=
  match s with
  | [] => []
  | c :: r =>
      match skip with
      | S k => replace_scan m k r
      | O =>
          match m s with
          | Some (out, len) => out ++ replace_scan m (pred len) r
          | None => c :: replace_scan m O r
          end
      end
  end.

Definition replace_all (m : jsstring -> option (jsstring * nat))
                       (s : jsstring) : jsstring :=
  replace_scan m O s.

(** [s.split(/\s+/)]: the pieces between maximal runs of white space; a
    leading or trailing run leaves an empty first or last piece, and the
    empty string splits into one empty piece. *)
Fixpoint split_ws_aux (cur : jsstring) (in_ws : bool) (s : jsstring)
  : list jsstring :=
  match s with
  | [] => [rev cur]
  | c :: r =>
      if is_space c
      then if in_ws then split_ws_aux cur true r
           else rev cur :: split_ws_aux [] true r
      else split_ws_aux (c :: cur) false r
  end.

Definition split_ws (s : jsstring) : list jsstring :=
  split_ws_aux [] false s.

End JsString.

Import JsString.

(* ================================================================== *)
(** ** JSON values and [JSON.parse] *)
(* ================================================================== *)

Module Json.

(** The values [JSON.parse] can return.  An object keeps its properties
    in creation order; the parser never leaves two entries with the same
    key. *)
Inductive json : Type :=
| JNull
| JBool (b : bool)
| JNum (q : Q)
| JStr (s : jsstring)
| JArr (items : list json)
| JObj (props : list (jsstring * json)).

(** [obj[k]], [None] standing for [undefined]. *)
Fixpoint lookup (k : jsstring) (props : list (jsstring * json)) : option json :=
  match props with
  | [] => None
  | (k', v) :: r => if str_eqb k k' then Some v else lookup k r
  end.

(** [obj[k] = v]: an existing property keeps its place. *)
Fixpoint assign (k : jsstring) (v : json) (props : list (jsstring * json))
  : list (jsstring * json) :=
  match props with
  | [] => [(k, v)]
  | (k', v') :: r =>
      if str_eqb k k' then (k', v) :: r else (k', v') :: assign k v r
  end.

(** [v.k] for a value that may not be an object. *)
Definition field (k : string) (v : json) : option json :=
  match v with
  | JObj props => lookup (lit k) props
  | _ => None
  end.

(** JavaScript truthiness of a value read from a reply ([None] is
    [undefined]). *)
Definition truthy (v : option json) : bool :=
  match v with
  | None => false
  | Some JNull => false
  | Some (JBool b) => b
  | Some (JNum q) => negb (Qeq_bool q 0%Q)
  | Some (JStr s) => match s with [] => false | _ => true end
  | Some (JArr _) => true
  | Some (JObj _) => true
  end.

(** Outcome of a parsing function: a value and the unread input, a
    syntax error, or recursion budget exhausted (which [JSON_parse]
    below never lets happen, see [parse_value_budget]). *)
Inductive presult (A : Type) : Type :=
| POk (a : A) (rest : jsstring)
| PSyntax
| PBudget.
Arguments POk {A} a rest.
Arguments PSyntax {A}.
Arguments PBudget {A}.

(** JSON white space: space, tab, line feed, carriage return. *)
Definition is_json_ws (c : ascii) : bool :=
  let n := code c in
  ((n =? 32) || (n =? 9) || (n =? 10) || (n =? 13))%N.

Definition skip_ws (s : jsstring) : jsstring := dropWhile is_json_ws s.

Definition hex_val (c : ascii) : option N :=
  let n := code c in
  if is_digit c then Some (n - 48)%N
  else if ((97 <=? n) && (n <=? 102))%N then Some (n - 87)%N
  else if ((65 <=? n) && (n <=? 70))%N then Some (n - 55)%N
  else None.

(** The characters of the code unit [n] of a [\uXXXX] escape (UTF-8). *)
Definition unit_chars (n : N) : jsstring :=
  if (n <? 128)%N then [chr n]
  else if (n <? 2048)%N then [chr (192 + n / 64); chr (128 + n mod 64)]
  else [chr (224 + n / 4096); chr (128 + (n / 64) mod 64); chr (128 + n mod 64)].

(** Body of a string literal, after the opening quote. *)
Fixpoint parse_string_body (s : jsstring) (acc : jsstring) : presult jsstring :=
  match s with
  | [] => PSyntax
  | c :: r =>
      if Ascii.eqb c dquote then POk (rev acc) r
      else if Ascii.eqb c "\" then
        match r with
        | e :: r' =>
            if Ascii.eqb e "u" then
              match r' with
              | h1 :: h2 :: h3 :: h4 :: r'' =>
                  match hex_val h1, hex_val h2, hex_val h3, hex_val h4 with
                  | Some a, Some b, Some c', Some d =>
                      let n := (((a * 16 + b) * 16 + c') * 16 + d)%N in
                      parse_string_body r'' (rev (unit_chars n) ++ acc)
                  | _, _, _, _ => PSyntax
                  end
              | _ => PSyntax
              end
            else
              let ok x := parse_string_body r' (x :: acc) in
              if Ascii.eqb e dquote then ok e
              else if Ascii.eqb e "\" then ok e
              else if Ascii.eqb e "/" then ok e
              else if Ascii.eqb e "b" then ok (chr 8)
              else if Ascii.eqb e "f" then ok (chr 12)
              else if Ascii.eqb e "n" then ok (chr 10)
              else if Ascii.eqb e "r" then ok (chr 13)
              else if Ascii.eqb e "t" then ok (chr 9)
              else PSyntax
        | [] => PSyntax
        end
      else if (code c <? 32)%N then PSyntax
      else parse_string_body r (c :: acc)
  end.

Definition digits_val (ds : jsstring) : N :=
  fold_left (fun acc c => (acc * 10 + (code c - 48))%N) ds 0%N.

(** Digits of a fraction or an exponent: at least one is required. *)
Definition parse_digits (s : jsstring) : presult jsstring :=
  match takeWhile is_digit s with
  | [] => PSyntax
  | ds => POk ds (dropWhile is_digit s)
  end.

(** The integer part: a lone [0], or a digit from 1 to 9 followed by
    digits. *)
Definition parse_int_part (s : jsstring) : presult jsstring :=
  match s with
  | c :: r =>
      if Ascii.eqb c "0" then POk [c] r
      else if is_digit c then POk (takeWhile is_digit s) (dropWhile is_digit s)
      else PSyntax
  | [] => PSyntax
  end.

Definition parse_frac (s : jsstring) : presult jsstring :=
  match s with
  | c :: r => if Ascii.eqb c "." then parse_digits r else POk [] s
  | [] => POk [] s
  end.

(** The exponent, as a signed integer (0 when there is none). *)
Definition parse_exp (s : jsstring) : presult Z :=
  match s with
  | c :: r =>
      if Ascii.eqb c "e" || Ascii.eqb c "E" then
        match r with
        | sg :: r' =>
            if Ascii.eqb sg "-" then
              match parse_digits r' with
              | POk ds rest => POk (- Z.of_N (digits_val ds))%Z rest
              | PSyntax => PSyntax
              | PBudget => PBudget
              end
            else
              match parse_digits (if Ascii.eqb sg "+" then r' else r) with
              | POk ds rest => POk (Z.of_N (digits_val ds)) rest
              | PSyntax => PSyntax
              | PBudget => PBudget
              end
        | [] => PSyntax
        end
      else POk 0%Z s
  | [] => POk 0%Z s
  end.

(** A number literal; its value is the exact rational it denotes. *)
Definition parse_number (s : jsstring) : presult Q :=
  let '(neg, s1) :=
    match s with
    | c :: r => if Ascii.eqb c "-" then (true, r) else (false, s)
    | [] => (false, s)
    end in
  match parse_int_part s1 with
  | POk ip s2 =>
      match parse_frac s2 with
      | POk fp s3 =>
          match parse_exp s3 with
          | POk e s4 =>
              let m := Z.of_N (digits_val (ip ++ fp)) in
              let scale := (e - Z.of_nat (List.length fp))%Z in
              let q := (inject_Z (if neg then - m else m) * Qpower (10 # 1)%Q scale)%Q in
              POk (Qred q) s4
          | PSyntax => PSyntax
          | PBudget => PBudget
          end
      | PSyntax => PSyntax
      | PBudget => PBudget
      end
  | PSyntax => PSyntax
  | PBudget => PBudget
  end.

Definition parse_keyword (kw : string) (v : json) (s : jsstring) : presult json :=
  match strip_prefix (lit kw) s with
  | Some r => POk v r
  | None => PSyntax
  end.

(** The JSON grammar by recursive descent.  [fuel] bounds the number of
    nested calls. *)
Fixpoint parse_value (fuel : nat) (s : jsstring) : presult json :=
  match fuel with
  | O => PBudget
  | S f =>
      match skip_ws s with
      | [] => PSyntax
      | c :: r =>
          if Ascii.eqb c "{" then
            match skip_ws r with
            | c' :: r' =>
                if Ascii.eqb c' "}" then POk (JObj []) r'
                else parse_members f r []
            | [] => PSyntax
            end
          else if Ascii.eqb c "[" then
            match skip_ws r with
            | c' :: r' =>
                if Ascii.eqb c' "]" then POk (JArr []) r'
                else parse_elements f r []
            | [] => PSyntax
            end
          else if Ascii.eqb c dquote then
            match parse_string_body r [] with
            | POk str rest => POk (JStr str) rest
            | PSyntax => PSyntax
            | PBudget => PBudget
            end
          else if Ascii.eqb c "t" then parse_keyword "true" (JBool true) (c :: r)
          else if Ascii.eqb c "f" then parse_keyword "false" (JBool false) (c :: r)
          else if Ascii.eqb c "n" then parse_keyword "null" JNull (c :: r)
          else
            match parse_number (c :: r) with
            | POk q rest => POk (JNum q) rest
            | PSyntax => PSyntax
            | PBudget => PBudget
            end
      end
  end
with parse_elements (fuel : nat) (s : jsstring) (acc : list json) : presult json :=
  match fuel with
  | O => PBudget
  | S f =>
      match parse_value f s with
      | POk v r =>
          match skip_ws r with
          | c :: r' =>
              if Ascii.eqb c "," then parse_elements f r' (v :: acc)
              else if Ascii.eqb c "]" then POk (JArr (rev (v :: acc))) r'
              else PSyntax
          | [] => PSyntax
          end
      | PSyntax => PSyntax
      | PBudget => PBudget
      end
  end
with parse_members (fuel : nat) (s : jsstring) (acc : list (jsstring * json))
  : presult json :=
  match fuel with
  | O => PBudget
  | S f =>
      match skip_ws s with
      | q :: r =>
          if Ascii.eqb q dquote then
            match parse_string_body r [] with
            | POk k r1 =>
                match skip_ws r1 with
                | col :: r2 =>
                    if Ascii.eqb col ":" then
                      match parse_value f r2 with
                      | POk v r3 =>
                          match skip_ws r3 with
                          | c :: r4 =>
                              if Ascii.eqb c "," then parse_members f r4 (assign k v acc)
                              else if Ascii.eqb c "}" then POk (JObj (assign k v acc)) r4
                              else PSyntax
                          | [] => PSyntax
                          end
                      | PSyntax => PSyntax
                      | PBudget => PBudget
                      end
                    else PSyntax
                | [] => PSyntax
                end
            | PSyntax => PSyntax
            | PBudget => PBudget
            end
          else PSyntax
      | [] => PSyntax
      end
  end.

(** Outcome of [JSON.parse]: the value, or a thrown [SyntaxError]. *)
Inductive parsed : Type :=
| Parsed (v : json)
| SyntaxError
| OutOfBudget.

Definition budget (s : jsstring) : nat := 2 * List.length s + 2.

(** [JSON.parse(s)] *)
Definition JSON_parse (s : jsstring) : parsed :=
  match parse_value (budget s) s with
  | POk v rest =>
      match skip_ws rest with
      | [] => Parsed v
      | _ :: _ => SyntaxError
      end
  | PSyntax => SyntaxError
  | PBudget => OutOfBudget
  end.

End Json.

Import Json.

(* ================================================================== *)
(** ** Conversions between values *)
(* ================================================================== *)

(** The conversions of the language that [c > 0], [a + b] and [x / n]
    apply to the values of a parsed reply, and [Number(x)], by which the
    schema casts a string stored at a [Number] path. *)
Module Coercion.

(** A number: an exact rational, an infinity, or NaN. *)
Inductive number : Type :=
| Finite (q : Q)
| Infinite (negative : bool)
| NotANumber.

(** The decimal digits of a natural number. *)
Definition decimal_digits (n : N) : jsstring :=
  lit (NilZero.string_of_uint (N.to_uint n)).

(** [q] as [m / 10^k], for the least such [k].  A rational with no
    finite decimal form, which no sum of number literals is, is cut
    after [fuel] decimals. *)
Fixpoint decimal_scale (fuel : nat) (q : Q) (k : nat) : Z * nat :=
  match fuel with
  | O => ((Qnum q / Zpos (Qden q))%Z, k)
  | S f =>
      match Qden q with
      | 1%positive => (Qnum q, k)
      | _ => decimal_scale f (Qred (q * (10 # 1))) (S k)
      end
  end.

Definition is_zero (c : ascii) : bool := Ascii.eqb c "0".

Definition zeros (n : nat) : jsstring := repeat "0"%char n.

(** [Number::toString] of a positive number whose digits are [ds] and
    whose value is [0.ds * 10^n]: plain digits up to 21 integer digits,
    a leading [0.] down to 10^-7, the exponent form beyond. *)
Definition format_digits (ds : jsstring) (n : Z) : jsstring :=
  let k := Z.of_nat (List.length ds) in
  if ((k <=? n) && (n <=? 21))%Z then ds ++ zeros (Z.to_nat (n - k))
  else if ((0 <? n) && (n <=? 21))%Z then
    firstn (Z.to_nat n) ds ++ lit "." ++ skipn (Z.to_nat n) ds
  else if ((-6 <? n) && (n <=? 0))%Z then lit "0." ++ zeros (Z.to_nat (- n)) ++ ds
  else
    let e := (n - 1)%Z in
    let exponent :=
      (if (e <? 0)%Z then lit "e-" else lit "e+") ++ decimal_digits (Z.to_N (Z.abs e)) in
    match ds with
    | [d] => [d] ++ exponent
    | d :: more => [d] ++ lit "." ++ more ++ exponent
    | [] => exponent
    end.

(** [String(q)] for a number [q]; the digits are those of the exact
    rational. *)
Definition NumberToString (q : Q) : jsstring :=
  let r := Qred q in
  match Qnum r with
  | 0%Z => lit "0"
  | _ =>
      let '(m, k) := decimal_scale (Pos.size_nat (Qden r)) (Z.abs (Qnum r) # Qden r) 0 in
      let all := decimal_digits (Z.to_N m) in
      let ds := rev (dropWhile is_zero (rev all)) in
      (if (Qnum r <? 0)%Z then lit "-" else [])
      ++ format_digits ds (Z.of_nat (List.length all) - Z.of_nat k)
  end.

Fixpoint join (sep : jsstring) (l : list jsstring) : jsstring :=
  match l with
  | [] => []
  | [x] => x
  | x :: r => x ++ sep ++ join sep r
  end.

(** [String(v)]: an array is its elements joined by commas, [null]
    counting as the empty string there; an object has no text of its
    own. *)
Fixpoint ToString (v : json) : jsstring :=
  match v with
  | JNull => lit "null"
  | JBool true => lit "true"
  | JBool false => lit "false"
  | JNum q => NumberToString q
  | JStr s => s
  | JArr items =>
      join (lit ",") (map (fun x => match x with JNull => [] | _ => ToString x end) items)
  | JObj _ => lit "[object Object]"
  end.

Definition digit_value (radix : N) (c : ascii) : option N :=
  match hex_val c with
  | Some d => if (d <? radix)%N then Some d else None
  | None => None
  end.

Fixpoint radix_value (radix : N) (s : jsstring) (acc : N) : option N :=
  match s with
  | [] => Some acc
  | c :: r =>
      match digit_value radix c with
      | Some d => radix_value radix r (acc * radix + d)%N
      | None => None
      end
  end.

(** The digits after [0x], [0o] or [0b]: at least one, and nothing
    else. *)
Definition radix_literal (radix : N) (ds : jsstring) : number :=
  match ds with
  | [] => NotANumber
  | _ =>
      match radix_value radix ds 0 with
      | Some n => Finite (inject_Z (Z.of_N n))
      | None => NotANumber
      end
  end.

Definition radix_prefix (s : jsstring) : option (N * jsstring) :=
  match s with
  | z :: x :: ds =>
      if negb (Ascii.eqb z "0") then None
      else if Ascii.eqb x "x" || Ascii.eqb x "X" then Some (16%N, ds)
      else if Ascii.eqb x "o" || Ascii.eqb x "O" then Some (8%N, ds)
      else if Ascii.eqb x "b" || Ascii.eqb x "B" then Some (2%N, ds)
      else None
  | _ => None
  end.

(** What follows the mantissa: nothing, or an exponent with at least
    one digit. *)
Definition exponent_part (s : jsstring) : option Z :=
  match s with
  | [] => Some 0%Z
  | c :: r =>
      if Ascii.eqb c "e" || Ascii.eqb c "E" then
        let '(negative, ds) :=
          match r with
          | sg :: r' =>
              if Ascii.eqb sg "-" then (true, r')
              else if Ascii.eqb sg "+" then (false, r')
              else (false, r)
          | [] => (false, r)
          end in
        match ds with
        | [] => None
        | _ =>
            if forallb is_digit ds
            then Some (if negative then - Z.of_N (digits_val ds)
                       else Z.of_N (digits_val ds))%Z
            else None
        end
      else None
  end.

(** An unsigned decimal literal: [Infinity], or digits with an optional
    fraction and exponent, a digit being required on one side of the
    point. *)
Definition unsigned_decimal (s : jsstring) : number :=
  if str_eqb s (lit "Infinity") then Infinite false
  else
    let ip := takeWhile is_digit s in
    let r1 := dropWhile is_digit s in
    let '(fp, r2) :=
      match r1 with
      | c :: r =>
          if Ascii.eqb c "." then (takeWhile is_digit r, dropWhile is_digit r)
          else ([], r1)
      | [] => ([], r1)
      end in
    match ip ++ fp with
    | [] => NotANumber
    | ds =>
        match exponent_part r2 with
        | Some e =>
            Finite (Qred (inject_Z (Z.of_N (digits_val ds))
                          * Qpower (10 # 1) (e - Z.of_nat (List.length fp))))
        | None => NotANumber
        end
    end.

Definition negate (n : number) : number :=
  match n with
  | Finite q => Finite (Qred (- q))
  | Infinite negative => Infinite (negb negative)
  | NotANumber => NotANumber
  end.

(** [Number(s)] for a string: white space around the literal is
    dropped, the empty string is 0, and a string that is no literal is
    NaN. *)
Definition StringToNumber (s : jsstring) : number :=
  match trim s with
  | [] => Finite 0
  | c :: r =>
      match radix_prefix (c :: r) with
      | Some (radix, ds) => radix_literal radix ds
      | None =>
          if Ascii.eqb c "-" then negate (unsigned_decimal r)
          else if Ascii.eqb c "+" then unsigned_decimal r
          else unsigned_decimal (c :: r)
      end
  end.

(** [Number(v)]: an array or an object is first turned into its string. *)
Definition ToNumber (v : json) : number :=
  match v with
  | JNull => Finite 0
  | JBool b => Finite (if b then 1 else 0)
  | JNum q => Finite q
  | JStr s => StringToNumber s
  | JArr _ | JObj _ => StringToNumber (ToString v)
  end.

(** [v > 0] *)
Definition greater_than_zero (v : json) : bool :=
  match ToNumber v with
  | Finite q => negb (Qle_bool q 0)
  | Infinite negative => negb negative
  | NotANumber => false
  end.

(** The left operand of a running [+]: a number as long as only numbers
    and booleans were added, a string from the first string, array or
    object on. *)
Inductive primitive : Type :=
| PNumber (q : Q)
| PString (s : jsstring).

(** [a + b]: the sum of two numbers, the concatenation of the two
    strings as soon as one side is a string, an array or an object. *)
Definition add (a : primitive) (b : json) : primitive :=
  match a with
  | PNumber x =>
      match b with
      | JNum y => PNumber (x + y)
      | JBool y => PNumber (x + (if y then 1 else 0))
      | JNull => PNumber (x + 0)
      | _ => PString (NumberToString x ++ ToString b)
      end
  | PString s => PString (s ++ ToString b)
  end.

(** [a / n] for a count [n > 0]. *)
Definition divide (a : primitive) (n : nat) : number :=
  let by_n q := Finite (Qred (q / inject_Z (Z.of_nat n))) in
  match a with
  | PNumber q => by_n q
  | PString s =>
      match StringToNumber s with
      | Finite q => by_n q
      | other => other
      end
  end.

End Coercion.

(* ================================================================== *)
(** ** Exceptions *)
(* ================================================================== *)

(** What a [throw] carries, by origin. *)
Inductive error : Type :=
| NoJsonFound                 (* _parseAIResponse: no [{ ... }] span *)
| InvalidJson                 (* _parseAIResponse: both parse attempts failed *)
| TypeError                   (* a method called on [undefined] *)
| External (msg : jsstring).  (* thrown by a collaborator, with its message *)

(** [error.message].  For [InvalidJson] the engine's own [SyntaxError]
    text follows the prefix given here; for [TypeError] the engine's
    text is abbreviated. *)
Definition message (e : error) : jsstring :=
  match e with
  | NoJsonFound => lit "Invalid AI response format: No JSON found in response"
  | InvalidJson =>
      lit "Invalid AI response format: Could not parse AI response as valid JSON: "
  | TypeError => lit "Cannot read properties of undefined"
  | External msg => msg
  end.

(** A computation that returns or throws. *)
Inductive outcome (A : Type) : Type :=
| Return (a : A)
| Throw (e : error).
Arguments Return {A} a.
Arguments Throw {A} e.

(* ================================================================== *)
(** ** AIService: the tolerant parser *)
(* ================================================================== *)

Module AIService.

Definition not_char (x : ascii) (c : ascii) : bool := negb (Ascii.eqb c x).

(** [/```json\n?/] *)
Definition re_fence_json (s : jsstring) : option (jsstring * nat) :=
  match strip_prefix (lit "```json") s with
  | Some (c :: _) => Some ([], if Ascii.eqb c (chr 10) then 8 else 7)
  | Some [] => Some ([], 7)
  | None => None
  end.

(** [/```\n?/] *)
Definition re_fence (s : jsstring) : option (jsstring * nat) :=
  match strip_prefix (lit "```") s with
  | Some (c :: _) => Some ([], if Ascii.eqb c (chr 10) then 4 else 3)
  | Some [] => Some ([], 3)
  | None => None
  end.

(** The longest prefix of [s] that ends with the character [c]. *)
Fixpoint upto_last (c : ascii) (s : jsstring) : option jsstring :=
  match s with
  | [] => None
  | x :: r =>
      match upto_last c r with
      | Some p => Some (x :: p)
      | None => if Ascii.eqb x c then Some [x] else None
      end
  end.

(** The match of an opening brace, any characters taken greedily, and a
    closing brace in [cleanText]: from the first opening brace to the
    last closing brace after it. *)
Definition match_braces (s : jsstring) : option jsstring :=
  match dropWhile (not_char "{") s with
  | [] => None
  | open :: after =>
      match upto_last "}" after with
      | Some p => Some (open :: p)
      | None => None
      end
  end.

(** Fix 1, values: a colon, optional white space and a single-quoted
    run without single quotes; replaced by a colon, a space and the run
    in double quotes. *)
Definition re_quoted_value (s : jsstring) : option (jsstring * nat) :=
  match s with
  | c :: r =>
      if Ascii.eqb c ":" then
        let ws := takeWhile is_space r in
        match dropWhile is_space r with
        | q :: r2 =>
            if Ascii.eqb q quote then
              let body := takeWhile (not_char quote) r2 in
              match dropWhile (not_char quote) r2 with
              | _ :: _ =>
                  Some (lit ": " ++ dquote :: body ++ [dquote],
                        1 + List.length ws + 1 + List.length body + 1)
              | [] => None
              end
            else None
        | [] => None
        end
      else None
  | [] => None
  end.

(** Fix 1, keys: an opening brace, optional white space, a single-quoted
    run without single quotes, optional white space and a colon; replaced
    by the brace, the run in double quotes and the colon. *)
Definition re_quoted_key (s : jsstring) : option (jsstring * nat) :=
  match s with
  | c :: r =>
      if Ascii.eqb c "{" then
        let ws := takeWhile is_space r in
        match dropWhile is_space r with
        | q :: r2 =>
            if Ascii.eqb q quote then
              let body := takeWhile (not_char quote) r2 in
              match dropWhile (not_char quote) r2 with
              | _ :: r3 =>
                  let ws' := takeWhile is_space r3 in
                  match dropWhile is_space r3 with
                  | col :: _ =>
                      if Ascii.eqb col ":" then
                        Some ("{"%char :: dquote :: body ++ [dquote; ":"%char],
                              1 + List.length ws + 1 + List.length body + 1
                              + List.length ws' + 1)
                      else None
                  | [] => None
                  end
              | [] => None
              end
            else None
        | [] => None
        end
      else None
  | [] => None
  end.

(** Every double quote of [content] gets a backslash in front. *)
Definition escape_quotes (s : jsstring) : jsstring :=
  flat_map (fun c => if Ascii.eqb c dquote then ["\"%char; dquote] else [c]) s.

(** Fix 2: the key description in double quotes, a colon, optional white
    space, an opening double quote, then lazily a run without double
    quotes up to the next double quote; the callback rebuilds the match
    from its prefix, its escaped content and a closing quote. *)
Definition re_description (s : jsstring) : option (jsstring * nat) :=
  let key := dquote :: lit "description" ++ [dquote; ":"%char] in
  match strip_prefix key s with
  | Some r =>
      let ws := takeWhile is_space r in
      match dropWhile is_space r with
      | q :: r2 =>
          if Ascii.eqb q dquote then
            let content := takeWhile (not_char dquote) r2 in
            match dropWhile (not_char dquote) r2 with
            | _ :: _ =>
                let prefix := key ++ ws ++ [dquote] in
                Some (prefix ++ escape_quotes content ++ [dquote],
                      List.length prefix + List.length content + 1)
            | [] => None
            end
          else None
      | [] => None
      end
  | None => None
  end.

(** The inner [validateAndParse] of [_validateAndFixParsedData]. *)
Definition validateAndParse (obj : json) : json :=
  match obj with
  | JStr s =>
      if (startsWith s (lit "{") && endsWith s (lit "}"))
         || (startsWith s (lit "[") && endsWith s (lit "]"))
      then
        match JSON_parse (map (fun c => if Ascii.eqb c quote then dquote else c) s) with
        | Parsed v => v
        | _ => obj
        end
      else obj
  | _ => obj
  end.

Definition fixed_fields : list string :=
  ["parties"; "keyDates"; "financialTerms"; "clauses"; "risks"; "issues";
   "recommendations"; "comparableTerms"]%string.

(** [if (parsed.k) parsed.k = validateAndParse(parsed.k)] *)
Definition fix_field (props : list (jsstring * json)) (k : string)
  : list (jsstring * json) :=
  match lookup (lit k) props with
  | Some v => if truthy (Some v) then assign (lit k) (validateAndParse v) props else props
  | None => props
  end.

Definition _validateAndFixParsedData (parsed : json) : json :=
  match parsed with
  | JObj props => JObj (fold_left fix_field fixed_fields props)
  | _ => parsed
  end.

(** [_parseAIResponse(text)] *)
Definition _parseAIResponse (text : jsstring) : outcome json :=
  let cleanText := trim (replace_all re_fence (replace_all re_fence_json text)) in
  match match_braces cleanText with
  | None => Throw NoJsonFound
  | Some jsonStr =>
      match JSON_parse jsonStr with
      | Parsed parsed => Return (_validateAndFixParsedData parsed)
      | _ =>
          let jsonStr1 := replace_all re_quoted_value jsonStr in
          let jsonStr2 := replace_all re_quoted_key jsonStr1 in
          let jsonStr3 := replace_all re_description jsonStr2 in
          match JSON_parse jsonStr3 with
          | Parsed parsed => Return (_validateAndFixParsedData parsed)
          | _ => Throw InvalidJson
          end
      end
  end.

(* ------------------------------------------------------------------ *)
(** *** The lexical similarity scorer *)

(** A stable sort: [before a b] tells that [a] may stay in front of [b];
    an element is moved behind exactly the elements that must precede
    it.  This is what [Array.prototype.sort] does with a comparator
    [cmp] for which [before a b] is [cmp(a, b) <= 0]. *)
Section StableSort.
Context {A : Type} (before : A -> A -> bool).

Fixpoint insert_sorted (x : A) (l : list A) : list A :=
  match l with
  | [] => [x]
  | y :: r => if before x y then x :: l else y :: insert_sorted x r
  end.

Definition stable_sort (l : list A) : list A :=
  fold_right insert_sorted [] l.

End StableSort.

(** [frequency[w] = (frequency[w] || 0) + 1] on an object whose
    properties are kept in creation order.  The object is taken to have
    no inherited properties: a token that is the name of a property of
    [Object.prototype] ([constructor], [__proto__]) is outside the
    model. *)
Fixpoint bump (w : jsstring) (freq : list (jsstring * nat)) : list (jsstring * nat) :=
  match freq with
  | [] => [(w, 1)]
  | (k, n) :: r => if str_eqb w k then (k, S n) :: r else (k, n) :: bump w r
  end.

(** A property name that is an array index (a canonical decimal numeral
    below 2^32 - 1): such names are enumerated first, in numeric order. *)
Definition is_array_index (k : jsstring) : bool :=
  match k with
  | [] => false
  | c :: r =>
      forallb is_digit k
      && (negb (Ascii.eqb c "0") || match r with [] => true | _ => false end)
      && (List.length k <=? 10)
      && (digits_val k <? 4294967295)%N
  end.

(** [Object.entries(frequency)] *)
Definition object_entries (freq : list (jsstring * nat)) : list (jsstring * nat) :=
  stable_sort (fun a b => (digits_val (fst a) <=? digits_val (fst b))%N)
              (filter (fun e => is_array_index (fst e)) freq)
  ++ filter (fun e => negb (is_array_index (fst e))) freq.

(** The words of [_extractKeywords]: lower-cased, stripped of the
    characters that are neither word characters nor white space, split
    on white space. *)
Definition tokens (text : jsstring) : list jsstring :=
  split_ws (filter (fun c => is_word c || is_space c) (toLowerCase text)).

Definition _extractKeywords (text : jsstring) : list jsstring :=
  let words := filter (fun w => 4 <? List.length w) (tokens text) in
  let frequency := fold_left (fun f w => bump w f) words [] in
  map fst
      (firstn 20
              (stable_sort (fun a b => snd b <=? snd a) (object_entries frequency))).

(** A JavaScript number of the scorer: a rational, or NaN. *)
Inductive jsnum : Type :=
| Num (q : Q)
| NaN.

(** [matches / keywords1.length] for [matches <= keywords1.length]:
    0/0 is NaN. *)
Definition ratio (matches total : nat) : jsnum :=
  match total with
  | O => NaN
  | S _ => Num (Z.of_nat matches # Pos.of_nat total)
  end.

(** [_calculateSimilarity(keywords1, text2)]; [text2] is [None] when the
    candidate has no text. *)
Definition _calculateSimilarity (keywords1 : list jsstring) (text2 : option jsstring)
  : jsnum :=
  match text2 with
  | None => Num 0
  | Some [] => Num 0
  | Some t2 =>
      let text2Lower := toLowerCase t2 in
      let matches := List.length (filter (fun k => includes text2Lower k) keywords1) in
      ratio matches (List.length keywords1)
  end.

Definition features : list jsstring :=
  map lit ["termination"; "payment"; "liability"; "confidentiality";
           "indemnification"]%string.

(** [_findMatchedFeatures(text1, text2)]: [text2.includes] is reached,
    and throws on a missing [text2], as soon as [text1] has a feature. *)
Definition _findMatchedFeatures (text1 : jsstring) (text2 : option jsstring)
  : outcome (list jsstring) :=
  match text2 with
  | Some t2 => Return (filter (fun f => includes text1 f && includes t2 f) features)
  | None => if existsb (includes text1) features then Throw TypeError else Return []
  end.

(** An element of [similarContracts]. *)
Record SimilarContract : Type := {
  contractId : Z;
  similarity : jsnum;
  matchedFeatures : list jsstring
}.

(** [s.similarity > 0.3] *)
Definition above_threshold (s : SimilarContract) : bool :=
  match similarity s with
  | Num q => negb (Qle_bool q (3 # 10))
  | NaN => false
  end.

(** The comparator [(a, b) => b.similarity - a.similarity] leaves [a] in
    front of [b] unless it is positive. *)
Definition sim_before (a b : SimilarContract) : bool :=
  match similarity a, similarity b with
  | Num x, Num y => Qle_bool y x
  | _, _ => true
  end.

(** [{ ok: true, data }] or [{ ok: false, error, fallback: [] }]. *)
Inductive similar_result : Type :=
| SimilarOk (data : list SimilarContract)
| SimilarFailed (error : jsstring).

(** The [map] of [findSimilarContracts] over the candidates, given as
    pairs of [_id] and [textContent]; it stops at the first throw. *)
Fixpoint score_all (contractText : jsstring) (keywords : list jsstring)
         (allContracts : list (Z * option jsstring))
  : outcome (list SimilarContract) :=
  match allContracts with
  | [] => Return []
  | (id, textContent) :: rest =>
      match _findMatchedFeatures contractText textContent with
      | Return mf =>
          match score_all contractText keywords rest with
          | Return l =>
              Return ({| contractId := id;
                         similarity := _calculateSimilarity keywords textContent;
                         matchedFeatures := mf |} :: l)
          | Throw e => Throw e
          end
      | Throw e => Throw e
      end
  end.

Definition findSimilarContracts (contractText : jsstring)
           (allContracts : list (Z * option jsstring)) : similar_result :=
  let keywords := _extractKeywords contractText in
  match score_all contractText keywords allContracts with
  | Return scored =>
      SimilarOk (firstn 5 (stable_sort sim_before (filter above_threshold scored)))
  | Throw e => SimilarFailed (message e)
  end.

(* ------------------------------------------------------------------ *)
(** *** The stage clients *)

(** What is sent to the language model: which prompt, and the inputs the
    prompt is built from (the risk and compliance prompts embed the first
    15000 characters of the text, the pricing prompt the first 10000). *)
Inductive request : Type :=
| IntelligencePrompt (contractText contractTitle : jsstring)
| RiskPrompt (textHead : jsstring) (extractedData : json)
| CompliancePrompt (textHead : jsstring) (extractedData : json)
| PricingPrompt (textHead : jsstring) (financialTerms : list json).

(** [config.ai.enabled], and [client.messages.create] as a function from
    the request to the text of the reply or to the error it throws. *)
Record Capability : Type := {
  enabled : bool;
  complete : request -> outcome jsstring
}.

(** What a stage client returns: [{ ok: true, data }], or
    [{ ok: false, error, fallback }], or a fallback object alone. *)
Inductive stage_result : Type :=
| StageOk (data : json)
| StageFailed (error : jsstring) (fallback : json)
| Fallback (fallback : json).

(** [result.ok], as a condition. *)
Definition ok_of (r : stage_result) : bool :=
  match r with
  | StageOk _ => true
  | StageFailed _ _ => false
  | Fallback _ => false
  end.

(** [result.error]; a fallback object has no such property. *)
Definition error_of (r : stage_result) : option jsstring :=
  match r with
  | StageOk _ => None
  | StageFailed e _ => Some e
  | Fallback _ => None
  end.

Definition _fallbackExtraction : json :=
  JObj [(lit "parties", JArr []); (lit "keyDates", JArr []);
        (lit "financialTerms", JArr []); (lit "clauses", JArr []);
        (lit "confidence", JNum 0);
        (lit "note", JStr (lit "AI service unavailable - manual review required"))].

Definition _fallbackRiskAssessment : json :=
  JObj [(lit "riskLevel", JStr (lit "medium")); (lit "risks", JArr []);
        (lit "overallAssessment",
         JStr (lit "AI service unavailable - manual review recommended"));
        (lit "confidence", JNum 0)].

Definition _fallbackCompliance : json :=
  JObj [(lit "complianceScore", JNum 50); (lit "issues", JArr []);
        (lit "recommendations",
         JArr [JStr (lit "Manual compliance review recommended")]);
        (lit "confidence", JNum 0)].

Definition _fallbackPricingAnalysis : json :=
  JObj [(lit "marketPosition", JStr (lit "average"));
        (lit "analysis", JStr (lit "AI service unavailable"));
        (lit "recommendations",
         JArr [JStr (lit "Manual pricing review recommended")]);
        (lit "comparableTerms", JArr []); (lit "confidence", JNum 0)].

(** The body shared by the four clients.  The second component lists the
    requests sent to the language model. *)
Definition run_stage (ai : Capability) (req : request) (fallback : json)
  : stage_result * list request :=
  if negb (enabled ai) then (Fallback fallback, [])
  else
    (match complete ai req with
     | Return rawResponse =>
         match _parseAIResponse rawResponse with
         | Return result => StageOk result
         | Throw e => StageFailed (message e) fallback
         end
     | Throw e => StageFailed (message e) fallback
     end, [req]).

Definition extractContractIntelligence (ai : Capability)
           (contractText contractTitle : jsstring) :=
  run_stage ai (IntelligencePrompt contractText contractTitle) _fallbackExtraction.

Definition assessRisks (ai : Capability) (contractText : jsstring) (extractedData : json) :=
  run_stage ai (RiskPrompt (firstn 15000 contractText) extractedData)
            _fallbackRiskAssessment.

Definition checkCompliance (ai : Capability) (contractText : jsstring)
           (extractedData : json) :=
  run_stage ai (CompliancePrompt (firstn 15000 contractText) extractedData)
            _fallbackCompliance.

Definition analyzePricing (ai : Capability) (contractText : jsstring)
           (financialTerms : list json) :=
  run_stage ai (PricingPrompt (firstn 10000 contractText) financialTerms)
            _fallbackPricingAnalysis.

End AIService.

Import AIService.

(* ================================================================== *)
(** ** The Contract document (models/Contract.js) *)
(* ================================================================== *)

Module Model.

Inductive FileType : Type := pdf | text.

Inductive Status : Type := pending | processing | analyzed | failed.

(** An element of [keyDates]; [date] is a [Date] in milliseconds since
    the epoch, [None] when the element has none. *)
Record KeyDate : Type := {
  dateType : option jsstring;
  date : option Z;
  description : option jsstring
}.

Record PricingAnalysis : Type := {
  marketPosition : option json;
  recommendations : json;
  comparableTerms : json
}.

(** The value of [aiConfidenceScore]: the number the aggregate returns.
    The schema cannot cast NaN, so a document that carries it is one
    whose [save()] is rejected. *)
Definition score : Type := Coercion.number.

(** The schema's cast of a value assigned to a [Number] path: a number
    is kept, [null] and the empty string give [null], a boolean or any
    other string gives [Number(v)].  A value that cannot be cast (a
    string that is no number, an array, an object) invalidates the
    document, whose [save()] is then rejected; it is kept here as it
    is, and so is a string whose number is not finite. *)
Definition castNumber (v : json) : json :=
  match v with
  | JStr [] => JNull
  | JStr s =>
      match Coercion.StringToNumber s with
      | Coercion.Finite q => JNum q
      | _ => v
      end
  | JBool b => JNum (if b then 1 else 0)
  | _ => v
  end.

(** A document.  Sequences default to empty and [errorCount] to 0; an
    optional path that is unset is [None]. *)
Record Contract : Type := {
  _id : Z;
  title : jsstring;
  fileName : jsstring;
  filePath : jsstring;
  fileType : FileType;
  status : Status;
  textContent : option jsstring;
  parties : list json;
  keyDates : list KeyDate;
  financialTerms : list json;
  clauses : list json;
  riskLevel : option json;
  risks : list json;
  complianceScore : option json;
  complianceIssues : list json;
  similarContracts : list SimilarContract;
  pricingAnalysis : option PricingAnalysis;
  aiAnalysisDate : option Z;
  aiConfidenceScore : option score;
  aiProcessingTime : option Z;
  lastError : option jsstring;
  errorCount : Z
}.

(** Assignments to the paths the service writes. *)
Definition set_status (v : Status) (c : Contract) : Contract :=
  {| _id := _id c; title := title c; fileName := fileName c; filePath :=
     filePath c; fileType := fileType c; status := v; textContent :=
     textContent c; parties := parties c; keyDates := keyDates c;
     financialTerms := financialTerms c; clauses := clauses c; riskLevel
     := riskLevel c; risks := risks c; complianceScore := complianceScore
     c; complianceIssues := complianceIssues c; similarContracts :=
     similarContracts c; pricingAnalysis := pricingAnalysis c;
     aiAnalysisDate := aiAnalysisDate c; aiConfidenceScore :=
     aiConfidenceScore c; aiProcessingTime := aiProcessingTime c;
     lastError := lastError c; errorCount := errorCount c |}.

Definition set_parties (v : list json) (c : Contract) : Contract :=
  {| _id := _id c; title := title c; fileName := fileName c; filePath :=
     filePath c; fileType := fileType c; status := status c; textContent
     := textContent c; parties := v; keyDates := keyDates c;
     financialTerms := financialTerms c; clauses := clauses c; riskLevel
     := riskLevel c; risks := risks c; complianceScore := complianceScore
     c; complianceIssues := complianceIssues c; similarContracts :=
     similarContracts c; pricingAnalysis := pricingAnalysis c;
     aiAnalysisDate := aiAnalysisDate c; aiConfidenceScore :=
     aiConfidenceScore c; aiProcessingTime := aiProcessingTime c;
     lastError := lastError c; errorCount := errorCount c |}.

Definition set_keyDates (v : list KeyDate) (c : Contract) : Contract :=
  {| _id := _id c; title := title c; fileName := fileName c; filePath :=
     filePath c; fileType := fileType c; status := status c; textContent
     := textContent c; parties := parties c; keyDates := v; financialTerms
     := financialTerms c; clauses := clauses c; riskLevel := riskLevel c;
     risks := risks c; complianceScore := complianceScore c;
     complianceIssues := complianceIssues c; similarContracts :=
     similarContracts c; pricingAnalysis := pricingAnalysis c;
     aiAnalysisDate := aiAnalysisDate c; aiConfidenceScore :=
     aiConfidenceScore c; aiProcessingTime := aiProcessingTime c;
     lastError := lastError c; errorCount := errorCount c |}.

Definition set_financialTerms (v : list json) (c : Contract) : Contract :=
  {| _id := _id c; title := title c; fileName := fileName c; filePath :=
     filePath c; fileType := fileType c; status := status c; textContent
     := textContent c; parties := parties c; keyDates := keyDates c;
     financialTerms := v; clauses := clauses c; riskLevel := riskLevel c;
     risks := risks c; complianceScore := complianceScore c;
     complianceIssues := complianceIssues c; similarContracts :=
     similarContracts c; pricingAnalysis := pricingAnalysis c;
     aiAnalysisDate := aiAnalysisDate c; aiConfidenceScore :=
     aiConfidenceScore c; aiProcessingTime := aiProcessingTime c;
     lastError := lastError c; errorCount := errorCount c |}.

Definition set_clauses (v : list json) (c : Contract) : Contract :=
  {| _id := _id c; title := title c; fileName := fileName c; filePath :=
     filePath c; fileType := fileType c; status := status c; textContent
     := textContent c; parties := parties c; keyDates := keyDates c;
     financialTerms := financialTerms c; clauses := v; riskLevel :=
     riskLevel c; risks := risks c; complianceScore := complianceScore c;
     complianceIssues := complianceIssues c; similarContracts :=
     similarContracts c; pricingAnalysis := pricingAnalysis c;
     aiAnalysisDate := aiAnalysisDate c; aiConfidenceScore :=
     aiConfidenceScore c; aiProcessingTime := aiProcessingTime c;
     lastError := lastError c; errorCount := errorCount c |}.

Definition set_riskLevel (v : option json) (c : Contract) : Contract :=
  {| _id := _id c; title := title c; fileName := fileName c; filePath :=
     filePath c; fileType := fileType c; status := status c; textContent
     := textContent c; parties := parties c; keyDates := keyDates c;
     financialTerms := financialTerms c; clauses := clauses c; riskLevel
     := v; risks := risks c; complianceScore := complianceScore c;
     complianceIssues := complianceIssues c; similarContracts :=
     similarContracts c; pricingAnalysis := pricingAnalysis c;
     aiAnalysisDate := aiAnalysisDate c; aiConfidenceScore :=
     aiConfidenceScore c; aiProcessingTime := aiProcessingTime c;
     lastError := lastError c; errorCount := errorCount c |}.

Definition set_risks (v : list json) (c : Contract) : Contract :=
  {| _id := _id c; title := title c; fileName := fileName c; filePath :=
     filePath c; fileType := fileType c; status := status c; textContent
     := textContent c; parties := parties c; keyDates := keyDates c;
     financialTerms := financialTerms c; clauses := clauses c; riskLevel
     := riskLevel c; risks := v; complianceScore := complianceScore c;
     complianceIssues := complianceIssues c; similarContracts :=
     similarContracts c; pricingAnalysis := pricingAnalysis c;
     aiAnalysisDate := aiAnalysisDate c; aiConfidenceScore :=
     aiConfidenceScore c; aiProcessingTime := aiProcessingTime c;
     lastError := lastError c; errorCount := errorCount c |}.

Definition set_complianceScore (v : option json) (c : Contract) : Contract :=
  {| _id := _id c; title := title c; fileName := fileName c; filePath :=
     filePath c; fileType := fileType c; status := status c; textContent
     := textContent c; parties := parties c; keyDates := keyDates c;
     financialTerms := financialTerms c; clauses := clauses c; riskLevel
     := riskLevel c; risks := risks c; complianceScore := v;
     complianceIssues := complianceIssues c; similarContracts :=
     similarContracts c; pricingAnalysis := pricingAnalysis c;
     aiAnalysisDate := aiAnalysisDate c; aiConfidenceScore :=
     aiConfidenceScore c; aiProcessingTime := aiProcessingTime c;
     lastError := lastError c; errorCount := errorCount c |}.

Definition set_complianceIssues (v : list json) (c : Contract) : Contract :=
  {| _id := _id c; title := title c; fileName := fileName c; filePath :=
     filePath c; fileType := fileType c; status := status c; textContent
     := textContent c; parties := parties c; keyDates := keyDates c;
     financialTerms := financialTerms c; clauses := clauses c; riskLevel
     := riskLevel c; risks := risks c; complianceScore := complianceScore
     c; complianceIssues := v; similarContracts := similarContracts c;
     pricingAnalysis := pricingAnalysis c; aiAnalysisDate :=
     aiAnalysisDate c; aiConfidenceScore := aiConfidenceScore c;
     aiProcessingTime := aiProcessingTime c; lastError := lastError c;
     errorCount := errorCount c |}.

Definition set_similarContracts (v : list SimilarContract) (c : Contract) : Contract :=
  {| _id := _id c; title := title c; fileName := fileName c; filePath :=
     filePath c; fileType := fileType c; status := status c; textContent
     := textContent c; parties := parties c; keyDates := keyDates c;
     financialTerms := financialTerms c; clauses := clauses c; riskLevel
     := riskLevel c; risks := risks c; complianceScore := complianceScore
     c; complianceIssues := complianceIssues c; similarContracts := v;
     pricingAnalysis := pricingAnalysis c; aiAnalysisDate :=
     aiAnalysisDate c; aiConfidenceScore := aiConfidenceScore c;
     aiProcessingTime := aiProcessingTime c; lastError := lastError c;
     errorCount := errorCount c |}.

Definition set_pricingAnalysis (v : option PricingAnalysis) (c : Contract) : Contract :=
  {| _id := _id c; title := title c; fileName := fileName c; filePath :=
     filePath c; fileType := fileType c; status := status c; textContent
     := textContent c; parties := parties c; keyDates := keyDates c;
     financialTerms := financialTerms c; clauses := clauses c; riskLevel
     := riskLevel c; risks := risks c; complianceScore := complianceScore
     c; complianceIssues := complianceIssues c; similarContracts :=
     similarContracts c; pricingAnalysis := v; aiAnalysisDate :=
     aiAnalysisDate c; aiConfidenceScore := aiConfidenceScore c;
     aiProcessingTime := aiProcessingTime c; lastError := lastError c;
     errorCount := errorCount c |}.

Definition set_aiAnalysisDate (v : option Z) (c : Contract) : Contract :=
  {| _id := _id c; title := title c; fileName := fileName c; filePath :=
     filePath c; fileType := fileType c; status := status c; textContent
     := textContent c; parties := parties c; keyDates := keyDates c;
     financialTerms := financialTerms c; clauses := clauses c; riskLevel
     := riskLevel c; risks := risks c; complianceScore := complianceScore
     c; complianceIssues := complianceIssues c; similarContracts :=
     similarContracts c; pricingAnalysis := pricingAnalysis c;
     aiAnalysisDate := v; aiConfidenceScore := aiConfidenceScore c;
     aiProcessingTime := aiProcessingTime c; lastError := lastError c;
     errorCount := errorCount c |}.

Definition set_aiConfidenceScore (v : option score) (c : Contract) : Contract :=
  {| _id := _id c; title := title c; fileName := fileName c; filePath :=
     filePath c; fileType := fileType c; status := status c; textContent
     := textContent c; parties := parties c; keyDates := keyDates c;
     financialTerms := financialTerms c; clauses := clauses c; riskLevel
     := riskLevel c; risks := risks c; complianceScore := complianceScore
     c; complianceIssues := complianceIssues c; similarContracts :=
     similarContracts c; pricingAnalysis := pricingAnalysis c;
     aiAnalysisDate := aiAnalysisDate c; aiConfidenceScore := v;
     aiProcessingTime := aiProcessingTime c; lastError := lastError c;
     errorCount := errorCount c |}.

Definition set_aiProcessingTime (v : option Z) (c : Contract) : Contract :=
  {| _id := _id c; title := title c; fileName := fileName c; filePath :=
     filePath c; fileType := fileType c; status := status c; textContent
     := textContent c; parties := parties c; keyDates := keyDates c;
     financialTerms := financialTerms c; clauses := clauses c; riskLevel
     := riskLevel c; risks := risks c; complianceScore := complianceScore
     c; complianceIssues := complianceIssues c; similarContracts :=
     similarContracts c; pricingAnalysis := pricingAnalysis c;
     aiAnalysisDate := aiAnalysisDate c; aiConfidenceScore :=
     aiConfidenceScore c; aiProcessingTime := v; lastError := lastError c;
     errorCount := errorCount c |}.

Definition set_lastError (v : option jsstring) (c : Contract) : Contract :=
  {| _id := _id c; title := title c; fileName := fileName c; filePath :=
     filePath c; fileType := fileType c; status := status c; textContent
     := textContent c; parties := parties c; keyDates := keyDates c;
     financialTerms := financialTerms c; clauses := clauses c; riskLevel
     := riskLevel c; risks := risks c; complianceScore := complianceScore
     c; complianceIssues := complianceIssues c; similarContracts :=
     similarContracts c; pricingAnalysis := pricingAnalysis c;
     aiAnalysisDate := aiAnalysisDate c; aiConfidenceScore :=
     aiConfidenceScore c; aiProcessingTime := aiProcessingTime c;
     lastError := v; errorCount := errorCount c |}.

Definition set_errorCount (v : Z) (c : Contract) : Contract :=
  {| _id := _id c; title := title c; fileName := fileName c; filePath :=
     filePath c; fileType := fileType c; status := status c; textContent
     := textContent c; parties := parties c; keyDates := keyDates c;
     financialTerms := financialTerms c; clauses := clauses c; riskLevel
     := riskLevel c; risks := risks c; complianceScore := complianceScore
     c; complianceIssues := complianceIssues c; similarContracts :=
     similarContracts c; pricingAnalysis := pricingAnalysis c;
     aiAnalysisDate := aiAnalysisDate c; aiConfidenceScore :=
     aiConfidenceScore c; aiProcessingTime := aiProcessingTime c;
     lastError := lastError c; errorCount := v |}.

End Model.

Import Model.

(* ================================================================== *)
(** ** ContractService: the orchestrator *)
(* ================================================================== *)

Module ContractService.

(** The collection, in natural order. *)
Definition Store : Type := list Contract.

(** Everything outside the service that one operation consults. *)
Record World : Type := {
  ai : Capability;
  (** the message of the error [save()] throws for a document (schema
      validation, cast or storage failure), [None] when it succeeds *)
  save_error : Contract -> option jsstring;
  (** the schema's cast of an element assigned to [keyDates] *)
  castKeyDate : json -> KeyDate;
  (** [new Date()] at the end of the run *)
  now : Z;
  (** [Date.now() - startTime] *)
  elapsed : Z
}.

(** [Contract.findById(id)] *)
Definition findById (id : Z) (store : Store) : option Contract :=
  find (fun c => (_id c =? id)%Z) store.

(** The effect of a successful [contract.save()] on the collection. *)
Fixpoint put (c : Contract) (store : Store) : Store :=
  match store with
  | [] => [c]
  | d :: r => if (_id d =? _id c)%Z then c :: r else d :: put c r
  end.

(** [{ ok, error, data }] as returned to the route. *)
Record Response : Type := {
  ok : bool;
  error : option jsstring;
  data : option Contract
}.

(** An operation's effect: the collection afterwards, what the returned
    promise settles to, the requests sent to the language model, and the
    deadlines handed to the notifier, if it was invoked. *)
Record Run : Type := {
  final_store : Store;
  response : outcome Response;
  calls : list request;
  alert : option (list KeyDate)
}.

(** [_handleAnalysisError(contract, errorMessage)]; [errorMessage] is
    [None] when the caller passes [undefined]. *)
Definition _handleAnalysisError (w : World) (store : Store) (contract : Contract)
           (errorMessage : option jsstring) : Store * outcome Response :=
  let contract :=
    set_errorCount (errorCount contract + 1)%Z
      (set_lastError errorMessage (set_status failed contract)) in
  match save_error w contract with
  | Some m => (store, Throw (External m))
  | None =>
      (put contract store,
       Return {| ok := false; error := errorMessage; data := Some contract |})
  end.

(** The [catch] block of [analyzeContract]. *)
Definition on_error (w : World) (store : Store) (contractId : Z) (msg : jsstring)
  : Store * outcome Response :=
  match findById contractId store with
  | Some contract => _handleAnalysisError w store contract (Some msg)
  | None => (store, Return {| ok := false; error := Some msg; data := None |})
  end.

Definition sum_Q (l : list Q) : Q := fold_left Qplus l 0%Q.

(** [r.ok && r.data.confidence ? r.data.confidence : 0] *)
Definition confidence_or_zero (r : stage_result) : json :=
  match r with
  | StageOk d =>
      match field "confidence" d with
      | Some x => if truthy (Some x) then x else JNum 0
      | None => JNum 0
      end
  | _ => JNum 0
  end.

(** [_calculateOverallConfidence(intelligence, riskResult, complianceResult)],
    the first argument being the [confidence] property of the object
    literal passed by [analyzeContract].  Only the first entry is
    checked to be a number: the other two are whatever truthy value the
    reply carries, compared, added and divided as the language does. *)
Definition _calculateOverallConfidence (intelligence_confidence : json)
           (riskResult complianceResult : stage_result) : score :=
  let confidences :=
    [match intelligence_confidence with JNum q => JNum q | _ => JNum 0 end;
     confidence_or_zero riskResult;
     confidence_or_zero complianceResult] in
  let validConfidences := filter Coercion.greater_than_zero confidences in
  match validConfidences with
  | [] => Coercion.Finite 0
  | _ =>
      Coercion.divide
        (fold_left Coercion.add validConfidences (Coercion.PNumber 0))
        (List.length validConfidences)
  end.

Definition thirty_days : Z := (30 * 24 * 60 * 60 * 1000)%Z.

(** [kd.date >= now && kd.date <= thirtyDaysFromNow]; without a date the
    comparison with [now] is false. *)
Definition is_upcoming (now : Z) (kd : KeyDate) : bool :=
  match date kd with
  | Some d => ((now <=? d) && (d <=? now + thirty_days))%Z
  | None => false
  end.

(** [_checkDeadlinesAndAlert(contract)]: the deadlines passed to
    [emailService.sendDeadlineAlert], [None] when it is not invoked. *)
Definition _checkDeadlinesAndAlert (now : Z) (contract : Contract)
  : option (list KeyDate) :=
  match filter (is_upcoming now) (keyDates contract) with
  | [] => None
  | upcomingDeadlines => Some upcomingDeadlines
  end.

(** [Array.isArray(v) && v.length > 0] *)
Definition nonempty_array (v : option json) : option (list json) :=
  match v with
  | Some (JArr (x :: l)) => Some (x :: l)
  | _ => None
  end.

(** [Array.isArray(v) ? v : []] *)
Definition array_or_empty (v : option json) : list json :=
  match v with
  | Some (JArr l) => l
  | _ => []
  end.

(** [v || []] *)
Definition or_empty (v : option json) : json :=
  match v with
  | Some x => if truthy v then x else JArr []
  | None => JArr []
  end.

(** [v || 0] *)
Definition or_zero (v : option json) : json :=
  match v with
  | Some x => if truthy v then x else JNum 0
  | None => JNum 0
  end.

(** The four guarded assignments of the extracted arrays.  An assigned
    array is kept as the values of the reply; the sub-documents the
    schema makes of them, each with an identifier of its own, are not
    modelled. *)
Definition merge_intelligence (w : World) (intelligence : json) (contract : Contract)
  : Contract :=
  let contract :=
    match nonempty_array (field "parties" intelligence) with
    | Some l => set_parties l contract
    | None => contract
    end in
  let contract :=
    match nonempty_array (field "keyDates" intelligence) with
    | Some l => set_keyDates (map (castKeyDate w) l) contract
    | None => contract
    end in
  let contract :=
    match nonempty_array (field "financialTerms" intelligence) with
    | Some l => set_financialTerms l contract
    | None => contract
    end in
  match nonempty_array (field "clauses" intelligence) with
  | Some l => set_clauses l contract
  | None => contract
  end.

Definition apply_risk (riskResult : stage_result) (contract : Contract) : Contract :=
  match riskResult with
  | StageOk d =>
      set_risks (array_or_empty (field "risks" d))
        (set_riskLevel (field "riskLevel" d) contract)
  | _ => contract
  end.

Definition apply_compliance (complianceResult : stage_result) (contract : Contract)
  : Contract :=
  match complianceResult with
  | StageOk d =>
      set_complianceIssues (array_or_empty (field "issues" d))
        (set_complianceScore (option_map castNumber (field "complianceScore" d))
                             contract)
  | _ => contract
  end.

Definition apply_pricing (pricingResult : stage_result) (contract : Contract)
  : Contract :=
  match pricingResult with
  | StageOk d =>
      set_pricingAnalysis
        (Some {| marketPosition := field "marketPosition" d;
                 recommendations := or_empty (field "recommendations" d);
                 comparableTerms := or_empty (field "comparableTerms" d) |})
        contract
  | _ => contract
  end.

(** The query for the other documents that have a text, limited to 50. *)
Definition otherContracts (contractId : Z) (store : Store) : list Contract :=
  firstn 50
    (filter (fun c => negb (_id c =? contractId)%Z
                      && match textContent c with Some _ => true | None => false end)
            store).

Definition apply_similar (similarityResult : similar_result) (contract : Contract)
  : Contract :=
  match similarityResult with
  | SimilarOk l => set_similarContracts l contract
  | SimilarFailed _ => contract
  end.

(** The assignments under the comment Finalize. *)
Definition finalize (w : World) (intelligence : json)
           (riskResult complianceResult : stage_result) (contract : Contract)
  : Contract :=
  set_lastError None
    (set_errorCount 0%Z
       (set_status analyzed
          (set_aiConfidenceScore
             (Some (_calculateOverallConfidence
                      (or_zero (field "confidence" intelligence))
                      riskResult complianceResult))
             (set_aiProcessingTime (Some (elapsed w))
                (set_aiAnalysisDate (Some (now w)) contract))))).

(** Step 4: the pricing analysis runs only when the document has
    financial terms. *)
Definition pricing_stage (w : World) (contractText : jsstring) (contract : Contract)
  : Contract * list request :=
  match financialTerms contract with
  | [] => (contract, [])
  | terms =>
      let '(pricingResult, k) := analyzePricing (ai w) contractText terms in
      (apply_pricing pricingResult contract, k)
  end.

(** Step 5: the similarity search over the other documents. *)
Definition similarity_stage (store : Store) (contractId : Z) (contractText : jsstring)
           (contract : Contract) : Contract :=
  apply_similar
    (findSimilarContracts contractText
       (map (fun c => (_id c, textContent c)) (otherContracts contractId store)))
    contract.

(** Steps 2 to 5 and the final assignments, on the in-memory document:
    the document as it stands before the last [save()], and the requests
    sent by the three later stages. *)
Definition later_stages (w : World) (store : Store) (contractId : Z)
           (contractText : jsstring) (intelligence : json) (contract : Contract)
  : Contract * list request :=
  let contract := merge_intelligence w intelligence contract in
  let '(riskResult, k2) := assessRisks (ai w) contractText intelligence in
  let contract := apply_risk riskResult contract in
  let '(complianceResult, k3) := checkCompliance (ai w) contractText intelligence in
  let contract := apply_compliance complianceResult contract in
  let '(contract, k4) := pricing_stage w contractText contract in
  let contract := similarity_stage store contractId contractText contract in
  (finalize w intelligence riskResult complianceResult contract, k2 ++ k3 ++ k4).

(** [analyzeContract(contractId)] *)
Definition analyzeContract (w : World) (store : Store) (contractId : Z) : Run :=
  let finish st r k a :=
    {| final_store := st; response := r; calls := k; alert := a |} in
  let reply (e : string) :=
    Return {| ok := false; error := Some (lit e); data := None |} in
  match findById contractId store with
  | None => finish store (reply "Contract not found"%string) [] None
  | Some contract =>
      match textContent contract with
      | None | Some [] => finish store (reply "Contract has no text content"%string) [] None
      | Some contractText =>
          let contract := set_status processing contract in
          match save_error w contract with
          | Some m =>
              let '(st, r) := on_error w store contractId m in finish st r [] None
          | None =>
              let store := put contract store in
              let '(intelligenceResult, k1) :=
                extractContractIntelligence (ai w) contractText (title contract) in
              match intelligenceResult with
              | StageOk intelligence =>
                  let '(contract, k) :=
                    later_stages w store contractId contractText intelligence contract in
                  match save_error w contract with
                  | Some m =>
                      let '(st, r) := on_error w store contractId m in
                      finish st r (k1 ++ k) None
                  | None =>
                      finish (put contract store)
                             (Return {| ok := true; error := None; data := Some contract |})
                             (k1 ++ k)
                             (_checkDeadlinesAndAlert (now w) contract)
                  end
              | _ =>
                  let '(st, r) :=
                    _handleAnalysisError w store contract (error_of intelligenceResult) in
                  finish st r k1 None
              end
          end
      end
  end.

(* ------------------------------------------------------------------ *)
(** *** The other operations *)

(** The uploaded file as the route hands it over. *)
Record FileData : Type := {
  originalname : jsstring;
  path : jsstring;
  mimetype : jsstring
}.

(** [new Contract({...})] with the schema's defaults. *)
Definition new_contract (id : Z) (fileData : FileData) (title : option jsstring)
           (content : jsstring) : Contract :=
  {| _id := id;
     title := match title with
              | Some (c :: t) => c :: t
              | _ => originalname fileData
              end;
     fileName := originalname fileData;
     filePath := path fileData;
     fileType := if str_eqb (mimetype fileData) (lit "application/pdf")
                 then pdf else text;
     status := pending;
     textContent := Some content;
     parties := []; keyDates := []; financialTerms := []; clauses := [];
     riskLevel := None; risks := [];
     complianceScore := None; complianceIssues := [];
     similarContracts := []; pricingAnalysis := None;
     aiAnalysisDate := None; aiConfidenceScore := None; aiProcessingTime := None;
     lastError := None; errorCount := 0 |}.

(** [createContract(fileData, title)]; [id] is the identifier the store
    gives the new document and [extracted] tells whether reading the
    file in [_extractText] returned its text or threw. *)
Definition createContract (w : World) (store : Store) (id : Z) (fileData : FileData)
           (title : option jsstring) (extracted : outcome jsstring)
  : Store * Response :=
  let refuse (m : jsstring) := (store, {| ok := false; error := Some m; data := None |}) in
  match extracted with
  | Throw _ => refuse (lit "Failed to extract text from file")
  | Return textContent =>
      match trim textContent with
      | [] => refuse (lit "Could not extract text from file")
      | _ =>
          let contract := new_contract id fileData title textContent in
          match save_error w contract with
          | Some m => refuse m
          | None => (put contract store,
                     {| ok := true; error := None; data := Some contract |})
          end
      end
  end.

(** [deleteContract(contractId)] *)
Definition deleteContract (store : Store) (contractId : Z) : Store * Response :=
  match findById contractId store with
  | None => (store, {| ok := false; error := Some (lit "Contract not found");
                       data := None |})
  | Some _ =>
      (filter (fun c => negb (_id c =? contractId)%Z) store,
       {| ok := true; error := None; data := None |})
  end.

(** An entry of [_getUpcomingDeadlines]. *)
Record Deadline : Type := {
  deadline_contractId : Z;
  contractTitle : jsstring;
  deadline : KeyDate
}.

Definition deadline_before (a b : Deadline) : bool :=
  match date (deadline a), date (deadline b) with
  | Some x, Some y => (x <=? y)%Z
  | _, _ => true
  end.

(** The query on [keyDates.date] with [$gte] and [$lte]: a document
    matches when some element meets the first bound and some element
    meets the second. *)
Definition date_query (now : Z) (c : Contract) : bool :=
  existsb (fun kd => match date kd with Some d => (now <=? d)%Z | None => false end)
          (keyDates c)
  && existsb (fun kd => match date kd with
                        | Some d => (d <=? now + thirty_days)%Z
                        | None => false
                        end)
             (keyDates c).

(** [_getUpcomingDeadlines()] at the instant [now]. *)
Definition _getUpcomingDeadlines (now : Z) (store : Store) : list Deadline :=
  let contracts := filter (date_query now) store in
  let deadlines :=
    flat_map (fun contract =>
                map (fun kd => {| deadline_contractId := _id contract;
                                  contractTitle := title contract;
                                  deadline := kd |})
                    (filter (is_upcoming now) (keyDates contract)))
             contracts in
  stable_sort deadline_before deadlines.

Record DashboardStats : Type := {
  totalContracts : nat;
  analyzedContracts : nat;
  highRiskContracts : nat;
  avgComplianceScore : Q;
  upcomingDeadlines : nat
}.

Definition is_analyzed (c : Contract) : bool :=
  match status c with analyzed => true | _ => false end.

Definition is_high_risk (c : Contract) : bool :=
  match riskLevel c with
  | Some (JStr s) => str_eqb s (lit "high") || str_eqb s (lit "critical")
  | _ => false
  end.

(** The numeric compliance scores, which are what [$avg] averages. *)
Definition numeric_scores (store : Store) : list Q :=
  flat_map (fun c => match complianceScore c with
                     | Some (JNum q) => [q]
                     | _ => []
                     end) store.

(** [getDashboardStats()] at the instant [now]. *)
Definition getDashboardStats (now : Z) (store : Store) : DashboardStats :=
  {| totalContracts := List.length store;
     analyzedContracts := List.length (filter is_analyzed store);
     highRiskContracts := List.length (filter is_high_risk store);
     avgComplianceScore :=
       match numeric_scores store with
       | [] => 0%Q
       | l => (sum_Q l / inject_Z (Z.of_nat (List.length l)))%Q
       end;
     upcomingDeadlines := List.length (_getUpcomingDeadlines now store) |}.

(* ------------------------------------------------------------------ *)
(** *** Reachable collections *)

(** One operation of the service that writes; each may face any world.
    The store gives a new document an identifier not in use. *)
Inductive step : Store -> Store -> Prop :=
| step_create w s id fileData title extracted :
    findById id s = None ->
    step s (fst (createContract w s id fileData title extracted))
| step_analyze w s id :
    step s (final_store (analyzeContract w s id))
| step_delete s id :
    step s (fst (deleteContract s id)).

Inductive reachable : Store -> Prop :=
| reach_empty : reachable []
| reach_step s s' : reachable s -> step s s' -> reachable s'.

End ContractService.

Import ContractService.

(* ================================================================== *)
(** ** ContractService: the read operations *)
(* ================================================================== *)

Module ContractReads.

(** [getContract(contractId)] *)
Definition getContract (store : Store) (contractId : Z) : Response :=
  match findById contractId store with
  | None => {| ok := false; error := Some (lit "Contract not found"); data := None |}
  | Some contract => {| ok := true; error := None; data := Some contract |}
  end.

(** The string a status is stored as. *)
Definition status_name (s : Status) : jsstring :=
  match s with
  | pending => lit "pending"
  | processing => lit "processing"
  | analyzed => lit "analyzed"
  | failed => lit "failed"
  end.

(** The [filters] argument of [listContracts]; a property that is absent
    is [None]. *)
Record Filters : Type := {
  filter_status : option jsstring;
  filter_riskLevel : option jsstring;
  filter_limit : option nat
}.

(** The query built from the filters: a filter that is absent or the
    empty string puts no condition. *)
Definition matches_query (filters : Filters) (c : Contract) : bool :=
  match filter_status filters with
  | Some (x :: s) => str_eqb (status_name (status c)) (x :: s)
  | _ => true
  end
  && match filter_riskLevel filters with
     | Some (x :: s) =>
         match riskLevel c with
         | Some (JStr r) => str_eqb r (x :: s)
         | _ => false
         end
     | _ => true
     end.

(** [filters.limit || 100] *)
Definition effective_limit (filters : Filters) : nat :=
  match filter_limit filters with
  | Some (S n) => S n
  | _ => 100
  end.

(** [listContracts(filters)]: the matching documents, newest first, cut
    to the limit.  [createdAt] is the timestamp the schema option
    [timestamps] maintains; documents created at the same instant are
    left in natural order. *)
Definition listContracts (createdAt : Contract -> Z) (store : Store) (filters : Filters)
  : list Contract :=
  firstn (effective_limit filters)
         (stable_sort (fun a b => (createdAt b <=? createdAt a)%Z)
                      (filter (matches_query filters) store)).

End ContractReads.

Import ContractReads.

(* ================================================================== *)
(** ** The routes (routes/contracts.js) *)
(* ================================================================== *)

Module Routes.

(** [res.status(code).json(body)] *)
Record HttpResponse : Type := {
  statusCode : nat;
  body : Response
}.

Definition failure_body (e : string) : Response :=
  {| ok := false; error := Some (lit e); data := None |}.

(** The cast of the [:id] segment of the URL to an identifier, which
    the query applies (Mongoose 8, which the project depends on): 24
    hexadecimal digits, read as a number.  For any other string
    [findById] throws a cast error. *)
Definition castObjectId (id : jsstring) : option Z :=
  if (List.length id =? 24)%nat
  then option_map Z.of_N (Coercion.radix_value 16 id 0)
  else None.

(** The handler of [POST /upload], after the upload middleware and the
    validation; [file] is [req.file]. *)
Definition post_upload (w : World) (store : Store) (id : Z) (file : option FileData)
           (title : option jsstring) (extracted : outcome jsstring)
  : Store * HttpResponse :=
  match file with
  | None => (store, {| statusCode := 400; body := failure_body "No file uploaded" |})
  | Some fileData =>
      let '(store', result) := createContract w store id fileData title extracted in
      if ok result then (store', {| statusCode := 201; body := result |})
      else (store', {| statusCode := 400; body := result |})
  end.

Section CastError.

(** The message of the cast error, from the value that could not be
    cast. *)
Variable castErrorMessage : jsstring -> jsstring.

(** The handler of [POST /:id/analyze]: a rejected service call is
    answered 500 with a fixed message.  With a segment that cannot be
    cast the service's first read throws, and so does the read in its
    [catch] block, which nothing catches: the call is rejected. *)
Definition post_analyze (w : World) (store : Store) (id : jsstring)
  : Store * HttpResponse :=
  let rejected := {| statusCode := 500; body := failure_body "Analysis failed" |} in
  match castObjectId id with
  | None => (store, rejected)
  | Some contractId =>
      let run := analyzeContract w store contractId in
      (final_store run,
       match response run with
       | Return result =>
           if ok result then {| statusCode := 200; body := result |}
           else {| statusCode := 400; body := result |}
       | Throw _ => rejected
       end)
  end.

(** [getContract] and [deleteContract] called with the segment: the
    cast error of their read is caught and returned as a failure. *)
Definition read_failure (id : jsstring) : Response :=
  {| ok := false; error := Some (castErrorMessage id); data := None |}.

(** The handler of [GET /:id]. *)
Definition get_contract (store : Store) (id : jsstring) : HttpResponse :=
  let result :=
    match castObjectId id with
    | None => read_failure id
    | Some contractId => getContract store contractId
    end in
  if ok result then {| statusCode := 200; body := result |}
  else {| statusCode := 404; body := result |}.

(** The handler of [DELETE /:id]. *)
Definition delete_contract (store : Store) (id : jsstring) : Store * HttpResponse :=
  let '(store', result) :=
    match castObjectId id with
    | None => (store, read_failure id)
    | Some contractId => deleteContract store contractId
    end in
  if ok result then (store', {| statusCode := 200; body := result |})
  else (store', {| statusCode := 404; body := result |}).

End CastError.

End Routes.

(* ================================================================== *)
(** ** The configuration (config/index.js) *)
(* ================================================================== *)

Module Config.

(** [process.env]: a variable that is not set is [None]. *)
Definition Env : Type := string -> option jsstring.

(** [process.env.X || d] *)
Definition or_default (v : option jsstring) (d : jsstring) : jsstring :=
  match v with
  | Some (c :: r) => c :: r
  | _ => d
  end.

(** The value of a digit in the given radix. *)
Definition digit_in (radix : N) (c : ascii) : option N :=
  match hex_val c with
  | Some d => if (d <? radix)%N then Some d else None
  | None => None
  end.

(** The values of the longest run of digits at the head of [s]. *)
Fixpoint digit_run (radix : N) (s : jsstring) : list N :=
  match s with
  | [] => []
  | c :: r =>
      match digit_in radix c with
      | Some d => d :: digit_run radix r
      | None => []
      end
  end.

(** [parseInt(s)] with no radix argument: leading white space, a sign,
    a [0x] prefix for radix 16, then the longest run of digits; [None]
    is NaN.  The result is the exact integer. *)
Definition parseInt (s : jsstring) : option Z :=
  let s1 := dropWhile is_space s in
  let '(negative, s2) :=
    match s1 with
    | c :: r =>
        if Ascii.eqb c "-" then (true, r)
        else if Ascii.eqb c "+" then (false, r)
        else (false, s1)
    | [] => (false, s1)
    end in
  let '(radix, s3) :=
    match s2 with
    | z :: x :: r =>
        if Ascii.eqb z "0" && (Ascii.eqb x "x" || Ascii.eqb x "X")
        then (16%N, r) else (10%N, s2)
    | _ => (10%N, s2)
    end in
  match digit_run radix s3 with
  | [] => None
  | ds =>
      let n := Z.of_N (fold_left (fun acc d => (acc * radix + d)%N) ds 0%N) in
      Some (if negative then (- n)%Z else n)
  end.

(** [parseInt(process.env.X) || d] *)
Definition int_or_default (v : option jsstring) (d : Z) : Z :=
  match v with
  | Some s =>
      match parseInt s with
      | Some n => if (n =? 0)%Z then d else n
      | None => d
      end
  | None => d
  end.

(** [process.env.PORT || 5001]: the variable's text, or the number. *)
Inductive port_value : Type :=
| PortText (s : jsstring)
| PortNumber (n : Z).

Record ServerConfig : Type := { port : port_value; env : jsstring }.
Record DatabaseConfig : Type := { uri : jsstring }.
Record AiConfig : Type := { anthropicApiKey : option jsstring; enabled : bool }.
Record EmailConfig : Type := {
  host : jsstring;
  email_port : Z;
  user : option jsstring;
  password : option jsstring;
  from : jsstring;
  email_enabled : bool
}.
Record UploadConfig : Type := {
  maxFileSize : Z;
  uploadDir : jsstring;
  allowedMimeTypes : list jsstring
}.
Record SecurityConfig : Type := {
  rateLimitWindowMs : Z;
  rateLimitMaxRequests : Z
}.

Record config : Type := {
  server : ServerConfig;
  database : DatabaseConfig;
  ai : AiConfig;
  email : EmailConfig;
  upload : UploadConfig;
  security : SecurityConfig
}.

(** [!!v] for a string that may be unset. *)
Definition nonempty (v : option jsstring) : bool :=
  match v with
  | Some (_ :: _) => true
  | _ => false
  end.

(** The object literal [config]. *)
Definition build (e : Env) : config :=
  {| server :=
       {| port := match e "PORT"%string with
                  | Some (c :: r) => PortText (c :: r)
                  | _ => PortNumber 5001
                  end;
          env := or_default (e "NODE_ENV"%string) (lit "development") |};
     database :=
       {| uri := or_default (e "MONGODB_URI"%string)
                            (lit "mongodb://localhost:27017/contract-platform") |};
     ai :=
       {| anthropicApiKey := e "ANTHROPIC_API_KEY"%string;
          enabled := nonempty (e "ANTHROPIC_API_KEY"%string) |};
     email :=
       {| host := or_default (e "EMAIL_HOST"%string) (lit "smtp.gmail.com");
          email_port := int_or_default (e "EMAIL_PORT"%string) 587;
          user := e "EMAIL_USER"%string;
          password := e "EMAIL_PASSWORD"%string;
          from := or_default (e "EMAIL_FROM"%string)
                             (lit "Contract Platform <noreply@contractplatform.com>");
          email_enabled := nonempty (e "EMAIL_USER"%string)
                           && nonempty (e "EMAIL_PASSWORD"%string) |};
     upload :=
       {| maxFileSize := int_or_default (e "MAX_FILE_SIZE"%string) (10 * 1024 * 1024);
          uploadDir := or_default (e "UPLOAD_DIR"%string) (lit "./uploads");
          allowedMimeTypes := [lit "application/pdf"; lit "text/plain"] |};
     security :=
       {| rateLimitWindowMs :=
            int_or_default (e "RATE_LIMIT_WINDOW_MS"%string) (15 * 60 * 1000);
          rateLimitMaxRequests :=
            int_or_default (e "RATE_LIMIT_MAX_REQUESTS"%string) 100 |} |}.

(** The errors [validateConfig] collects. *)
Definition validation_errors (c : config) : list jsstring :=
  (if nonempty (anthropicApiKey (ai c)) then []
   else [lit "ANTHROPIC_API_KEY is required for AI features"])
  ++ (match uri (database c) with
      | [] => [lit "MONGODB_URI is required"]
      | _ => []
      end).

(** Loading the module: the configuration, or the errors printed before
    [process.exit(1)]. *)
Definition load (e : Env) : config + list jsstring :=
  match validation_errors (build e) with
  | [] => inl (build e)
  | errors => inr errors
  end.

(** The file filter of the upload middleware. *)
Definition fileFilter (c : config) (file : FileData) : outcome bool :=
  if existsb (str_eqb (mimetype file)) (allowedMimeTypes (upload c))
  then Return true
  else Throw (External (lit "Invalid file type. Only PDF and text files are allowed.")).

End Config.

(* ================================================================== *)
(** ** The deadline mail (services/emailService.js) *)
(* ================================================================== *)

Module EmailService.

(** What [transporter.sendMail] is given.  The subject and the two
    bodies are rendered from the document and the deadlines with the
    host's locale, so the mail is kept as the values they are rendered
    from. *)
Record Mail : Type := {
  mail_from : jsstring;
  mail_to : option jsstring;
  mail_contract : Contract;
  mail_deadlines : list KeyDate
}.

(** [{ ok: true, data: { skipped: true, reason } }],
    [{ ok: true, data: { messageId } }] or [{ ok: false, error }]. *)
Inductive mail_result : Type :=
| Skipped (reason : jsstring)
| Sent (messageId : jsstring)
| NotSent (error : jsstring).

(** [d.date.toLocaleDateString()] can be evaluated. *)
Definition has_date (d : KeyDate) : bool :=
  match date d with Some _ => true | None => false end.

(** [sendDeadlineAlert(contract, deadlines)], with [this.enabled] read
    from the configuration and [sendMail] as the transport: the result,
    and the mails handed to the transport. *)
Definition sendDeadlineAlert (c : Config.config) (sendMail : Mail -> outcome jsstring)
           (contract : Contract) (deadlines : list KeyDate)
  : mail_result * list Mail :=
  if negb (Config.email_enabled (Config.email c))
  then (Skipped (lit "Email service not configured"), [])
  else if forallb has_date deadlines
       then
         let mailOptions :=
           {| mail_from := Config.from (Config.email c);
              mail_to := Config.user (Config.email c);
              mail_contract := contract;
              mail_deadlines := deadlines |} in
         match sendMail mailOptions with
         | Return messageId => (Sent messageId, [mailOptions])
         | Throw e => (NotSent (message e), [mailOptions])
         end
       else (NotSent (message TypeError), []).

End EmailService.

(* ================================================================== *)
(** ** The server's use of the configuration (index.js, errorHandler.js) *)
(* ================================================================== *)

Module Server.

(** The [skip] option of the rate limiter. *)
Definition rate_limit_skipped (c : Config.config) : bool :=
  str_eqb (Config.env (Config.server c)) (lit "development").

(** Whether [errorHandler] adds the stack to its answer: it reads
    [process.env.NODE_ENV] itself. *)
Definition exposes_stack (e : Config.Env) : bool :=
  match e "NODE_ENV"%string with
  | Some v => str_eqb v (lit "development")
  | None => false
  end.

End Server.

(* ================================================================== *)
(** ** The virtual of the schema (models/Contract.js) *)
(* ================================================================== *)

Module Virtuals.

(** The getter of the virtual [upcomingDeadlines] at the instant [now]:
    [kd.date > now && kd.date <= thirtyDaysFromNow]. *)
Definition upcomingDeadlines (now : Z) (c : Contract) : list KeyDate :=
  filter (fun kd => match date kd with
                    | Some d => ((now <? d) && (d <=? now + thirty_days))%Z
                    | None => false
                    end)
         (keyDates c).

End Virtuals.

(* ================================================================== *)
(** * Vocabulary of the properties *)
(* ================================================================== *)

(** The document a failed attempt writes. *)
Definition failure_of (contract : Contract) (errorMessage : option jsstring) : Contract :=
  set_errorCount (errorCount contract + 1)%Z
    (set_lastError errorMessage (set_status failed contract)).

(** Whether the run's promise resolved with an ok response. *)
Definition ended_ok (r : Run) : bool :=
  match response r with
  | Return resp => ok resp
  | Throw _ => false
  end.

(** The four extracted arrays of two documents agree. *)
Definition same_extracted (c c' : Contract) : Prop :=
  parties c' = parties c /\ keyDates c' = keyDates c
  /\ financialTerms c' = financialTerms c /\ clauses c' = clauses c.

(** The risk fields of two documents agree. *)
Definition same_risk (c c' : Contract) : Prop :=
  riskLevel c' = riskLevel c /\ risks c' = risks c.

(** Over the reachable collections the counter is never negative, and is
    at least 1 in a failed document. *)
Definition counter_sound (c : Contract) : Prop :=
  (0 <= errorCount c)%Z /\ (status c = failed -> (1 <= errorCount c)%Z).

(** A compliance score, when it is a number, lies between 0 and 100. *)
Definition score_in_range (v : option json) : Prop :=
  forall q, v = Some (JNum q) -> (0 <= q <= 100)%Q.

(** The confidence a stage reports, when it is a number: its number, 0
    when the stage failed or reports none or a falsy value; [None] for a
    truthy value that is not a number. *)
Definition stage_confidence (r : stage_result) : option Q :=
  match r with
  | StageOk d =>
      match field "confidence" d with
      | Some (JNum q) => Some q
      | v => if truthy v then None else Some 0%Q
      end
  | _ => Some 0%Q
  end.

(** The confidence of the intelligence stage: anything but a number
    counts as 0. *)
Definition intelligence_confidence (intelligence : json) : Q :=
  match field "confidence" intelligence with
  | Some (JNum q) => q
  | _ => 0%Q
  end.

Definition positive (c : Q) : bool :=
  match (c ?= 0)%Q with Gt => true | _ => false end.

(** The arithmetic mean of the strictly positive values of a list, 0
    when there is none: the aggregate as the specification words it. *)
Definition mean_of_positive (l : list Q) : Q :=
  match filter positive l with
  | [] => 0%Q
  | pos => (fold_right Qplus 0%Q pos / inject_Z (Z.of_nat (List.length pos)))%Q
  end.

(** The number of keywords found in the candidate text as it is, which
    is how the specification words the similarity. *)
Definition matches_as_written (keywords : list jsstring) (candidateText : jsstring)
  : nat :=
  List.length (filter (fun k => includes candidateText k) keywords).

(** The number of keywords found in the lower-cased candidate text. *)
Definition matches_lowercased (keywords : list jsstring) (candidateText : jsstring)
  : nat :=
  List.length (filter (fun k => includes (toLowerCase candidateText) k) keywords).

Definition sim_value (e : SimilarContract) : Q :=
  match similarity e with Num q => q | NaN => 0%Q end.

Definition same_similarity (q : Q) (e : SimilarContract) : bool :=
  match similarity e with Num x => Qeq_bool x q | NaN => false end.

(** The source's comparison on doubles, next to the model's. *)
Definition float_of_nat (n : nat) : float :=
  PrimFloat.of_uint63 (Uint63.of_Z (Z.of_nat n)).

(** [matches / total > 0.3] on doubles. *)
Definition above_threshold_binary64 (matches total : nat) : bool :=
  PrimFloat.ltb 0.3%float (PrimFloat.div (float_of_nat matches) (float_of_nat total)).

Definition above_threshold_model (matches total : nat) : bool :=
  match ratio matches total with
  | Num q => negb (Qle_bool q (3 # 10))
  | NaN => false
  end.

(* ================================================================== *)
(** * Scenarios *)
(* ================================================================== *)

(** The reply of the parser-repair example of the specification. *)
Definition single_quoted_reply : jsstring := lit "{'riskLevel': 'high', 'risks': []}".

Definition ranking_target : jsstring := lit "Termination clause".

Definition ranking_candidate : jsstring := lit "TERMINATION CLAUSE".

(** Four candidates: two match one keyword each, one matches both in
    upper case, one matches none. *)
Definition ranking_pool : list (Z * option jsstring) :=
  [(1%Z, Some (lit "the clause")); (2%Z, Some ranking_candidate);
   (3%Z, Some (lit "no match")); (4%Z, Some (lit "a termination"))].

(** Key dates thirty days, and thirty days and a second, after the
    instant 1700000000000. *)
Definition at_limit : KeyDate :=
  {| dateType := Some (lit "renewal");
     date := Some (1700000000000 + thirty_days)%Z;
     description := None |}.

Definition past_limit : KeyDate :=
  {| dateType := Some (lit "expiration");
     date := Some (1700000000000 + thirty_days + 1000)%Z;
     description := None |}.

Definition upload : FileData :=
  {| originalname := lit "nda.txt"; path := lit "uploads/nda.txt";
     mimetype := lit "text/plain" |}.

(** A world whose capability flag is off, in which every [save()]
    succeeds. *)
Definition offline : World :=
  {| ai := {| enabled := false; complete := fun _ => Return [] |};
     save_error := fun _ => None;
     castKeyDate := fun _ => {| dateType := None; date := None; description := None |};
     now := 1700000000000;
     elapsed := 5 |}.

(** A world in which the intelligence and compliance stages get a proper
    reply and the risk stage's request fails. *)
Definition degraded : World :=
  {| ai := {| enabled := true;
              complete := fun req =>
                match req with
                | IntelligencePrompt _ _ =>
                    Return (qlit "{~parties~: [{~name~: ~Acme~, ~role~: ~provider~}], ~keyDates~: [], ~confidence~: 0.9}")
                | RiskPrompt _ _ => Throw (External (lit "Request timed out."))
                | CompliancePrompt _ _ =>
                    Return (qlit "{~complianceScore~: 80, ~issues~: [], ~confidence~: 0.6}")
                | PricingPrompt _ _ => Throw (External (lit "Request timed out."))
                end |};
     save_error := fun _ => None;
     castKeyDate := fun _ => {| dateType := None; date := None; description := None |};
     now := 1700000000000;
     elapsed := 5 |}.

(** A world whose replies carry values beyond the documented bounds. *)
Definition out_of_range : World :=
  {| ai := {| enabled := true;
              complete := fun req =>
                match req with
                | IntelligencePrompt _ _ =>
                    Return (qlit "{~parties~: [], ~confidence~: 1.8}")
                | RiskPrompt _ _ =>
                    Return (qlit "{~riskLevel~: ~high~, ~risks~: [], ~confidence~: 1.2}")
                | CompliancePrompt _ _ =>
                    Return (qlit "{~complianceScore~: 150, ~issues~: [], ~confidence~: 1.5}")
                | PricingPrompt _ _ => Throw (External (lit "Request timed out."))
                end |};
     save_error := fun _ => None;
     castKeyDate := fun _ => {| dateType := None; date := None; description := None |};
     now := 1700000000000;
     elapsed := 5 |}.

(** The collection after one upload. *)
Definition uploaded : Store :=
  fst (createContract offline [] 1 upload None
                      (Return (lit "This agreement is made between A and B."))).

(** The collection after the upload and a run with the flag off. *)
Definition failed_once : Store := final_store (analyzeContract offline uploaded 1).

(** A document analysed before: it has key dates and a risk level. *)
Definition analysed_before : Contract :=
  set_riskLevel (Some (JStr (lit "low")))
    (set_keyDates [ {| dateType := Some (lit "effective");
                       date := Some 1690000000000%Z;
                       description := None |} ]
       (new_contract 1 upload None (lit "This agreement is made between A and B."))).

(* ------------------------------------------------------------------ *)
(** ** Vocabulary of the further properties *)

(** Whether [k] is one of the eight property names the parser re-parses. *)
Definition is_fixed_field (k : jsstring) : bool :=
  existsb (str_eqb k) (map lit fixed_fields).

Definition backtick : ascii := "`"%char.

(** The tokens of more than four characters, in text order. *)
Definition long_tokens (text : jsstring) : list jsstring :=
  filter (fun w => 4 <? List.length w) (tokens text).

(** How often [w] occurs among the long tokens of [text]. *)
Definition occurrences (text w : jsstring) : nat :=
  List.length (filter (str_eqb w) (long_tokens text)).

(** The count the frequency table holds for [k]: 0 when it has none. *)
Fixpoint count_of (k : jsstring) (freq : list (jsstring * nat)) : nat :=
  match freq with
  | [] => 0
  | (k', n) :: r => if str_eqb k k' then n else count_of k r
  end.


(** A candidate without [textContent]. *)
Definition without_text (c : Z * option jsstring) : bool :=
  match snd c with None => true | Some _ => false end.

(** The feature tags found literally in both texts, in the fixed order. *)
Definition common_features (text1 text2 : jsstring) : list jsstring :=
  filter (fun f => includes text1 f && includes text2 f) features.


(** A target and a pool for the entries of a similarity result. *)
Definition tagged_target : jsstring := lit "termination payment liability".

Definition tagged_pool : list (Z * option jsstring) :=
  [(7%Z, Some (lit "Termination and payment liability apply."))].



(** The candidates the similarity search of a run on [contractId] gets. *)
Definition candidates (contractId : Z) (store : Store) : list (Z * option jsstring) :=
  map (fun c => (_id c, textContent c)) (otherContracts contractId store).


(** A document as an upload leaves it: pending, with its text and
    nothing extracted or assessed yet. *)
Definition fresh (c : Contract) : Prop :=
  exists fileData title content,
    c = new_contract (_id c) fileData title content.

(** What holds of an analysed document. *)
Definition analysed_sound (c : Contract) : Prop :=
  errorCount c = 0%Z /\ lastError c = None
  /\ aiAnalysisDate c <> None /\ aiConfidenceScore c <> None
  /\ aiProcessingTime c <> None.

(** The life-cycle invariant of a stored document. *)
Definition lifecycle_sound (c : Contract) : Prop :=
  (exists t, textContent c = Some t /\ trim t <> [])
  /\ (status c = pending -> fresh c)
  /\ (status c = analyzed -> analysed_sound c).

(** A well-formed list of similar contracts of the document [id]. *)
Definition similar_sound (c : Contract) : Prop :=
  List.length (similarContracts c) <= 5
  /\ forall e, In e (similarContracts c) ->
       contractId e <> _id c
       /\ exists q, similarity e = Num q /\ (3 # 10 < q)%Q /\ (q <= 1)%Q.


(** Two uploads of the same text, and the collection after a run on the
    first of them. *)
Definition second_upload : Store :=
  fst (createContract offline uploaded 2 upload None
                      (Return (lit "This agreement is made between A and B."))).

Definition analysed_pair : Store :=
  final_store (analyzeContract degraded second_upload 1).


(** The deadline entries of one document at the instant [now]. *)
Definition deadlines_of (now : Z) (c : Contract) : list Deadline :=
  map (fun kd => {| deadline_contractId := _id c;
                    contractTitle := title c;
                    deadline := kd |})
      (filter (is_upcoming now) (keyDates c)).

(** Both entries have a date, and the first is not later. *)
Definition deadline_le (a b : Deadline) : Prop :=
  match date (deadline a), date (deadline b) with
  | Some x, Some y => (x <= y)%Z
  | _, _ => False
  end.

(** The arithmetic mean of a list of rationals. *)
Definition mean (l : list Q) : Q :=
  (fold_right Qplus 0 l / inject_Z (Z.of_nat (List.length l)))%Q.


(** What the query of [listContracts] asks of a document. *)
Definition status_matches (filters : Filters) (c : Contract) : Prop :=
  match filter_status filters with
  | Some (x :: s) => status_name (status c) = x :: s
  | _ => True
  end.

Definition riskLevel_matches (filters : Filters) (c : Contract) : Prop :=
  match filter_riskLevel filters with
  | Some (x :: s) => riskLevel c = Some (JStr (x :: s))
  | _ => True
  end.

(** A collection with one analysed and one pending document, with the
    instants of their creation. *)
Definition created_at (c : Contract) : Z := (1000 * _id c)%Z.

Definition only_analyzed : Filters :=
  {| filter_status := Some (lit "analyzed");
     filter_riskLevel := None;
     filter_limit := Some 0 |}.


(** An environment with the credential and the mail account set. *)
Definition production_env : Config.Env :=
  fun name =>
    if String.eqb name "ANTHROPIC_API_KEY" then Some (lit "sk-test")
    else if String.eqb name "EMAIL_USER" then Some (lit "ops@example.com")
    else if String.eqb name "EMAIL_PASSWORD" then Some (lit "secret")
    else if String.eqb name "EMAIL_PORT" then Some (lit "0")
    else if String.eqb name "MAX_FILE_SIZE" then Some (lit " 0x100 bytes")
    else None.


(** A key date that falls exactly on the instant [now]. *)
Definition due_now (now : Z) (kd : KeyDate) : bool :=
  match date kd with Some d => (d =? now)%Z | None => false end.


(** The text has an opening brace with a closing brace somewhere after
    it. *)
Definition has_braces (s : jsstring) : Prop :=
  exists a b c, s = a ++ "{"%char :: b ++ "}"%char :: c.

Definition is_brace (c : ascii) : bool :=
  Ascii.eqb c "{" || Ascii.eqb c "}".


(** No long token of the text names a property that the frequency
    object inherits: of the properties of [Object.prototype] only these
    two are spelt in lower-case word characters. *)
Definition plain_tokens (text : jsstring) : Prop :=
  forall w, In w (long_tokens text) ->
            w <> lit "constructor" /\ w <> lit "__proto__".

(** A world in which the risk stage's reply carries its confidence as a
    string, and the compliance stage's request fails. *)
Definition string_confidence : World :=
  {| ai := {| enabled := true;
              complete := fun req =>
                match req with
                | IntelligencePrompt _ _ =>
                    Return (qlit "{~parties~: [], ~confidence~: 0.9}")
                | RiskPrompt _ _ =>
                    Return (qlit "{~riskLevel~: ~low~, ~risks~: [], ~confidence~: ~1~}")
                | CompliancePrompt _ _ => Throw (External (lit "Request timed out."))
                | PricingPrompt _ _ => Throw (External (lit "Request timed out."))
                end |};
     save_error := fun _ => None;
     castKeyDate := fun _ => {| dateType := None; date := None; description := None |};
     now := 1700000000000;
     elapsed := 5 |}.

(* ------------------------------------------------------------------ *)
(** ** The running service *)


(** Whether the world is one the started service can face.  The
    capability flag is the one of a configuration that loaded (loading
    ends the process otherwise), and the errors thrown by the client of
    the language model and by [save()] carry a message. *)
Definition in_service (w : World) : Prop :=
  (exists e c, Config.load e = inl c /\ enabled (ai w) = Config.enabled (Config.ai c))
  /\ (forall req x, complete (ai w) req = Throw x -> message x <> [])
  /\ (forall d m, save_error w d = Some m -> m <> []).

(** One writing operation of the started service. *)
Inductive service_step : Store -> Store -> Prop :=
| service_create w s id fileData title extracted :
    in_service w ->
    findById id s = None ->
    service_step s (fst (createContract w s id fileData title extracted))
| service_analyze w s id :
    in_service w ->
    service_step s (final_store (analyzeContract w s id))
| service_delete s id :
    service_step s (fst (deleteContract s id)).

(** The collections the started service can reach. *)
Inductive reachable_in_service : Store -> Prop :=
| service_empty : reachable_in_service []
| service_next s s' :
    reachable_in_service s -> service_step s s' -> reachable_in_service s'.

(** A world of the started service in which every request to the
    language model times out. *)
Definition timed_out : World :=
  {| ai := {| enabled := Config.enabled (Config.ai (Config.build production_env));
              complete := fun _ => Throw (External (lit "Request timed out.")) |};
     save_error := fun _ => None;
     castKeyDate := fun _ => {| dateType := None; date := None; description := None |};
     now := 1700000000000;
     elapsed := 5 |}.

(** The collection after one upload and one run in that world. *)
Definition received : Store :=
  fst (createContract timed_out [] 1 upload None
                      (Return (lit "This agreement is made between A and B."))).

Definition timed_out_once : Store := final_store (analyzeContract timed_out received 1).

(* ================================================================== *)
(** * Properties *)
(* ================================================================== *)

(** ** [JSON_parse] never exhausts its budget *)

Section ParserBudget.

Local Ltac break_match :=
  match goal with
  | H : context [match ?x with _ => _ end] |- _ => destruct x eqn:?
  | H : context [if ?x then _ else _] |- _ => destruct x eqn:?
  end.

Lemma dropWhile_length (p : ascii -> bool) (s : jsstring) :
  List.length (dropWhile p s) <= List.length s.
Proof.
  induction s as [|c r IH]; simpl; [lia|].
  destruct (p c); simpl; lia.
Qed.

Lemma skip_ws_cons (s r : jsstring) (c : ascii) :
  skip_ws s = c :: r -> List.length r < List.length s.
Proof.
  intros H. pose proof (dropWhile_length is_json_ws s) as L.
  unfold skip_ws in H. rewrite H in L. simpl in L. lia.
Qed.

Lemma strip_prefix_length (p s r : jsstring) :
  strip_prefix p s = Some r -> List.length r + List.length p = List.length s.
Proof.
  revert s. induction p as [|x p IH]; simpl; intros s H.
  - inversion H. lia.
  - destruct s as [|y s]; [discriminate|].
    destruct (Ascii.eqb x y); [|discriminate].
    apply IH in H. simpl. lia.
Qed.

Lemma parse_string_body_length (s acc k r : jsstring) :
  parse_string_body s acc = POk k r -> List.length r < List.length s.
Proof.
  remember (List.length s) as n eqn:Hn.
  revert s acc Hn. induction n as [n IH] using lt_wf_ind.
  intros s acc Hn H. destruct s as [|c s]; simpl in H; [discriminate|].
  simpl in Hn.
  destruct (Ascii.eqb c dquote).
  { inversion H; subst. lia. }
  destruct (Ascii.eqb c "\").
  - destruct s as [|e s]; [discriminate|].
    destruct (Ascii.eqb e "u").
    + destruct s as [|h1 [|h2 [|h3 [|h4 s]]]]; try discriminate.
      destruct (hex_val h1), (hex_val h2), (hex_val h3), (hex_val h4);
        try discriminate.
      eapply IH in H; [| |reflexivity]; simpl in *; lia.
    + repeat break_match; try discriminate;
        (eapply IH in H; [| |reflexivity]; simpl in *; lia).
  - destruct (code c <? 32)%N; [discriminate|].
    eapply IH in H; [| |reflexivity]; simpl in *; lia.
Qed.

Lemma parse_int_part_length (s ip r : jsstring) :
  parse_int_part s = POk ip r -> List.length r < List.length s.
Proof.
  unfold parse_int_part. destruct s as [|c s]; [discriminate|].
  destruct (Ascii.eqb c "0").
  - intros H; inversion H; subst; simpl; lia.
  - destruct (is_digit c) eqn:D; [|discriminate].
    intros H; inversion H; subst. simpl. rewrite D.
    pose proof (dropWhile_length is_digit s). simpl. lia.
Qed.

Lemma parse_digits_length (s ds r : jsstring) :
  parse_digits s = POk ds r -> List.length r <= List.length s.
Proof.
  unfold parse_digits. destruct (takeWhile is_digit s); [discriminate|].
  intros H; inversion H; subst. apply dropWhile_length.
Qed.

Lemma parse_frac_length (s fp r : jsstring) :
  parse_frac s = POk fp r -> List.length r <= List.length s.
Proof.
  unfold parse_frac. destruct s as [|c s]; [intros H; inversion H; subst; lia|].
  destruct (Ascii.eqb c ".").
  - intros H. apply parse_digits_length in H. simpl. lia.
  - intros H; inversion H; subst; lia.
Qed.

Lemma parse_exp_length (s r : jsstring) (e : Z) :
  parse_exp s = POk e r -> List.length r <= List.length s.
Proof.
  unfold parse_exp. destruct s as [|c s]; [intros H; inversion H; subst; lia|].
  destruct (Ascii.eqb c "e" || Ascii.eqb c "E").
  - destruct s as [|sg s]; [discriminate|].
    destruct (Ascii.eqb sg "-").
    + destruct (parse_digits s) eqn:D; try discriminate.
      intros H; inversion H; subst. apply parse_digits_length in D. simpl. lia.
    + destruct (Ascii.eqb sg "+");
        destruct (parse_digits _) eqn:D; try discriminate;
        intros H; inversion H; subst; apply parse_digits_length in D;
        simpl in *; lia.
  - intros H; inversion H; subst; lia.
Qed.

Lemma parse_number_length (s r : jsstring) (q : Q) :
  parse_number s = POk q r -> List.length r < List.length s.
Proof.
  unfold parse_number.
  destruct (match s with
            | [] => (false, s)
            | c :: r0 => if Ascii.eqb c "-" then (true, r0) else (false, s)
            end) as [neg s1] eqn:Hs.
  assert (L1 : List.length s1 <= List.length s).
  { destruct s as [|c s]; [inversion Hs; subst; lia|].
    destruct (Ascii.eqb c "-"); inversion Hs; subst; simpl; lia. }
  destruct (parse_int_part s1) eqn:Hi; try discriminate.
  destruct (parse_frac rest) eqn:Hf; try discriminate.
  destruct (parse_exp rest0) eqn:He; try discriminate.
  intros H; inversion H; subst.
  apply parse_int_part_length in Hi. apply parse_frac_length in Hf.
  apply parse_exp_length in He. lia.
Qed.

Lemma parse_digits_no_budget (s : jsstring) : parse_digits s <> PBudget.
Proof. unfold parse_digits. destruct (takeWhile is_digit s); discriminate. Qed.

Lemma parse_int_part_no_budget (s : jsstring) : parse_int_part s <> PBudget.
Proof.
  unfold parse_int_part. destruct s as [|c s]; [discriminate|].
  destruct (Ascii.eqb c "0"); [discriminate|].
  destruct (is_digit c); discriminate.
Qed.

Lemma parse_frac_no_budget (s : jsstring) : parse_frac s <> PBudget.
Proof.
  unfold parse_frac. destruct s as [|c s]; [discriminate|].
  destruct (Ascii.eqb c "."); [apply parse_digits_no_budget|discriminate].
Qed.

Lemma parse_exp_no_budget (s : jsstring) : parse_exp s <> PBudget.
Proof.
  unfold parse_exp. destruct s as [|c s]; [discriminate|].
  destruct (Ascii.eqb c "e" || Ascii.eqb c "E"); [|discriminate].
  destruct s as [|sg s]; [discriminate|].
  destruct (Ascii.eqb sg "-").
  - pose proof (parse_digits_no_budget s).
    destruct (parse_digits s); congruence.
  - match goal with
    | |- context [parse_digits ?x] =>
        pose proof (parse_digits_no_budget x); destruct (parse_digits x)
    end; congruence.
Qed.

Lemma parse_number_no_budget (s : jsstring) : parse_number s <> PBudget.
Proof.
  unfold parse_number.
  destruct (match s with
            | [] => (false, s)
            | c :: r0 => if Ascii.eqb c "-" then (true, r0) else (false, s)
            end) as [neg s1].
  pose proof (parse_int_part_no_budget s1).
  destruct (parse_int_part s1) as [ip s2| |]; try congruence.
  pose proof (parse_frac_no_budget s2).
  destruct (parse_frac s2) as [fp s3| |]; try congruence.
  pose proof (parse_exp_no_budget s3).
  destruct (parse_exp s3) as [e s4| |]; congruence.
Qed.

Lemma parse_string_body_no_budget (s acc : jsstring) :
  parse_string_body s acc <> PBudget.
Proof.
  remember (List.length s) as n eqn:Hn.
  revert s acc Hn. induction n as [n IH] using lt_wf_ind.
  intros s acc Hn. destruct s as [|c s]; simpl; [discriminate|].
  simpl in Hn.
  destruct (Ascii.eqb c dquote); [discriminate|].
  destruct (Ascii.eqb c "\").
  - destruct s as [|e s]; [discriminate|].
    destruct (Ascii.eqb e "u").
    + destruct s as [|h1 [|h2 [|h3 [|h4 s]]]]; try discriminate.
      destruct (hex_val h1), (hex_val h2), (hex_val h3), (hex_val h4);
        try discriminate.
      eapply IH; [|reflexivity]. simpl in *; lia.
    + repeat match goal with
             | |- context [if ?x then _ else _] => destruct x eqn:?
             end; try discriminate;
        (eapply IH; [|reflexivity]; simpl in *; lia).
  - destruct (code c <? 32)%N; [discriminate|].
    eapply IH; [|reflexivity]. simpl in *; lia.
Qed.

Lemma parse_keyword_length (kw : string) (v v' : json) (s r : jsstring) :
  kw <> EmptyString -> parse_keyword kw v s = POk v' r -> List.length r < List.length s.
Proof.
  unfold parse_keyword. intros Hk. destruct (strip_prefix (lit kw) s) eqn:E; [|discriminate].
  intros H; inversion H; subst. apply strip_prefix_length in E.
  destruct kw; [congruence|]. simpl in E. lia.
Qed.

Lemma parse_progress (f : nat) :
  (forall s v r, parse_value f s = POk v r -> List.length r < List.length s)
  /\ (forall s acc v r, parse_elements f s acc = POk v r -> List.length r < List.length s)
  /\ (forall s acc v r, parse_members f s acc = POk v r -> List.length r < List.length s).
Proof.
  induction f as [|f (IHv & IHe & IHm)]; [repeat split; discriminate|].
  repeat split.
  - intros s v r. simpl.
    destruct (skip_ws s) as [|c r0] eqn:E; [discriminate|].
    apply skip_ws_cons in E.
    destruct (Ascii.eqb c "{").
    { destruct (skip_ws r0) as [|c' r'] eqn:E'; [discriminate|].
      apply skip_ws_cons in E'.
      destruct (Ascii.eqb c' "}").
      - intros H; inversion H; subst; lia.
      - intros H; apply IHm in H; lia. }
    destruct (Ascii.eqb c "[").
    { destruct (skip_ws r0) as [|c' r'] eqn:E'; [discriminate|].
      apply skip_ws_cons in E'.
      destruct (Ascii.eqb c' "]").
      - intros H; inversion H; subst; lia.
      - intros H; apply IHe in H; lia. }
    destruct (Ascii.eqb c dquote).
    { destruct (parse_string_body r0 []) eqn:B; try discriminate.
      apply parse_string_body_length in B.
      intros H; inversion H; subst; lia. }
    destruct (Ascii.eqb c "t").
    { intros H; apply parse_keyword_length in H; [simpl in H; lia|discriminate]. }
    destruct (Ascii.eqb c "f").
    { intros H; apply parse_keyword_length in H; [simpl in H; lia|discriminate]. }
    destruct (Ascii.eqb c "n").
    { intros H; apply parse_keyword_length in H; [simpl in H; lia|discriminate]. }
    destruct (parse_number (c :: r0)) eqn:B; try discriminate.
    apply parse_number_length in B. intros H; inversion H; subst. simpl in B. lia.
  - intros s acc v r. simpl.
    destruct (parse_value f s) as [v0 r0| |] eqn:V; try discriminate.
    apply IHv in V.
    destruct (skip_ws r0) as [|c r'] eqn:E; [discriminate|].
    apply skip_ws_cons in E.
    destruct (Ascii.eqb c ",").
    + intros H; apply IHe in H; lia.
    + destruct (Ascii.eqb c "]"); [|discriminate].
      intros H; inversion H; subst; lia.
  - intros s acc v r. simpl.
    destruct (skip_ws s) as [|q r0] eqn:E; [discriminate|].
    apply skip_ws_cons in E.
    destruct (Ascii.eqb q dquote); [|discriminate].
    destruct (parse_string_body r0 []) as [k r1| |] eqn:B; try discriminate.
    apply parse_string_body_length in B.
    destruct (skip_ws r1) as [|col r2] eqn:E1; [discriminate|].
    apply skip_ws_cons in E1.
    destruct (Ascii.eqb col ":"); [|discriminate].
    destruct (parse_value f r2) as [v0 r3| |] eqn:V; try discriminate.
    apply IHv in V.
    destruct (skip_ws r3) as [|c r4] eqn:E3; [discriminate|].
    apply skip_ws_cons in E3.
    destruct (Ascii.eqb c ",").
    + intros H; apply IHm in H; lia.
    + destruct (Ascii.eqb c "}"); [|discriminate].
      intros H; inversion H; subst; lia.
Qed.

Lemma parse_budget_enough (f : nat) :
  (forall s, 2 * List.length s + 1 <= f -> parse_value f s <> PBudget)
  /\ (forall s acc, 2 * List.length s + 2 <= f -> parse_elements f s acc <> PBudget)
  /\ (forall s acc, 2 * List.length s + 2 <= f -> parse_members f s acc <> PBudget).
Proof.
  induction f as [|f (IHv & IHe & IHm)]; [repeat split; intros; lia|].
  repeat split.
  - intros s L. simpl.
    destruct (skip_ws s) as [|c r0] eqn:E; [discriminate|].
    apply skip_ws_cons in E.
    destruct (Ascii.eqb c "{").
    { destruct (skip_ws r0) as [|c' r'] eqn:E'; [discriminate|].
      destruct (Ascii.eqb c' "}"); [discriminate|]. apply IHm. lia. }
    destruct (Ascii.eqb c "[").
    { destruct (skip_ws r0) as [|c' r'] eqn:E'; [discriminate|].
      destruct (Ascii.eqb c' "]"); [discriminate|]. apply IHe. lia. }
    destruct (Ascii.eqb c dquote).
    { pose proof (parse_string_body_no_budget r0 []).
      destruct (parse_string_body r0 []); congruence. }
    unfold parse_keyword.
    destruct (Ascii.eqb c "t"); [destruct (strip_prefix _ _); discriminate|].
    destruct (Ascii.eqb c "f"); [destruct (strip_prefix _ _); discriminate|].
    destruct (Ascii.eqb c "n"); [destruct (strip_prefix _ _); discriminate|].
    pose proof (parse_number_no_budget (c :: r0)).
    destruct (parse_number (c :: r0)); congruence.
  - intros s acc L. simpl.
    pose proof (IHv s ltac:(lia)) as Hv.
    destruct (parse_value f s) as [v0 r0| |] eqn:V; try congruence.
    apply (proj1 (parse_progress f)) in V.
    destruct (skip_ws r0) as [|c r'] eqn:E; [discriminate|].
    apply skip_ws_cons in E.
    destruct (Ascii.eqb c ","); [apply IHe; lia|].
    destruct (Ascii.eqb c "]"); discriminate.
  - intros s acc L. simpl.
    destruct (skip_ws s) as [|q r0] eqn:E; [discriminate|].
    apply skip_ws_cons in E.
    destruct (Ascii.eqb q dquote); [|discriminate].
    pose proof (parse_string_body_no_budget r0 []) as Hb.
    destruct (parse_string_body r0 []) as [k r1| |] eqn:B; try congruence.
    apply parse_string_body_length in B.
    destruct (skip_ws r1) as [|col r2] eqn:E1; [discriminate|].
    apply skip_ws_cons in E1.
    destruct (Ascii.eqb col ":"); [|discriminate].
    pose proof (IHv r2 ltac:(lia)) as Hv.
    destruct (parse_value f r2) as [v0 r3| |] eqn:V; try congruence.
    apply (proj1 (parse_progress f)) in V.
    destruct (skip_ws r3) as [|c r4] eqn:E3; [discriminate|].
    apply skip_ws_cons in E3.
    destruct (Ascii.eqb c ","); [apply IHm; lia|].
    destruct (Ascii.eqb c "}"); discriminate.
Qed.

(** [JSON_parse] returns a value or throws a [SyntaxError]. *)
Lemma JSON_parse_total (s : jsstring) : JSON_parse s <> OutOfBudget.
Proof.
  unfold JSON_parse, budget.
  pose proof (proj1 (parse_budget_enough (2 * List.length s + 2)) s ltac:(lia)) as H.
  destruct (parse_value _ s) as [v r| |]; try congruence.
  destruct (skip_ws r); discriminate.
Qed.

End ParserBudget.

(** ** The tolerant parser *)

Example JSON_parse_ex1 :
  JSON_parse (qlit "{~a~: [1, 2.5, -3e2, true, null], ~b~: {~c~: ~x\ny\u0041~}, ~a~: ~z~}")
  = Parsed (JObj [(lit "a", JStr (lit "z"));
                  (lit "b", JObj [(lit "c", JStr (lit "x" ++ [chr 10] ++ lit "yA"))])]).
Proof. reflexivity. Qed.

Example JSON_parse_ex2 :
  JSON_parse (lit " [1, 2.5, -3e2, 0.5e-1, true, null, []] ")
  = Parsed (JArr [JNum 1%Q; JNum (5 # 2)%Q; JNum (-300)%Q; JNum (1 # 20)%Q;
                  JBool true; JNull; JArr []]).
Proof. reflexivity. Qed.

Example JSON_parse_ex3 :
  map JSON_parse [lit "{'a': 1}"; lit "01"; lit "[1,]"; qlit "{~a~:1,}"; []; lit "1 2";
                  qlit "~a"; lit "tru"; lit "-"; lit "1."; lit "1e"; lit ".5"]
  = repeat SyntaxError 12.
Proof. reflexivity. Qed.

Section ParserProperties.

Lemma dropWhile_In (p : ascii -> bool) (s : jsstring) (c : ascii) :
  In c (dropWhile p s) -> In c s.
Proof.
  induction s as [|x r IH]; simpl; [tauto|].
  destruct (p x); simpl; tauto.
Qed.

Lemma trim_In (s : jsstring) (c : ascii) : In c (trim s) -> In c s.
Proof.
  unfold trim. intros H.
  apply in_rev, dropWhile_In, in_rev, dropWhile_In in H. exact H.
Qed.

(** A replacement by the empty string only removes characters. *)
Lemma replace_scan_In (m : jsstring -> option (jsstring * nat)) :
  (forall s out len, m s = Some (out, len) -> out = []) ->
  forall s skip c, In c (replace_scan m skip s) -> In c s.
Proof.
  intros Hm s. induction s as [|x r IH]; intros skip c; simpl; [tauto|].
  destruct skip as [|k].
  - destruct (m (x :: r)) as [[out len]|] eqn:E.
    + apply Hm in E. subst out. simpl. intros H. right. eapply IH, H.
    + simpl. intros [H|H]; [tauto|]. right. eapply IH, H.
  - intros H. right. eapply IH, H.
Qed.

Lemma re_fence_json_empty s out len : re_fence_json s = Some (out, len) -> out = [].
Proof.
  unfold re_fence_json. destruct (strip_prefix _ s) as [[|c r]|]; congruence.
Qed.

Lemma re_fence_empty s out len : re_fence s = Some (out, len) -> out = [].
Proof.
  unfold re_fence. destruct (strip_prefix _ s) as [[|c r]|]; congruence.
Qed.

Lemma match_braces_none (s : jsstring) :
  ~ In "{"%char s -> match_braces s = None.
Proof.
  unfold match_braces. intros H.
  assert (E : dropWhile (not_char "{") s = []).
  { induction s as [|x r IH]; simpl; [reflexivity|].
    unfold not_char at 1. destruct (Ascii.eqb_spec x "{"%char) as [->|_]; simpl.
    - exfalso. apply H. left. reflexivity.
    - apply IH. intros F. apply H. right. exact F. }
  rewrite E. reflexivity.
Qed.

(** A reply without an opening brace is rejected at the first step. *)
Lemma parse_without_opening_brace (text : jsstring) :
  ~ In "{"%char text -> _parseAIResponse text = Throw NoJsonFound.
Proof.
  intros H. unfold _parseAIResponse. rewrite match_braces_none; [reflexivity|].
  intros F. apply H.
  apply trim_In in F.
  apply (replace_scan_In _ re_fence_empty) in F.
  apply (replace_scan_In _ re_fence_json_empty) in F. exact F.
Qed.

End ParserProperties.

(** C4.  On the reply [{'riskLevel': 'high', 'risks': []}] the repairs
    turn the value after the colon and the key after the opening brace
    into double-quoted strings but leave the key ['risks'], which follows
    a comma, single-quoted; the second [JSON.parse] throws a syntax error
    and the parser throws instead of returning the record.  A reply that
    contains no brace is rejected with the no-JSON-found error. *)
Theorem parseAIResponse_single_quoted_keys :
  let repaired :=
    replace_all re_description
      (replace_all re_quoted_key (replace_all re_quoted_value single_quoted_reply)) in
  repaired = qlit "{~riskLevel~: ~high~, 'risks': []}"
  /\ JSON_parse repaired = SyntaxError
  /\ _parseAIResponse single_quoted_reply = Throw InvalidJson
  /\ _parseAIResponse (lit "{'riskLevel': 'high'}")
     = Return (JObj [(lit "riskLevel", JStr (lit "high"))])
  /\ (forall text,
        ~ In "{"%char text -> ~ In "}"%char text ->
        _parseAIResponse text = Throw NoJsonFound).
Proof.
  repeat split; try reflexivity.
  intros text H _. apply parse_without_opening_brace, H.
Qed.

Lemma parseAIResponse_single_quoted_keys_witness :
  ~ In "{"%char (lit "no structure here")
  /\ ~ In "}"%char (lit "no structure here")
  /\ _parseAIResponse (lit "no structure here") = Throw NoJsonFound.
Proof.
  assert (A : ~ In "{"%char (lit "no structure here")).
  { simpl. intros H. repeat (destruct H as [H|H]; [discriminate H|]). exact H. }
  assert (B : ~ In "}"%char (lit "no structure here")).
  { simpl. intros H. repeat (destruct H as [H|H]; [discriminate H|]). exact H. }
  split; [exact A|]. split; [exact B|].
  exact (proj2 (proj2 (proj2 (proj2 parseAIResponse_single_quoted_keys))) _ A B).
Defined.

(** ** The stable sort *)

Section StableSortProperties.

Context {A : Type} (before : A -> A -> bool).

Lemma insert_sorted_perm (x : A) (l : list A) :
  Permutation (insert_sorted before x l) (x :: l).
Proof.
  induction l as [|y r IH]; simpl; [reflexivity|].
  destruct (before x y); [reflexivity|].
  rewrite IH. apply perm_swap.
Qed.

Lemma stable_sort_perm (l : list A) : Permutation (stable_sort before l) l.
Proof.
  induction l as [|x r IH]; simpl; [reflexivity|].
  rewrite insert_sorted_perm. constructor. exact IH.
Qed.

Lemma stable_sort_In (l : list A) (x : A) : In x (stable_sort before l) <-> In x l.
Proof.
  split; apply Permutation_in; [|symmetry]; apply stable_sort_perm.
Qed.

(** Sortedness for a relation that [before] decides on the elements at
    hand (those satisfying [P]). *)
Section Sorted.

Context (R : A -> A -> Prop) (P : A -> Prop).
Hypothesis before_true : forall a b, P a -> P b -> before a b = true -> R a b.
Hypothesis before_false : forall a b, P a -> P b -> before a b = false -> R b a.

Lemma insert_sorted_sorted (x : A) (l : list A) :
  P x -> Forall P l -> Sorted R l -> Sorted R (insert_sorted before x l).
Proof.
  intros Px Pl Hs. induction l as [|y r IH]; simpl.
  - repeat constructor.
  - inversion Pl as [|? ? Py Pr]; subst. inversion Hs as [|? ? Hr Hhd]; subst.
    destruct (before x y) eqn:E.
    + constructor; [exact Hs|]. constructor. apply before_true; assumption.
    + constructor; [apply IH; assumption|].
      destruct r as [|z r']; simpl.
      * constructor. apply before_false; assumption.
      * destruct (before x z).
        -- constructor. apply before_false; assumption.
        -- constructor. inversion Hhd; subst. assumption.
Qed.

Lemma stable_sort_sorted (l : list A) :
  Forall P l -> Sorted R (stable_sort before l).
Proof.
  induction l as [|x r IH]; simpl; intros H; [constructor|].
  inversion H; subst.
  apply insert_sorted_sorted; [assumption| |apply IH; assumption].
  match goal with Hr : Forall P r |- _ => rewrite Forall_forall in Hr |- * end.
  intros y Hy. apply (proj1 (stable_sort_In _ _)) in Hy. auto.
Qed.

End Sorted.

(** Stability: a class [p] of elements that [before] lets stay in front
    of one another keeps its order. *)
Lemma insert_sorted_filter (p : A -> bool) (x : A) (l : list A) :
  (forall y, In y l -> p x = true -> p y = true -> before x y = true) ->
  filter p (insert_sorted before x l) = filter p (x :: l).
Proof.
  induction l as [|y r IH]; intros H; simpl; [reflexivity|].
  destruct (before x y) eqn:E; [reflexivity|].
  simpl. rewrite IH by (intros z Hz; apply H; right; exact Hz). simpl.
  destruct (p x) eqn:Px; [|reflexivity].
  destruct (p y) eqn:Py; [|reflexivity].
  rewrite (H y (or_introl eq_refl) eq_refl Py) in E. discriminate.
Qed.

Lemma stable_sort_filter (p : A -> bool) (l : list A) :
  (forall x y, p x = true -> p y = true -> before x y = true) ->
  filter p (stable_sort before l) = filter p l.
Proof.
  intros H. induction l as [|x r IH]; simpl; [reflexivity|].
  rewrite insert_sorted_filter by (intros; apply H; assumption).
  simpl. rewrite IH. reflexivity.
Qed.

End StableSortProperties.

(** ** The similarity scorer *)

Section Tokens.

Lemma strip_prefix_app (p s r : jsstring) :
  strip_prefix p s = Some r -> s = p ++ r.
Proof.
  revert s. induction p as [|x p IH]; simpl; intros s H.
  - congruence.
  - destruct s as [|y s]; [discriminate|].
    destruct (Ascii.eqb_spec x y) as [->|]; [|discriminate].
    f_equal. apply IH, H.
Qed.






End Tokens.

Section Similarity.

Lemma filter_none {A : Type} (p : A -> bool) (l : list A) :
  (forall x, In x l -> p x = false) -> filter p l = [].
Proof.
  induction l as [|x r IH]; intros H; simpl; [reflexivity|].
  rewrite (H x (or_introl eq_refl)). apply IH. intros y Hy. apply H. right. exact Hy.
Qed.




Lemma score_all_length contractText keywords allContracts scored :
  score_all contractText keywords allContracts = Return scored ->
  map contractId scored = map fst allContracts
  /\ map similarity scored
     = map (fun c => _calculateSimilarity keywords (snd c)) allContracts.
Proof.
  revert scored. induction allContracts as [|[id t] r IH]; simpl; intros scored H.
  - inversion H. split; reflexivity.
  - destruct (_findMatchedFeatures contractText t); [|discriminate].
    destruct (score_all contractText keywords r) as [l|]; [|discriminate].
    inversion H; subst. destruct (IH l eq_refl) as [E1 E2]. simpl.
    rewrite E1, E2. split; reflexivity.
Qed.

Lemma score_all_with_text contractText keywords allContracts :
  (forall c, In c allContracts -> snd c <> None) ->
  exists scored, score_all contractText keywords allContracts = Return scored.
Proof.
  induction allContracts as [|[id t] r IH]; simpl; intros H; [eauto|].
  destruct t as [t|]; [|exfalso; apply (H (id, None)); auto].
  simpl. destruct IH as (l & ->); [intros c Hc; apply H; auto|]. eauto.
Qed.

Lemma score_all_no_feature contractText keywords allContracts :
  existsb (includes contractText) features = false ->
  exists scored, score_all contractText keywords allContracts = Return scored.
Proof.
  intros Hf. induction allContracts as [|[id t] r IH]; cbn [score_all]; [eauto|].
  destruct IH as (l & ->). unfold _findMatchedFeatures.
  destruct t as [t|]; [eauto|]. rewrite Hf. eauto.
Qed.

End Similarity.



Section Ranking.

Lemma above_threshold_num (e : SimilarContract) :
  above_threshold e = true -> exists q, similarity e = Num q /\ (3 # 10 < q)%Q.
Proof.
  unfold above_threshold. destruct (similarity e) as [q|]; [|discriminate].
  intros H. exists q. split; [reflexivity|].
  apply negb_true_iff in H. apply Qnot_le_lt. intros L.
  apply Qle_bool_iff in L. congruence.
Qed.

Lemma calculateSimilarity_formula (keywords : list jsstring) (c : ascii) (t : jsstring) :
  _calculateSimilarity keywords (Some (c :: t))
  = ratio (matches_lowercased keywords (c :: t)) (List.length keywords).
Proof. reflexivity. Qed.

Lemma ranked_sorted (l : list SimilarContract) :
  StronglySorted (fun a b => (sim_value b <= sim_value a)%Q)
                 (stable_sort sim_before (filter above_threshold l)).
Proof.
  apply Sorted_StronglySorted.
  { intros a b c H1 H2. eapply Qle_trans; eassumption. }
  apply (stable_sort_sorted sim_before _ (fun e => exists q, similarity e = Num q)).
  - intros a b (x & Ha) (y & Hb). unfold sim_before, sim_value. rewrite Ha, Hb.
    apply Qle_bool_iff.
  - intros a b (x & Ha) (y & Hb). unfold sim_before, sim_value. rewrite Ha, Hb.
    intros H. apply Qlt_le_weak, Qnot_le_lt. intros L.
    apply Qle_bool_iff in L. congruence.
  - apply Forall_forall. intros e He. apply filter_In in He as [_ He].
    apply above_threshold_num in He as (q & Hq & _). eauto.
Qed.

Lemma ranked_stable (q : Q) (l : list SimilarContract) :
  filter (same_similarity q) (stable_sort sim_before l) = filter (same_similarity q) l.
Proof.
  apply stable_sort_filter. intros a b. unfold same_similarity, sim_before.
  destruct (similarity a) as [x|]; [|discriminate].
  destruct (similarity b) as [y|]; [|discriminate].
  intros Hx Hy. apply Qeq_bool_iff in Hx, Hy. apply Qle_bool_iff.
  rewrite Hx, Hy. apply Qle_refl.
Qed.

End Ranking.

(** C5, as amended.  A keyword counts as matched when it occurs in the
    lower-cased candidate text, and the similarity is the number of
    matched keywords over the number of keywords (0 for a candidate
    without text).  An ok result holds exactly the candidates whose
    similarity exceeds 0.3, by descending similarity, candidates of equal
    similarity in input order, cut to the first 5; 6 matches out of 20
    keywords stay out and 7 out of 20 get in.  The result is ok whenever
    every candidate has a text. *)
Theorem findSimilarContracts_ranking :
  (forall keywords c t,
      _calculateSimilarity keywords (Some (c :: t))
      = ratio (matches_lowercased keywords (c :: t)) (List.length keywords))
  /\ (forall keywords,
        _calculateSimilarity keywords None = Num 0
        /\ _calculateSimilarity keywords (Some []) = Num 0)
  /\ (forall text allContracts data,
        findSimilarContracts text allContracts = SimilarOk data ->
        exists scored ranked,
          map contractId scored = map fst allContracts
          /\ map similarity scored
             = map (fun c => _calculateSimilarity (_extractKeywords text) (snd c))
                   allContracts
          /\ (forall e, In e ranked <-> In e scored /\ above_threshold e = true)
          /\ (forall e, above_threshold e = true <->
                        exists q, similarity e = Num q /\ (3 # 10 < q)%Q)
          /\ StronglySorted (fun a b => (sim_value b <= sim_value a)%Q) ranked
          /\ (forall q, filter (same_similarity q) ranked
                        = filter (same_similarity q) (filter above_threshold scored))
          /\ data = firstn 5 ranked
          /\ List.length data <= 5)
  /\ (forall keywords c t id mf,
        List.length keywords = 20 ->
        let entry := {| contractId := id;
                        similarity := _calculateSimilarity keywords (Some (c :: t));
                        matchedFeatures := mf |} in
        (matches_lowercased keywords (c :: t) = 6 -> above_threshold entry = false)
        /\ (matches_lowercased keywords (c :: t) = 7 -> above_threshold entry = true))
  /\ (forall text allContracts,
        (forall c, In c allContracts -> snd c <> None) ->
        exists data, findSimilarContracts text allContracts = SimilarOk data).
Proof.
  split; [intros; apply calculateSimilarity_formula|].
  split; [intros; split; reflexivity|].
  split; [|split].
  - intros text allContracts data. unfold findSimilarContracts.
    destruct (score_all text (_extractKeywords text) allContracts) as [scored|] eqn:E;
      [|discriminate].
    intros H.
    assert (D : data = firstn 5 (stable_sort sim_before (filter above_threshold scored)))
      by congruence.
    clear H. rewrite D.
    destruct (score_all_length _ _ _ _ E) as [I S].
    exists scored, (stable_sort sim_before (filter above_threshold scored)).
    split; [exact I|]. split; [exact S|]. split.
    { intros e. rewrite stable_sort_In. apply filter_In. }
    split.
    { intros e. split; [apply above_threshold_num|].
      intros (q & Hq & L). unfold above_threshold. rewrite Hq.
      apply negb_true_iff. destruct (Qle_bool q (3 # 10)) eqn:B; [|reflexivity].
      apply Qle_bool_iff in B. exfalso. eapply Qlt_not_le; eassumption. }
    split; [apply ranked_sorted|].
    split; [intros q; apply ranked_stable|].
    split; [reflexivity|]. apply firstn_le_length.
  - intros keywords c t id mf L entry. subst entry. unfold above_threshold.
    cbn [similarity]. rewrite calculateSimilarity_formula, L.
    split; intros ->; reflexivity.
  - intros text allContracts H. unfold findSimilarContracts.
    destruct (score_all_with_text text (_extractKeywords text) allContracts H)
      as (scored & ->).
    eauto.
Qed.

Lemma findSimilarContracts_ranking_witness :
  (forall c, In c ranking_pool -> snd c <> None)
  /\ findSimilarContracts ranking_target ranking_pool
     = SimilarOk [ {| contractId := 2; similarity := Num (2 # 2); matchedFeatures := [] |};
                   {| contractId := 1; similarity := Num (1 # 2); matchedFeatures := [] |};
                   {| contractId := 4; similarity := Num (1 # 2); matchedFeatures := [] |} ]
  /\ exists data, findSimilarContracts ranking_target ranking_pool = SimilarOk data.
Proof.
  assert (H : forall c, In c ranking_pool -> snd c <> None).
  { intros c Hc. unfold ranking_pool in Hc. simpl in Hc.
    repeat (destruct Hc as [<-|Hc]; [discriminate|]). contradiction. }
  split; [exact H|]. split; [reflexivity|].
  exact (proj2 (proj2 (proj2 (proj2 findSimilarContracts_ranking)))
               ranking_target ranking_pool H).
Defined.

(** C5 as written fails: no keyword of the target occurs in the
    candidate text as it is (0 of 2, below the threshold), yet the
    candidate is returned, with similarity 1. *)
Lemma findSimilarContracts_case_counterexample :
  _extractKeywords ranking_target = [lit "termination"; lit "clause"]
  /\ matches_as_written (_extractKeywords ranking_target) ranking_candidate = 0
  /\ findSimilarContracts ranking_target [(7%Z, Some ranking_candidate)]
     = SimilarOk [ {| contractId := 7; similarity := Num (2 # 2); matchedFeatures := [] |} ].
Proof. repeat split. Qed.

(** ** The collection *)

Section StoreProperties.

Lemma findById_some (id : Z) (s : Store) (c : Contract) :
  findById id s = Some c -> _id c = id /\ In c s.
Proof.
  unfold findById. intros H. apply find_some in H as [I E].
  split; [apply Z.eqb_eq, E|exact I].
Qed.

Lemma findById_put_same (c : Contract) (s : Store) :
  findById (_id c) (put c s) = Some c.
Proof.
  unfold findById. induction s as [|d r IH]; simpl.
  - rewrite Z.eqb_refl. reflexivity.
  - destruct (Z.eqb_spec (_id d) (_id c)) as [E|N]; simpl.
    + rewrite Z.eqb_refl. reflexivity.
    + destruct (Z.eqb_spec (_id d) (_id c)); [contradiction|]. exact IH.
Qed.

Lemma findById_put_other (id : Z) (c : Contract) (s : Store) :
  id <> _id c -> findById id (put c s) = findById id s.
Proof.
  unfold findById. intros N. induction s as [|d r IH]; simpl.
  - destruct (Z.eqb_spec (_id c) id); [congruence|reflexivity].
  - destruct (Z.eqb_spec (_id d) (_id c)) as [E|N']; simpl.
    + destruct (Z.eqb_spec (_id c) id); [congruence|].
      destruct (Z.eqb_spec (_id d) id); [congruence|]. reflexivity.
    + destruct (Z.eqb_spec (_id d) id); [reflexivity|]. exact IH.
Qed.

Lemma put_In (c d : Contract) (s : Store) :
  In d (put c s) -> d = c \/ In d s.
Proof.
  induction s as [|e r IH]; simpl.
  - intros [H|[]]; auto.
  - destruct (_id e =? _id c)%Z; simpl.
    + intros [H|H]; auto.
    + intros [H|H]; auto. destruct (IH H); auto.
Qed.

End StoreProperties.

(** ** The unavailable capability *)

Section Unavailable.

Lemma or_default_nonempty (v : option jsstring) (d : jsstring) :
  d <> [] -> Config.or_default v d <> [].
Proof. intros D. destruct v as [[|c r]|]; cbn; try exact D. discriminate. Qed.

Lemma nonempty_iff (v : option jsstring) :
  Config.nonempty v = true <-> exists c r, v = Some (c :: r).
Proof.
  destruct v as [[|c r]|]; cbn; split; try discriminate; eauto;
    intros (c' & r' & E); discriminate E.
Qed.

Lemma load_cases (e : Config.Env) :
  (Config.nonempty (e "ANTHROPIC_API_KEY"%string) = true
   /\ Config.load e = inl (Config.build e))
  \/ (Config.nonempty (e "ANTHROPIC_API_KEY"%string) = false
      /\ Config.load e = inr [lit "ANTHROPIC_API_KEY is required for AI features"]).
Proof.
  unfold Config.load, Config.validation_errors.
  change (Config.anthropicApiKey (Config.ai (Config.build e)))
    with (e "ANTHROPIC_API_KEY"%string).
  assert (U : Config.uri (Config.database (Config.build e)) <> [])
    by (apply or_default_nonempty; discriminate).
  destruct (Config.uri (Config.database (Config.build e))) as [|x u]; [contradiction|].
  destruct (Config.nonempty (e "ANTHROPIC_API_KEY"%string)); [left|right];
    split; reflexivity.
Qed.

Lemma run_stage_disabled (a : Capability) (req : request) (fb : json) :
  enabled a = false -> run_stage a req fb = (Fallback fb, []).
Proof. unfold run_stage. intros ->. reflexivity. Qed.


End Unavailable.




(** ** The deadline window *)

Section Deadlines.

Lemma is_upcoming_iff (now : Z) (kd : KeyDate) :
  is_upcoming now kd = true
  <-> exists d, date kd = Some d /\ (now <= d <= now + thirty_days)%Z.
Proof.
  unfold is_upcoming. destruct (date kd) as [d|].
  - rewrite andb_true_iff, !Z.leb_le. split.
    + intros H. exists d. auto.
    + intros (d' & E & H). inversion E; subst. exact H.
  - split; [discriminate|]. intros (d & E & _). discriminate.
Qed.

Lemma date_query_complete (now : Z) (c : Contract) :
  date_query now c = false -> filter (is_upcoming now) (keyDates c) = [].
Proof.
  intros H. apply filter_none. intros kd Hkd.
  destruct (is_upcoming now kd) eqn:U; [|reflexivity].
  exfalso. unfold is_upcoming in U. unfold date_query in H.
  destruct (date kd) as [d|] eqn:D; [|discriminate].
  apply andb_prop in U as [U1 U2].
  apply andb_false_iff in H as [H|H].
  - assert (existsb (fun kd => match date kd with
                               | Some d => (now <=? d)%Z
                               | None => false
                               end) (keyDates c) = true) as X.
    { apply existsb_exists. exists kd. rewrite D. auto. }
    congruence.
  - assert (existsb (fun kd => match date kd with
                               | Some d => (d <=? now + thirty_days)%Z
                               | None => false
                               end) (keyDates c) = true) as X.
    { apply existsb_exists. exists kd. rewrite D. auto. }
    congruence.
Qed.

Lemma getUpcomingDeadlines_length (now : Z) (store : Store) :
  List.length (_getUpcomingDeadlines now store)
  = List.length (flat_map (fun c => filter (is_upcoming now) (keyDates c)) store).
Proof.
  unfold _getUpcomingDeadlines.
  rewrite (Permutation_length (stable_sort_perm deadline_before _)).
  induction store as [|c r IH]; simpl; [reflexivity|].
  rewrite length_app, <- IH.
  destruct (date_query now c) eqn:Q; simpl.
  - rewrite length_app, length_map. reflexivity.
  - rewrite (date_query_complete now c Q). reflexivity.
Qed.

End Deadlines.

(** C9.  A key date is upcoming exactly when it lies between now and now
    plus thirty days, both ends included: thirty days from now is in,
    one second later is out.  The alert of a run receives the upcoming
    key dates of the document, and the dashboard's upcomingDeadlines is
    the number of upcoming key dates over all documents. *)
Theorem upcoming_deadline_window :
  thirty_days = 2592000000%Z
  /\ (forall now kd,
        is_upcoming now kd = true
        <-> exists d, date kd = Some d /\ (now <= d <= now + thirty_days)%Z)
  /\ (forall now kd, date kd = Some (now + thirty_days)%Z -> is_upcoming now kd = true)
  /\ (forall now kd,
        date kd = Some (now + thirty_days + 1000)%Z -> is_upcoming now kd = false)
  /\ (forall now contract,
        _checkDeadlinesAndAlert now contract
        = match filter (is_upcoming now) (keyDates contract) with
          | [] => None
          | l => Some l
          end)
  /\ (forall now store,
        upcomingDeadlines (getDashboardStats now store)
        = List.length (flat_map (fun c => filter (is_upcoming now) (keyDates c)) store)).
Proof.
  split; [reflexivity|].
  split; [exact is_upcoming_iff|].
  split.
  { intros now kd D. unfold is_upcoming. rewrite D.
    apply andb_true_iff. rewrite !Z.leb_le. unfold thirty_days. lia. }
  split.
  { intros now kd D. unfold is_upcoming. rewrite D.
    apply andb_false_iff. right. apply Z.leb_gt. lia. }
  split; [reflexivity|].
  intros now store. apply getUpcomingDeadlines_length.
Qed.

Lemma upcoming_deadline_window_witness :
  date at_limit = Some (1700000000000 + thirty_days)%Z
  /\ is_upcoming 1700000000000 at_limit = true
  /\ date past_limit = Some (1700000000000 + thirty_days + 1000)%Z
  /\ is_upcoming 1700000000000 past_limit = false.
Proof.
  split; [reflexivity|]. split.
  - exact (proj1 (proj2 (proj2 upcoming_deadline_window)) _ at_limit eq_refl).
  - split; [reflexivity|].
    exact (proj1 (proj2 (proj2 (proj2 upcoming_deadline_window))) _ past_limit eq_refl).
Defined.

(** ** The orchestrator, stage by stage *)

Section Stages.

Variable w : World.

Lemma same_extracted_trans (a b c : Contract) :
  same_extracted a b -> same_extracted b c -> same_extracted a c.
Proof. unfold same_extracted. intuition congruence. Qed.

Lemma same_risk_trans (a b c : Contract) :
  same_risk a b -> same_risk b c -> same_risk a c.
Proof. unfold same_risk. intuition congruence. Qed.

Lemma later_stages_doc (store : Store) (id : Z) (contractText : jsstring)
      (intelligence : json) (c : Contract) :
  let riskResult := fst (assessRisks (ai w) contractText intelligence) in
  let complianceResult := fst (checkCompliance (ai w) contractText intelligence) in
  fst (later_stages w store id contractText intelligence c)
  = finalize w intelligence riskResult complianceResult
      (similarity_stage store id contractText
         (fst (pricing_stage w contractText
                 (apply_compliance complianceResult
                    (apply_risk riskResult (merge_intelligence w intelligence c)))))).
Proof.
  unfold later_stages.
  destruct (assessRisks (ai w) contractText intelligence) as [rr k2].
  destruct (checkCompliance (ai w) contractText intelligence) as [cr k3].
  cbn [fst].
  destruct (pricing_stage w contractText _) as [c4 k4]. reflexivity.
Qed.

Lemma merge_intelligence_fields (intelligence : json) (c : Contract) :
  let c' := merge_intelligence w intelligence c in
  parties c' = match nonempty_array (field "parties" intelligence) with
               | Some l => l
               | None => parties c
               end
  /\ keyDates c' = match nonempty_array (field "keyDates" intelligence) with
                   | Some l => map (castKeyDate w) l
                   | None => keyDates c
                   end
  /\ financialTerms c' = match nonempty_array (field "financialTerms" intelligence) with
                         | Some l => l
                         | None => financialTerms c
                         end
  /\ clauses c' = match nonempty_array (field "clauses" intelligence) with
                  | Some l => l
                  | None => clauses c
                  end.
Proof.
  unfold merge_intelligence.
  destruct (nonempty_array (field "parties" intelligence));
    destruct (nonempty_array (field "keyDates" intelligence));
    destruct (nonempty_array (field "financialTerms" intelligence));
    destruct (nonempty_array (field "clauses" intelligence));
    repeat split.
Qed.

Lemma merge_intelligence_rest (intelligence : json) (c : Contract) :
  let c' := merge_intelligence w intelligence c in
  same_risk c c' /\ complianceScore c' = complianceScore c
  /\ errorCount c' = errorCount c /\ _id c' = _id c.
Proof.
  unfold merge_intelligence, same_risk.
  destruct (nonempty_array (field "parties" intelligence));
    destruct (nonempty_array (field "keyDates" intelligence));
    destruct (nonempty_array (field "financialTerms" intelligence));
    destruct (nonempty_array (field "clauses" intelligence));
    repeat split.
Qed.

Lemma apply_risk_frame (r : stage_result) (c : Contract) :
  same_extracted c (apply_risk r c)
  /\ complianceScore (apply_risk r c) = complianceScore c
  /\ (ok_of r = false -> same_risk c (apply_risk r c)).
Proof.
  unfold same_extracted, same_risk. destruct r; repeat split; discriminate.
Qed.

Lemma apply_compliance_frame (r : stage_result) (c : Contract) :
  same_extracted c (apply_compliance r c) /\ same_risk c (apply_compliance r c)
  /\ complianceScore (apply_compliance r c)
     = match r with
       | StageOk d => option_map castNumber (field "complianceScore" d)
       | _ => complianceScore c
       end.
Proof. unfold same_extracted, same_risk. destruct r; repeat split. Qed.

Lemma pricing_stage_frame (contractText : jsstring) (c : Contract) :
  let c' := fst (pricing_stage w contractText c) in
  same_extracted c c' /\ same_risk c c' /\ complianceScore c' = complianceScore c.
Proof.
  unfold pricing_stage, same_extracted, same_risk.
  destruct (financialTerms c) as [|x l] eqn:F; [cbn; repeat split; exact F|].
  destruct (analyzePricing (ai w) contractText (x :: l)) as [[d|e fb|fb] k];
    cbn; repeat split; exact F.
Qed.

Lemma similarity_stage_frame (store : Store) (id : Z) (contractText : jsstring)
      (c : Contract) :
  let c' := similarity_stage store id contractText c in
  same_extracted c c' /\ same_risk c c' /\ complianceScore c' = complianceScore c.
Proof.
  unfold similarity_stage, apply_similar, same_extracted, same_risk.
  destruct (findSimilarContracts _ _); repeat split.
Qed.

Lemma finalize_frame (intelligence : json) (rr cr : stage_result) (c : Contract) :
  let c' := finalize w intelligence rr cr c in
  same_extracted c c' /\ same_risk c c' /\ complianceScore c' = complianceScore c
  /\ status c' = analyzed /\ errorCount c' = 0%Z /\ lastError c' = None
  /\ aiAnalysisDate c' = Some (now w)
  /\ aiConfidenceScore c'
     = Some (_calculateOverallConfidence (or_zero (field "confidence" intelligence)) rr cr).
Proof. unfold same_extracted, same_risk. repeat split. Qed.

(** What the later stages leave in the document. *)
Lemma later_stages_fields (store : Store) (id : Z) (contractText : jsstring)
      (intelligence : json) (c : Contract) :
  let riskResult := fst (assessRisks (ai w) contractText intelligence) in
  let complianceResult := fst (checkCompliance (ai w) contractText intelligence) in
  let doc := fst (later_stages w store id contractText intelligence c) in
  same_extracted (merge_intelligence w intelligence c) doc
  /\ (ok_of riskResult = false -> same_risk c doc)
  /\ complianceScore doc
     = match complianceResult with
       | StageOk d => option_map castNumber (field "complianceScore" d)
       | _ => complianceScore c
       end
  /\ status doc = analyzed /\ errorCount doc = 0%Z /\ lastError doc = None
  /\ aiAnalysisDate doc = Some (now w)
  /\ aiConfidenceScore doc
     = Some (_calculateOverallConfidence (or_zero (field "confidence" intelligence))
                                         riskResult complianceResult).
Proof.
  intros rr cr doc. subst doc. rewrite later_stages_doc. fold rr cr.
  set (c1 := merge_intelligence w intelligence c).
  set (c2 := apply_risk rr c1).
  set (c3 := apply_compliance cr c2).
  set (c4 := fst (pricing_stage w contractText c3)).
  set (c5 := similarity_stage store id contractText c4).
  destruct (merge_intelligence_rest intelligence c) as (R1 & S1 & _).
  destruct (apply_risk_frame rr c1) as (E2 & S2 & R2).
  destruct (apply_compliance_frame cr c2) as (E3 & R3 & S3).
  destruct (pricing_stage_frame contractText c3) as (E4 & R4 & S4).
  destruct (similarity_stage_frame store id contractText c4) as (E5 & R5 & S5).
  destruct (finalize_frame intelligence rr cr c5) as (E6 & R6 & S6 & St & Ec & Le & Da & Co).
  fold c1 in R1, S1. fold c2 in E2, S2, R2. fold c3 in E3, R3, S3.
  fold c4 in E4, R4, S4. fold c5 in E5, R5, S5.
  split.
  { repeat (eapply same_extracted_trans; [eassumption|]). exact E6. }
  split.
  { intros Hr. specialize (R2 Hr).
    repeat (eapply same_risk_trans; [eassumption|]). exact R6. }
  split.
  { rewrite S6, S5, S4, S3. destruct cr; [reflexivity| |]; congruence. }
  repeat split; assumption.
Qed.

(** A run in which the intelligence stage succeeds and every [save()]
    succeeds. *)
Lemma analyzeContract_success (s : Store) (id : Z) (contract : Contract)
      (c : ascii) (t : jsstring) (intelligence : json) (k1 : list request) :
  findById id s = Some contract ->
  textContent contract = Some (c :: t) ->
  (forall d, save_error w d = None) ->
  extractContractIntelligence (ai w) (c :: t) (title contract)
  = (StageOk intelligence, k1) ->
  let started := set_status processing contract in
  let store1 := put started s in
  let doc := fst (later_stages w store1 id (c :: t) intelligence started) in
  analyzeContract w s id
  = {| final_store := put doc store1;
       response := Return {| ok := true; error := None; data := Some doc |};
       calls := k1 ++ snd (later_stages w store1 id (c :: t) intelligence started);
       alert := _checkDeadlinesAndAlert (now w) doc |}.
Proof.
  intros F T S I started store1 doc. unfold analyzeContract.
  rewrite F, T, S. cbn [title set_status]. rewrite I.
  subst doc store1 started.
  destruct (later_stages w _ id (c :: t) intelligence _) as [d k].
  rewrite S. reflexivity.
Qed.

Lemma later_stages_id (store : Store) (id : Z) (contractText : jsstring)
      (intelligence : json) (c : Contract) :
  _id (fst (later_stages w store id contractText intelligence c)) = _id c.
Proof.
  rewrite later_stages_doc.
  set (rr := fst (assessRisks (ai w) contractText intelligence)).
  set (cr := fst (checkCompliance (ai w) contractText intelligence)).
  assert (I1 : forall d, _id (apply_risk rr d) = _id d) by (intros; destruct rr; reflexivity).
  assert (I2 : forall d, _id (apply_compliance cr d) = _id d)
    by (intros; destruct cr; reflexivity).
  assert (I3 : forall d, _id (fst (pricing_stage w contractText d)) = _id d).
  { intros d. unfold pricing_stage. destruct (financialTerms d) as [|x l]; [reflexivity|].
    destruct (analyzePricing (ai w) contractText (x :: l)) as [[?|? ?|?] ?]; reflexivity. }
  assert (I4 : forall d, _id (similarity_stage store id contractText d) = _id d).
  { intros d. unfold similarity_stage, apply_similar.
    destruct (findSimilarContracts _ _); reflexivity. }
  cbn [finalize set_lastError set_errorCount set_status set_aiConfidenceScore
       set_aiProcessingTime set_aiAnalysisDate _id].
  rewrite I4, I3, I2, I1. apply (merge_intelligence_rest intelligence c).
Qed.

End Stages.

(** C2.  In a run whose intelligence stage succeeds (every save
    succeeding), each of parties, keyDates, financialTerms and clauses
    becomes the stage's array when that is a non-empty array and keeps
    its prior value otherwise.  If moreover the risk stage fails,
    riskLevel and risks keep their prior values; the run still ends ok
    with status analyzed. *)
Theorem merge_overwrites_only_nonempty (w : World) (s : Store) (id : Z)
        (contract : Contract) (c : ascii) (t : jsstring)
        (intelligence : json) (k1 : list request) :
  findById id s = Some contract ->
  textContent contract = Some (c :: t) ->
  (forall d, save_error w d = None) ->
  extractContractIntelligence (ai w) (c :: t) (title contract)
  = (StageOk intelligence, k1) ->
  exists doc,
    response (analyzeContract w s id)
    = Return {| ok := true; error := None; data := Some doc |}
    /\ findById id (final_store (analyzeContract w s id)) = Some doc
    /\ status doc = analyzed
    /\ parties doc = match field "parties" intelligence with
                     | Some (JArr (x :: l)) => x :: l
                     | _ => parties contract
                     end
    /\ keyDates doc = match field "keyDates" intelligence with
                      | Some (JArr (x :: l)) => map (castKeyDate w) (x :: l)
                      | _ => keyDates contract
                      end
    /\ financialTerms doc = match field "financialTerms" intelligence with
                            | Some (JArr (x :: l)) => x :: l
                            | _ => financialTerms contract
                            end
    /\ clauses doc = match field "clauses" intelligence with
                     | Some (JArr (x :: l)) => x :: l
                     | _ => clauses contract
                     end
    /\ (ok_of (fst (assessRisks (ai w) (c :: t) intelligence)) = false ->
        riskLevel doc = riskLevel contract /\ risks doc = risks contract).
Proof.
  intros F T S I.
  rewrite (analyzeContract_success w s id contract c t intelligence k1 F T S I).
  cbn [response final_store].
  set (started := set_status processing contract).
  set (store1 := put started s).
  set (doc := fst (later_stages w store1 id (c :: t) intelligence started)).
  exists doc. split; [reflexivity|].
  destruct (findById_some _ _ _ F) as [Hid _].
  split.
  { replace id with (_id doc); [apply findById_put_same|].
    subst doc. rewrite later_stages_id. exact Hid. }
  destruct (later_stages_fields w store1 id (c :: t) intelligence started)
    as ((P & K & Ft & Cl) & R & _ & St & _).
  destruct (merge_intelligence_fields w intelligence started) as (P' & K' & Ft' & Cl').
  fold doc in P, K, Ft, Cl, R, St.
  split; [exact St|].
  split.
  { rewrite P, P'. unfold nonempty_array.
    destruct (field "parties" intelligence) as [[| | | |[|x l]|]|]; reflexivity. }
  split.
  { rewrite K, K'. unfold nonempty_array.
    destruct (field "keyDates" intelligence) as [[| | | |[|x l]|]|]; reflexivity. }
  split.
  { rewrite Ft, Ft'. unfold nonempty_array.
    destruct (field "financialTerms" intelligence) as [[| | | |[|x l]|]|]; reflexivity. }
  split.
  { rewrite Cl, Cl'. unfold nonempty_array.
    destruct (field "clauses" intelligence) as [[| | | |[|x l]|]|]; reflexivity. }
  intros Hr. apply R in Hr. exact Hr.
Qed.

Lemma merge_overwrites_only_nonempty_witness :
  exists doc,
    response (analyzeContract degraded [analysed_before] 1)
    = Return {| ok := true; error := None; data := Some doc |}
    /\ status doc = analyzed
    /\ parties doc = [JObj [(lit "name", JStr (lit "Acme"));
                            (lit "role", JStr (lit "provider"))]]
    /\ keyDates doc = keyDates analysed_before
    /\ riskLevel doc = Some (JStr (lit "low")).
Proof.
  destruct (merge_overwrites_only_nonempty degraded [analysed_before] 1 analysed_before
              "T"%char (lit "his agreement is made between A and B.")
              (JObj [(lit "parties",
                      JArr [JObj [(lit "name", JStr (lit "Acme"));
                                  (lit "role", JStr (lit "provider"))]]);
                     (lit "keyDates", JArr []);
                     (lit "confidence", JNum (9 # 10))])
              [IntelligencePrompt (lit "This agreement is made between A and B.")
                                  (lit "nda.txt")]
              eq_refl eq_refl (fun _ => eq_refl) eq_refl)
    as (doc & R & _ & St & P & K & _ & _ & Rk).
  exists doc. split; [exact R|]. split; [exact St|]. split; [exact P|].
  split; [exact K|]. exact (proj1 (Rk eq_refl)).
Defined.

(** ** Every way a run can end *)

Section RunCases.

Variable w : World.

Lemma analyzeContract_not_found (s : Store) (id : Z) :
  findById id s = None -> final_store (analyzeContract w s id) = s.
Proof. unfold analyzeContract. intros ->. reflexivity. Qed.

(** The document found under [id] after the run, and how it relates to
    the one found before and to the response. *)
Lemma analyzeContract_cases (s : Store) (id : Z) (contract : Contract) :
  findById id s = Some contract ->
  let r := analyzeContract w s id in
  let started := set_status processing contract in
  exists doc,
    findById id (final_store r) = Some doc
    /\ (forall id', id' <> id -> findById id' (final_store r) = findById id' s)
    /\ (forall d, In d (final_store r) -> In d s \/ d = doc \/ d = started)
    /\ ((doc = contract
         /\ ((exists e, response r
                        = Return {| ok := false; error := Some e; data := None |})
             \/ exists m, response r = Throw (External m)))
        \/ (doc = started /\ exists m, response r = Throw (External m))
        \/ (exists base m,
               (base = contract \/ base = started)
               /\ doc = failure_of base m
               /\ response r = Return {| ok := false; error := m; data := Some doc |})
        \/ (exists contractText intelligence,
               doc = fst (later_stages w (put started s) id contractText
                                       intelligence started)
               /\ response r
                  = Return {| ok := true; error := None; data := Some doc |})).
Proof.
  intros F r started. subst r.
  destruct (findById_some _ _ _ F) as [Hid Hin].
  assert (Fs : findById id (put started s) = Some started).
  { rewrite <- Hid. apply (findById_put_same started). }
  assert (Other1 : forall x id', _id x = id -> id' <> id ->
                                 findById id' (put x s) = findById id' s).
  { intros x id' Hx N. apply findById_put_other. congruence. }
  assert (Other2 : forall x y id', _id x = id -> _id y = id -> id' <> id ->
                                   findById id' (put x (put y s)) = findById id' s).
  { intros x y id' Hx Hy N. rewrite findById_put_other by congruence.
    apply findById_put_other. congruence. }
  assert (In1 : forall x d, In d (put x s) -> In d s \/ d = x \/ d = started).
  { intros x d H. apply put_In in H. tauto. }
  assert (In2 : forall x d, In d (put x (put started s)) ->
                            In d s \/ d = x \/ d = started).
  { intros x d H. apply put_In in H as [H|H]; [tauto|].
    apply put_In in H. tauto. }
  unfold analyzeContract. rewrite F.
  destruct (textContent contract) as [[|c t]|] eqn:T.
  { exists contract. cbn. repeat split; auto. left. split; eauto. }
  2:{ exists contract. cbn. repeat split; auto. left. split; eauto. }
  fold started.
  destruct (save_error w started) as [m|] eqn:S1.
  { unfold on_error. rewrite F. unfold _handleAnalysisError. fold (failure_of contract (Some m)).
    destruct (save_error w (failure_of contract (Some m))) eqn:S2; cbn.
    - exists contract. repeat split; auto. left. split; eauto.
    - exists (failure_of contract (Some m)).
      split; [rewrite <- Hid; apply (findById_put_same (failure_of contract (Some m)))|].
      split; [intros; apply Other1; auto|].
      split; [apply In1|].
      right; right; left. exists contract, (Some m). auto. }
  change (title started) with (title contract).
  destruct (extractContractIntelligence (ai w) (c :: t) (title contract))
    as [[intelligence|e fb|fb] k1] eqn:I.
  - destruct (later_stages w (put started s) id (c :: t) intelligence started)
      as [d k] eqn:L.
    assert (D : d = fst (later_stages w (put started s) id (c :: t) intelligence started))
      by (rewrite L; reflexivity).
    assert (Did : _id d = id) by (rewrite D, later_stages_id; exact Hid).
    destruct (save_error w d) as [m|] eqn:S2.
    + unfold on_error. rewrite Fs. unfold _handleAnalysisError.
      fold (failure_of started (Some m)).
      destruct (save_error w (failure_of started (Some m))) eqn:S3; cbn.
      * exists started. split; [exact Fs|].
        split; [intros; apply Other1; auto|].
        split; [intros x Hx; apply In1 in Hx; tauto|].
        right; left. split; eauto.
      * exists (failure_of started (Some m)).
        split; [rewrite <- Hid; apply (findById_put_same (failure_of started (Some m)))|].
        split; [intros; apply Other2; auto|].
        split; [apply In2|].
        right; right; left. exists started, (Some m). auto.
    + cbn. exists d.
      split; [rewrite <- Did; apply findById_put_same|].
      split; [intros; apply Other2; auto|].
      split; [apply In2|].
      right; right; right. exists (c :: t), intelligence. rewrite <- D. auto.
  - unfold _handleAnalysisError. cbn [error_of]. fold (failure_of started (Some e)).
    destruct (save_error w (failure_of started (Some e))) eqn:S3; cbn.
    + exists started. split; [exact Fs|].
      split; [intros; apply Other1; auto|].
      split; [intros x Hx; apply In1 in Hx; tauto|].
      right; left. split; eauto.
    + exists (failure_of started (Some e)).
      split; [rewrite <- Hid; apply (findById_put_same (failure_of started (Some e)))|].
      split; [intros; apply Other2; auto|].
      split; [apply In2|].
      right; right; left. exists started, (Some e). auto.
  - unfold _handleAnalysisError. cbn [error_of]. fold (failure_of started None).
    destruct (save_error w (failure_of started None)) eqn:S3; cbn.
    + exists started. split; [exact Fs|].
      split; [intros; apply Other1; auto|].
      split; [intros x Hx; apply In1 in Hx; tauto|].
      right; left. split; eauto.
    + exists (failure_of started None).
      split; [rewrite <- Hid; apply (findById_put_same (failure_of started None))|].
      split; [intros; apply Other2; auto|].
      split; [apply In2|].
      right; right; left. exists started, None. auto.
Qed.

End RunCases.

(** ** The confidence aggregate *)

Section Confidence.

Lemma positive_spec (c : Q) : negb (Qle_bool c 0) = positive c.
Proof.
  unfold positive, Qle_bool, Qcompare, Z.leb.
  destruct (_ ?= _)%Z; reflexivity.
Qed.

Lemma positive_lt (c : Q) : positive c = true <-> (0 < c)%Q.
Proof.
  unfold positive. rewrite Qgt_alt. destruct (c ?= 0)%Q; split; congruence.
Qed.

Lemma fold_left_Qplus (l : list Q) (a : Q) :
  (fold_left Qplus l a == a + fold_right Qplus 0 l)%Q.
Proof.
  revert a. induction l as [|x r IH]; intros a; simpl.
  - ring.
  - rewrite IH. ring.
Qed.

Lemma sum_Q_fold_right (l : list Q) : (sum_Q l == fold_right Qplus 0 l)%Q.
Proof. unfold sum_Q. rewrite fold_left_Qplus. ring. Qed.

Lemma greater_than_zero_number (c : Q) :
  Coercion.greater_than_zero (JNum c) = positive c.
Proof. apply positive_spec. Qed.

Lemma positive_zero (q : Q) : Qeq_bool q 0 = true -> positive q = false.
Proof.
  intros Z. apply Qeq_bool_iff in Z. unfold positive.
  rewrite (proj1 (Qeq_alt q 0) Z). reflexivity.
Qed.

(** The entry of a stage whose confidence is a number, or missing. *)
Lemma confidence_or_zero_number (r : stage_result) (x : Q) :
  stage_confidence r = Some x ->
  filter Coercion.greater_than_zero [confidence_or_zero r]
  = map JNum (filter positive [x]).
Proof.
  unfold stage_confidence, confidence_or_zero.
  destruct r as [d|e fb|fb]; try (intros [= <-]; reflexivity).
  destruct (field "confidence" d) as [[|b|q|str|l|p]|]; cbn [truthy].
  - intros [= <-]. reflexivity.
  - destruct b; [discriminate|]. intros [= <-]. reflexivity.
  - intros [= <-]. destruct (Qeq_bool q 0) eqn:Z; cbn [negb filter].
    + rewrite (positive_zero q Z). reflexivity.
    + rewrite greater_than_zero_number. destruct (positive q); reflexivity.
  - destruct str; [|discriminate]. intros [= <-]. reflexivity.
  - discriminate.
  - discriminate.
  - intros [= <-]. reflexivity.
Qed.

Lemma intelligence_entry (intelligence : json) :
  filter Coercion.greater_than_zero
         [match or_zero (field "confidence" intelligence) with
          | JNum q => JNum q
          | _ => JNum 0
          end]
  = map JNum (filter positive [intelligence_confidence intelligence]).
Proof.
  unfold or_zero, intelligence_confidence.
  destruct (field "confidence" intelligence) as [[|b|q|str|l|p]|]; cbn [truthy];
    try reflexivity.
  - destruct b; reflexivity.
  - destruct (Qeq_bool q 0) eqn:Z; cbn [negb filter].
    + rewrite (positive_zero q Z). reflexivity.
    + rewrite greater_than_zero_number. destruct (positive q); reflexivity.
  - destruct str; reflexivity.
Qed.

Lemma fold_add_numbers (l : list Q) (a : Q) :
  fold_left Coercion.add (map JNum l) (Coercion.PNumber a)
  = Coercion.PNumber (fold_left Qplus l a).
Proof.
  revert a. induction l as [|x r IH]; intros a; [reflexivity|].
  cbn [map fold_left Coercion.add]. apply IH.
Qed.

(** Over numbers the aggregate is the mean of the positive entries. *)
Lemma calculateOverallConfidence_mean (intelligence : json) (rr cr : stage_result)
      (x y : Q) :
  stage_confidence rr = Some x ->
  stage_confidence cr = Some y ->
  exists q,
    _calculateOverallConfidence (or_zero (field "confidence" intelligence)) rr cr
    = Coercion.Finite q
    /\ (q == mean_of_positive [intelligence_confidence intelligence; x; y])%Q.
Proof.
  intros Hx Hy. unfold _calculateOverallConfidence.
  set (e1 := match or_zero (field "confidence" intelligence) with
             | JNum q => JNum q
             | _ => JNum 0
             end).
  assert (E : filter Coercion.greater_than_zero
                     [e1; confidence_or_zero rr; confidence_or_zero cr]
              = map JNum (filter positive [intelligence_confidence intelligence; x; y])).
  { change [e1; confidence_or_zero rr; confidence_or_zero cr]
      with ([e1] ++ [confidence_or_zero rr] ++ [confidence_or_zero cr]).
    change [intelligence_confidence intelligence; x; y]
      with ([intelligence_confidence intelligence] ++ [x] ++ [y]).
    rewrite !filter_app, !map_app.
    subst e1. rewrite intelligence_entry.
    rewrite (confidence_or_zero_number rr x Hx), (confidence_or_zero_number cr y Hy).
    reflexivity. }
  rewrite E. unfold mean_of_positive.
  destruct (filter positive [intelligence_confidence intelligence; x; y]) as [|p ps].
  - exists 0%Q. split; reflexivity.
  - cbn [map]. change (JNum p :: map JNum ps) with (map JNum (p :: ps)).
    rewrite fold_add_numbers, length_map. cbn [Coercion.divide].
    eexists. split; [reflexivity|]. rewrite Qred_correct.
    change (fold_left Qplus (p :: ps) 0%Q) with (sum_Q (p :: ps)).
    rewrite sum_Q_fold_right. reflexivity.
Qed.

Lemma mean_of_positive_none (l : list Q) :
  (forall x, In x l -> (x <= 0)%Q) -> mean_of_positive l = 0%Q.
Proof.
  intros H. unfold mean_of_positive. rewrite filter_none; [reflexivity|].
  intros x Hx. destruct (positive x) eqn:P; [|reflexivity].
  apply positive_lt in P. apply H in Hx. exfalso. eapply Qlt_not_le; eassumption.
Qed.

End Confidence.

(** C3.  After a run that ends ok in which the risk and the compliance
    confidence are numbers (a failed stage and a missing or falsy value
    counting as 0), aiConfidenceScore is the arithmetic mean of the
    strictly positive values among the intelligence, risk and compliance
    confidences (the pricing stage has no part in it); it is 0 when none
    is positive; for 0.9, 0 and 0.6 it is 0.75, and so it is when the
    risk confidence is a word instead of 0.  Only the intelligence
    confidence is checked to be a number: when the risk reply carries
    its confidence as the string 1, beside an intelligence confidence of
    0.9 and a failed compliance stage, the run ends ok with
    aiConfidenceScore 0.455, the number read from the text 0.91 halved,
    which is the mean neither of 0.9 and 1 nor of 0.9 alone. *)
Theorem aiConfidenceScore_mean_of_positive :
  (forall w s id contract c t intelligence k1 x y,
      findById id s = Some contract ->
      textContent contract = Some (c :: t) ->
      (forall d, save_error w d = None) ->
      extractContractIntelligence (ai w) (c :: t) (title contract)
      = (StageOk intelligence, k1) ->
      stage_confidence (fst (assessRisks (ai w) (c :: t) intelligence)) = Some x ->
      stage_confidence (fst (checkCompliance (ai w) (c :: t) intelligence)) = Some y ->
      exists doc q,
        response (analyzeContract w s id)
        = Return {| ok := true; error := None; data := Some doc |}
        /\ aiConfidenceScore doc = Some (Coercion.Finite q)
        /\ (q == mean_of_positive [intelligence_confidence intelligence; x; y])%Q)
  /\ (forall l, (forall x, In x l -> (x <= 0)%Q) -> mean_of_positive l = 0%Q)
  /\ (mean_of_positive [9 # 10; 0; 6 # 10] == 3 # 4)%Q
  /\ (forall e fb,
        _calculateOverallConfidence
          (JNum (9 # 10)) (StageFailed e fb)
          (StageOk (JObj [(lit "confidence", JNum (6 # 10))]))
        = Coercion.Finite (3 # 4))
  /\ _calculateOverallConfidence
       (JNum (9 # 10)) (StageOk (JObj [(lit "confidence", JStr (lit "high"))]))
       (StageOk (JObj [(lit "confidence", JNum (6 # 10))]))
     = Coercion.Finite (3 # 4)
  /\ (exists doc,
        response (analyzeContract string_confidence uploaded 1)
        = Return {| ok := true; error := None; data := Some doc |}
        /\ findById 1 (final_store (analyzeContract string_confidence uploaded 1))
           = Some doc
        /\ status doc = analyzed
        /\ aiConfidenceScore doc = Some (Coercion.Finite (91 # 200))
        /\ Coercion.StringToNumber (lit "0.91") = Coercion.Finite (91 # 100)
        /\ ~ (91 # 200 == mean_of_positive [9 # 10; 1; 0])%Q
        /\ ~ (91 # 200 == mean_of_positive [9 # 10; 0; 0])%Q).
Proof.
  split; [|split; [exact mean_of_positive_none|split; [reflexivity|]]].
  - intros w s id contract c t intelligence k1 x y F T S I Hx Hy.
    rewrite (analyzeContract_success w s id contract c t intelligence k1 F T S I).
    cbn [response].
    eexists.
    destruct (calculateOverallConfidence_mean intelligence _ _ x y Hx Hy) as (q & Hq & E).
    exists q. split; [reflexivity|]. split; [|exact E].
    destruct (later_stages_fields w (put (set_status processing contract) s) id
                (c :: t) intelligence (set_status processing contract))
      as (_ & _ & _ & _ & _ & _ & _ & Co).
    rewrite Co, Hq. reflexivity.
  - split; [intros e fb; vm_compute; reflexivity|].
    split; [vm_compute; reflexivity|].
    eexists. split; [vm_compute; reflexivity|].
    split; [vm_compute; reflexivity|].
    split; [reflexivity|].
    split; [vm_compute; reflexivity|].
    split; [vm_compute; reflexivity|].
    split; intros H; vm_compute in H; discriminate H.
Qed.

Lemma aiConfidenceScore_mean_of_positive_witness :
  exists doc q,
    response (analyzeContract degraded uploaded 1)
    = Return {| ok := true; error := None; data := Some doc |}
    /\ aiConfidenceScore doc = Some (Coercion.Finite q)
    /\ (q == mean_of_positive [9 # 10; 0; 3 # 5])%Q
    /\ (q == 3 # 4)%Q.
Proof.
  destruct (proj1 aiConfidenceScore_mean_of_positive degraded uploaded 1%Z
              (new_contract 1 upload None (lit "This agreement is made between A and B."))
              "T"%char (lit "his agreement is made between A and B.")
              (JObj [(lit "parties",
                      JArr [JObj [(lit "name", JStr (lit "Acme"));
                                  (lit "role", JStr (lit "provider"))]]);
                     (lit "keyDates", JArr []);
                     (lit "confidence", JNum (9 # 10))])
              [IntelligencePrompt (lit "This agreement is made between A and B.")
                                  (lit "nda.txt")]
              0%Q (3 # 5)%Q
              eq_refl eq_refl (fun _ => eq_refl) eq_refl eq_refl eq_refl)
    as (doc & q & R & A & E).
  exists doc, q. split; [exact R|]. split; [exact A|]. split; [exact E|].
  rewrite E. reflexivity.
Defined.

(** ** The error counter *)

Section ErrorCount.

Lemma counter_sound_failure (base : Contract) (m : option jsstring) :
  (0 <= errorCount base)%Z -> counter_sound (failure_of base m).
Proof. unfold counter_sound. cbn. intros H. split; [lia|intros _; lia]. Qed.

Lemma reachable_counter_sound (s : Store) :
  reachable s -> forall c, In c s -> counter_sound c.
Proof.
  induction 1 as [|s s' R IH St]; [contradiction|].
  destruct St as [w s id fileData title extracted Fresh|w s id|s id].
  - intros c. unfold createContract. cbv zeta.
    destruct extracted as [content|e]; [|apply IH].
    destruct (trim content); [apply IH|].
    destruct (save_error w _); [apply IH|]. cbn [fst].
    intros H. apply put_In in H. destruct H as [E|H]; [|apply IH, H].
    subst c. split; cbn; [lia|discriminate].
  - intros c Hc. destruct (findById id s) as [contract|] eqn:F.
    + destruct (analyzeContract_cases w s id contract F)
        as (doc & _ & _ & Hin & Cases).
      destruct (findById_some _ _ _ F) as [_ Inc].
      pose proof (IH contract Inc) as [Pos Fl].
      assert (Started : counter_sound (set_status processing contract)).
      { split; [exact Pos|discriminate]. }
      apply Hin in Hc. destruct Hc as [Hc|[E|E]];
        [apply IH, Hc|rewrite E; clear E|rewrite E; exact Started].
      destruct Cases as [[E _]|[[E _]|[(base & m & B & E & _)|(tx & i & E & _)]]];
        rewrite E; clear E.
      * split; assumption.
      * exact Started.
      * apply counter_sound_failure. destruct B as [E|E]; rewrite E; exact Pos.
      * destruct (later_stages_fields w (put (set_status processing contract) s) id tx i
                    (set_status processing contract))
          as (_ & _ & _ & Hs & He & _).
        split; [rewrite He; lia|rewrite Hs; discriminate].
    + rewrite analyzeContract_not_found in Hc by exact F. apply IH, Hc.
  - intros c. unfold deleteContract.
    destruct (findById id s); cbn [fst]; [|apply IH].
    intros H. apply filter_In in H as [H _]. apply IH, H.
Qed.

End ErrorCount.

Lemma reachable_failed_once : reachable failed_once.
Proof.
  eapply reach_step; [eapply reach_step; [apply reach_empty|]|].
  - apply (step_create offline [] 1 upload None
                       (Return (lit "This agreement is made between A and B."))).
    reflexivity.
  - apply (step_analyze offline).
Qed.

(** A run whose intelligence stage reports a failure with a message. *)
Lemma analyzeContract_stage_failed (w : World) (s : Store) (id : Z)
      (contract : Contract) (c : ascii) (t : jsstring)
      (e : jsstring) (fb : json) (k1 : list request) :
  findById id s = Some contract ->
  textContent contract = Some (c :: t) ->
  (forall d, save_error w d = None) ->
  extractContractIntelligence (ai w) (c :: t) (title contract)
  = (StageFailed e fb, k1) ->
  let doc := failure_of (set_status processing contract) (Some e) in
  analyzeContract w s id
  = {| final_store := put doc (put (set_status processing contract) s);
       response := Return {| ok := false; error := Some e; data := Some doc |};
       calls := k1;
       alert := None |}.
Proof.
  intros F T S I doc. unfold analyzeContract. rewrite F, T, S.
  cbn [title set_status]. rewrite I.
  unfold _handleAnalysisError. cbn [error_of]. rewrite S. reflexivity.
Qed.

(** C7, as amended.  A run that ends ok leaves errorCount at 0; a run
    that records a failure adds exactly one to it; any other outcome of
    a run leaves it as it was; a run touches no other document.  A new
    document starts at 0 and a deletion changes no counter.  Over the
    reachable collections the counter is never negative. *)
Theorem errorCount_effects :
  (forall w s id contract,
      findById id s = Some contract ->
      let r := analyzeContract w s id in
      exists doc,
        findById id (final_store r) = Some doc
        /\ (forall id', id' <> id -> findById id' (final_store r) = findById id' s)
        /\ match response r with
           | Return resp =>
               if ok resp then errorCount doc = 0%Z
               else match data resp with
                    | Some _ => errorCount doc = (errorCount contract + 1)%Z
                    | None => errorCount doc = errorCount contract
                    end
           | Throw _ => errorCount doc = errorCount contract
           end)
  /\ (forall w s id, findById id s = None -> final_store (analyzeContract w s id) = s)
  /\ (forall w s id fileData title extracted d,
        In d (fst (createContract w s id fileData title extracted)) ->
        In d s \/ errorCount d = 0%Z)
  /\ (forall s id d, In d (fst (deleteContract s id)) -> In d s)
  /\ (forall s c, reachable s -> In c s -> (0 <= errorCount c)%Z).
Proof.
  split; [|split; [|split; [|split]]].
  - intros w s id contract F r.
    destruct (analyzeContract_cases w s id contract F) as (doc & Fd & Oth & _ & Cases).
    exists doc. split; [exact Fd|]. split; [exact Oth|]. fold r in Cases.
    destruct Cases as [[E [[e R]|[m R]]]|[[E [m R]]
                      |[(base & m & B & E & R)|(tx & i & E & R)]]];
      rewrite R, E; cbn [ok data]; try reflexivity.
    + destruct B as [B|B]; rewrite B; reflexivity.
    + apply (later_stages_fields w (put (set_status processing contract) s) id tx i
               (set_status processing contract)).
  - intros w s id. apply analyzeContract_not_found.
  - intros w s id fileData title extracted d. unfold createContract. cbv zeta.
    destruct extracted as [content|e]; [|auto].
    destruct (trim content); [auto|].
    destruct (save_error w _); [auto|]. cbn [fst].
    intros H. apply put_In in H. destruct H as [E|H]; [|auto].
    subst d. right. reflexivity.
  - intros s id d. unfold deleteContract.
    destruct (findById id s); cbn [fst]; [|auto].
    intros H. apply filter_In in H. tauto.
  - intros s c R I. apply (reachable_counter_sound s R c I).
Qed.

Lemma errorCount_effects_witness :
  reachable failed_once
  /\ option_map errorCount (findById 1 failed_once) = Some 1%Z
  /\ forall c, In c failed_once -> (0 <= errorCount c)%Z.
Proof.
  split; [exact reachable_failed_once|]. split; [reflexivity|].
  intros c I.
  exact (proj2 (proj2 (proj2 (proj2 errorCount_effects))) failed_once c
               reachable_failed_once I).
Defined.

(** C7 as written fails: a document whose counter is 1 after a failed
    attempt has it back at 0 after a run that ends ok. *)
Lemma errorCount_reset_counterexample :
  reachable failed_once
  /\ option_map errorCount (findById 1 failed_once) = Some 1%Z
  /\ ended_ok (analyzeContract degraded failed_once 1) = true
  /\ option_map errorCount
       (findById 1 (final_store (analyzeContract degraded failed_once 1)))
     = Some 0%Z.
Proof.
  split; [exact reachable_failed_once|].
  split; [reflexivity|]. split; vm_compute; reflexivity.
Qed.

(** ** The bounds of the scores *)

(** C8.  No range check is applied to either score.  After a run that
    ends ok, complianceScore is the schema's cast of the value the
    compliance stage's output carries when that stage is ok (the
    previous value otherwise), and aiConfidenceScore is the aggregate of
    the stage confidences, whatever their size.  So a run whose replies
    carry the compliance score 150 and the confidences 1.8, 1.2 and 1.5
    ends ok and stores the compliance score 150, beyond the 0-100 the
    schema documents, and the confidence 1.5, beyond its 0-1; a
    compliance score given as the string 85 is stored as the number 85;
    and the confidences 1, given as a string, and 0.5, each within the
    bounds, give the aggregate 5.25. *)
Theorem scores_follow_stage_outputs :
  (forall w s id contract c t intelligence k1,
      findById id s = Some contract ->
      textContent contract = Some (c :: t) ->
      (forall d, save_error w d = None) ->
      extractContractIntelligence (ai w) (c :: t) (title contract)
      = (StageOk intelligence, k1) ->
      let riskResult := fst (assessRisks (ai w) (c :: t) intelligence) in
      let complianceResult := fst (checkCompliance (ai w) (c :: t) intelligence) in
      exists doc,
        response (analyzeContract w s id)
        = Return {| ok := true; error := None; data := Some doc |}
        /\ findById id (final_store (analyzeContract w s id)) = Some doc
        /\ complianceScore doc
           = match complianceResult with
             | StageOk d => option_map castNumber (field "complianceScore" d)
             | _ => complianceScore contract
             end
        /\ aiConfidenceScore doc
           = Some (_calculateOverallConfidence
                     (or_zero (field "confidence" intelligence))
                     riskResult complianceResult))
  /\ (exists doc,
        response (analyzeContract out_of_range uploaded 1)
        = Return {| ok := true; error := None; data := Some doc |}
        /\ findById 1 (final_store (analyzeContract out_of_range uploaded 1)) = Some doc
        /\ status doc = analyzed
        /\ complianceScore doc = Some (JNum 150)
        /\ ~ score_in_range (complianceScore doc)
        /\ aiConfidenceScore doc = Some (Coercion.Finite (3 # 2))
        /\ (1 < 3 # 2)%Q)
  /\ (forall c,
        complianceScore
          (apply_compliance
             (StageOk (JObj [(lit "complianceScore", JStr (lit "85"))])) c)
        = Some (JNum 85))
  /\ _calculateOverallConfidence
       (JNum 0) (StageOk (JObj [(lit "confidence", JStr (lit "1"))]))
       (StageOk (JObj [(lit "confidence", JNum (1 # 2))]))
     = Coercion.Finite (21 # 4).
Proof.
  split; [|split; [|split]].
  - intros w s id contract c t intelligence k1 F T S I rr cr.
    rewrite (analyzeContract_success w s id contract c t intelligence k1 F T S I).
    cbn [response final_store]. eexists. split; [reflexivity|].
    destruct (later_stages_fields w (put (set_status processing contract) s) id
                (c :: t) intelligence (set_status processing contract))
      as (_ & _ & Cs & _ & _ & _ & _ & Co).
    fold rr cr in Cs, Co.
    change (complianceScore (set_status processing contract))
      with (complianceScore contract) in Cs.
    split; [|split; [exact Cs|exact Co]].
    destruct (findById_some _ _ _ F) as [Hid _].
    set (doc := fst (later_stages w (put (set_status processing contract) s) id
                                  (c :: t) intelligence (set_status processing contract))).
    replace id with (_id doc); [apply findById_put_same|].
    subst doc. rewrite later_stages_id. exact Hid.
  - eexists. split; [vm_compute; reflexivity|].
    split; [vm_compute; reflexivity|].
    split; [reflexivity|]. split; [reflexivity|].
    split; [|split; reflexivity].
    intros H. destruct (H 150%Q eq_refl) as [_ U].
    apply Qle_bool_iff in U. discriminate U.
  - intros c. reflexivity.
  - vm_compute. reflexivity.
Qed.

Lemma scores_follow_stage_outputs_witness :
  exists doc,
    response (analyzeContract degraded uploaded 1)
    = Return {| ok := true; error := None; data := Some doc |}
    /\ complianceScore doc = Some (JNum 80).
Proof.
  destruct (proj1 scores_follow_stage_outputs degraded uploaded 1%Z
              (new_contract 1 upload None (lit "This agreement is made between A and B."))
              "T"%char (lit "his agreement is made between A and B.")
              (JObj [(lit "parties",
                      JArr [JObj [(lit "name", JStr (lit "Acme"));
                                  (lit "role", JStr (lit "provider"))]]);
                     (lit "keyDates", JArr []);
                     (lit "confidence", JNum (9 # 10))])
              [IntelligencePrompt (lit "This agreement is made between A and B.")
                                  (lit "nda.txt")]
              eq_refl eq_refl (fun _ => eq_refl) eq_refl)
    as (doc & R & _ & Cs & _).
  exists doc. split; [exact R|exact Cs].
Defined.

(** ** The figures of the specification in binary64 *)

(** The scorer and the aggregate are modelled on rationals.  The
    comparisons below are the source's own, on doubles: they agree with
    the model on every similarity the scorer can produce (at most 20
    keywords) and on the worked example of the aggregate. *)

Example threshold_binary64_agrees :
  forallb (fun total =>
             forallb (fun matches =>
                        Bool.eqb (above_threshold_binary64 matches total)
                                 (above_threshold_model matches total))
                     (seq 0 (S total)))
          (seq 0 21) = true.
Proof. vm_compute. reflexivity. Qed.

Example threshold_binary64_six_and_seven :
  above_threshold_binary64 6 20 = false /\ above_threshold_binary64 7 20 = true.
Proof. split; vm_compute; reflexivity. Qed.

Example aggregate_binary64 :
  PrimFloat.eqb
    (PrimFloat.div (PrimFloat.add (PrimFloat.add 0%float 0.9%float) 0.6%float) 2%float)
    0.75%float = true.
Proof. vm_compute. reflexivity. Qed.

(** The aggregates of the three runs that leave the mean or its range:
    the number read from the text 0.91 halved, the one read from 010.5
    halved, and the mean of 1.8, 1.2 and 1.5. *)
Example coerced_aggregates_binary64 :
  PrimFloat.eqb (PrimFloat.div 0.91%float 2%float) 0.455%float = true
  /\ PrimFloat.eqb (PrimFloat.div 10.5%float 2%float) 5.25%float = true
  /\ PrimFloat.eqb
       (PrimFloat.div
          (PrimFloat.add (PrimFloat.add (PrimFloat.add 0%float 1.8%float) 1.2%float)
                         1.5%float)
          3%float)
       1.5%float = true.
Proof. repeat split; vm_compute; reflexivity. Qed.

(* ================================================================== *)
(** * Further properties *)
(* ================================================================== *)

(** ** The tolerant parser: what it returns and what it ignores *)

Section ParserShape.

Lemma str_eqb_eq (a b : jsstring) : str_eqb a b = true <-> a = b.
Proof.
  revert b. induction a as [|x a IH]; intros [|y b]; simpl; split;
    try discriminate; try reflexivity.
  - intros H. apply andb_prop in H as [H1 H2].
    apply Ascii.eqb_eq in H1. apply IH in H2. congruence.
  - intros H. inversion H; subst. rewrite Ascii.eqb_refl. simpl. apply IH. reflexivity.
Qed.

Lemma str_eqb_refl (a : jsstring) : str_eqb a a = true.
Proof. apply str_eqb_eq. reflexivity. Qed.

Lemma str_eqb_neq (a b : jsstring) : str_eqb a b = false <-> a <> b.
Proof.
  destruct (str_eqb a b) eqn:E.
  - apply str_eqb_eq in E. split; [discriminate|congruence].
  - split; [|reflexivity]. intros _ H. apply str_eqb_eq in H. congruence.
Qed.

Lemma parse_members_object (f : nat) (s : jsstring) (acc : list (jsstring * json))
      (v : json) (rest : jsstring) :
  parse_members f s acc = POk v rest -> exists props, v = JObj props.
Proof.
  revert s acc. induction f as [|f IH]; intros s acc; simpl; [discriminate|].
  destruct (skip_ws s) as [|q r]; [discriminate|].
  destruct (Ascii.eqb q dquote); [|discriminate].
  destruct (parse_string_body r []) as [k r1| |]; try discriminate.
  destruct (skip_ws r1) as [|col r2]; [discriminate|].
  destruct (Ascii.eqb col ":"); [|discriminate].
  destruct (parse_value f r2) as [v0 r3| |]; try discriminate.
  destruct (skip_ws r3) as [|c r4]; [discriminate|].
  destruct (Ascii.eqb c ","); [apply IH|].
  destruct (Ascii.eqb c "}"); [|discriminate].
  intros H. inversion H. eauto.
Qed.

(** A text that starts with an opening brace parses to an object. *)
Lemma JSON_parse_object (r : jsstring) (v : json) :
  JSON_parse ("{"%char :: r) = Parsed v -> exists props, v = JObj props.
Proof.
  unfold JSON_parse, budget. cbn [List.length Nat.mul Nat.add parse_value].
  change (skip_ws ("{"%char :: r)) with ("{"%char :: r).
  cbv iota. rewrite Ascii.eqb_refl.
  destruct (skip_ws r) as [|c' r']; [discriminate|].
  destruct (Ascii.eqb c' "}").
  - destruct (skip_ws r'); [|discriminate]. intros H. inversion H. eauto.
  - destruct (parse_members _ r []) as [v0 rest| |] eqn:M; try discriminate.
    destruct (skip_ws rest); [|discriminate].
    intros H. inversion H; subst. eapply parse_members_object, M.
Qed.

Lemma dropWhile_head (p : ascii -> bool) (s r : jsstring) (c : ascii) :
  dropWhile p s = c :: r -> p c = false.
Proof.
  induction s as [|x s IH]; simpl; [discriminate|].
  destruct (p x) eqn:E; [exact IH|]. intros H. inversion H; subst. exact E.
Qed.

Lemma match_braces_open (s j : jsstring) :
  match_braces s = Some j -> exists r, j = "{"%char :: r.
Proof.
  unfold match_braces.
  destruct (dropWhile (not_char "{") s) as [|open after] eqn:D; [discriminate|].
  apply dropWhile_head in D. unfold not_char in D. apply negb_false_iff in D.
  apply Ascii.eqb_eq in D. subst open.
  destruct (upto_last "}" after); [|discriminate].
  intros H. inversion H. eauto.
Qed.

(** A replacement that leaves an opening brace in front keeps it there. *)
Lemma replace_all_open (m : jsstring -> option (jsstring * nat)) (r : jsstring) :
  (forall out len, m ("{"%char :: r) = Some (out, len) ->
                   exists o, out = "{"%char :: o) ->
  exists r', replace_all m ("{"%char :: r) = "{"%char :: r'.
Proof.
  intros H. unfold replace_all. cbn [replace_scan].
  destruct (m ("{"%char :: r)) as [[out len]|] eqn:E.
  - destruct (H out len eq_refl) as (o & ->). simpl. eauto.
  - eauto.
Qed.

Lemma repairs_keep_open (r : jsstring) :
  exists r',
    replace_all re_description
      (replace_all re_quoted_key (replace_all re_quoted_value ("{"%char :: r)))
    = "{"%char :: r'.
Proof.
  destruct (replace_all_open re_quoted_value r) as (r1 & ->).
  { intros out len H. unfold re_quoted_value in H.
    change (Ascii.eqb "{" ":") with false in H. discriminate H. }
  destruct (replace_all_open re_quoted_key r1) as (r2 & ->).
  { intros out len. unfold re_quoted_key. rewrite Ascii.eqb_refl.
    destruct (dropWhile is_space r1) as [|q r2]; [discriminate|].
    destruct (Ascii.eqb q quote); [|discriminate].
    destruct (dropWhile (not_char quote) r2) as [|x r3]; [discriminate|].
    destruct (dropWhile is_space r3) as [|col r4]; [discriminate|].
    destruct (Ascii.eqb col ":"); [|discriminate].
    intros H. inversion H. eauto. }
  apply replace_all_open. intros out len H. unfold re_description in H.
  cbn [lit list_ascii_of_string app strip_prefix] in H.
  change (Ascii.eqb dquote "{") with false in H. discriminate H.
Qed.

Lemma parseAIResponse_object_shape (text : jsstring) (v : json) :
  _parseAIResponse text = Return v -> exists props, v = JObj props.
Proof.
  unfold _parseAIResponse.
  destruct (match_braces _) as [jsonStr|] eqn:M; [|discriminate].
  destruct (match_braces_open _ _ M) as (r & ->).
  assert (Obj : forall p parsed, JSON_parse ("{"%char :: p) = Parsed parsed ->
                  Return (_validateAndFixParsedData parsed) = Return v ->
                  exists props, v = JObj props).
  { intros p parsed Hp H. destruct (JSON_parse_object p parsed Hp) as (props & ->).
    inversion H. simpl. eauto. }
  destruct (JSON_parse ("{"%char :: r)) as [parsed| |] eqn:P1.
  - apply (Obj r parsed P1).
  - destruct (repairs_keep_open r) as (r' & ->).
    destruct (JSON_parse ("{"%char :: r')) as [parsed| |] eqn:P2; try discriminate.
    apply (Obj r' parsed P2).
  - destruct (repairs_keep_open r) as (r' & ->).
    destruct (JSON_parse ("{"%char :: r')) as [parsed| |] eqn:P2; try discriminate.
    apply (Obj r' parsed P2).
Qed.

End ParserShape.

(** X1.  Whatever the reply, what [_parseAIResponse] returns is a JSON
    object: never an array, a string, a number, a boolean or null. *)
Theorem parseAIResponse_returns_object (text : jsstring) (v : json) :
  _parseAIResponse text = Return v -> exists props, v = JObj props.
Proof. apply parseAIResponse_object_shape. Qed.

Lemma parseAIResponse_returns_object_witness :
  exists props,
    _parseAIResponse (qlit "Result: {~riskLevel~: ~low~, ~risks~: []} (end)")
    = Return (JObj props).
Proof.
  destruct (parseAIResponse_returns_object
              (qlit "Result: {~riskLevel~: ~low~, ~risks~: []} (end)")
              (JObj [(lit "riskLevel", JStr (lit "low")); (lit "risks", JArr [])])
              eq_refl) as (props & E).
  exists props. rewrite <- E. reflexivity.
Defined.

(** ** The tolerant parser: the eight re-parsed fields *)

Section FixedFields.

Lemma lookup_assign_same (k : jsstring) (v : json) (props : list (jsstring * json)) :
  lookup k (assign k v props) = Some v.
Proof.
  induction props as [|[k' v'] r IH]; simpl.
  - rewrite str_eqb_refl. reflexivity.
  - destruct (str_eqb k k') eqn:E; simpl; rewrite E; [reflexivity|exact IH].
Qed.

Lemma lookup_assign_other (k k' : jsstring) (v : json) (props : list (jsstring * json)) :
  k <> k' -> lookup k (assign k' v props) = lookup k props.
Proof.
  intros N. induction props as [|[k0 v0] r IH]; simpl.
  - apply str_eqb_neq in N. rewrite N. reflexivity.
  - destruct (str_eqb k' k0) eqn:E; simpl.
    + apply str_eqb_eq in E. subst k0.
      apply str_eqb_neq in N. rewrite N. reflexivity.
    + destruct (str_eqb k k0); [reflexivity|exact IH].
Qed.

Lemma assign_keys (k : jsstring) (v v0 : json) (props : list (jsstring * json)) :
  lookup k props = Some v0 -> map fst (assign k v props) = map fst props.
Proof.
  induction props as [|[k' v'] r IH]; simpl; [discriminate|].
  destruct (str_eqb k k') eqn:E; simpl; [reflexivity|].
  intros H. rewrite (IH H). reflexivity.
Qed.

(** A value that is not truthy is not changed by [validateAndParse]. *)
Lemma validateAndParse_falsy (v : json) :
  truthy (Some v) = false -> validateAndParse v = v.
Proof.
  destruct v as [|b|q|s|l|p]; try reflexivity.
  destruct s; [reflexivity|discriminate].
Qed.

Lemma fix_field_lookup (props : list (jsstring * json)) (k0 : string) (k : jsstring) :
  lookup k (fix_field props k0)
  = if str_eqb k (lit k0) then option_map validateAndParse (lookup k props)
    else lookup k props.
Proof.
  unfold fix_field. destruct (str_eqb k (lit k0)) eqn:E.
  - apply str_eqb_eq in E. subst k.
    destruct (lookup (lit k0) props) as [v|] eqn:L; [|rewrite L; reflexivity].
    destruct (truthy (Some v)) eqn:T.
    + rewrite lookup_assign_same. reflexivity.
    + rewrite L. simpl. rewrite validateAndParse_falsy by exact T. reflexivity.
  - apply str_eqb_neq in E.
    destruct (lookup (lit k0) props) as [v|]; [|reflexivity].
    destruct (truthy (Some v)); [|reflexivity].
    apply lookup_assign_other, E.
Qed.

Lemma fix_field_keys (props : list (jsstring * json)) (k0 : string) :
  map fst (fix_field props k0) = map fst props.
Proof.
  unfold fix_field. destruct (lookup (lit k0) props) as [v|] eqn:L; [|reflexivity].
  destruct (truthy (Some v)); [|reflexivity].
  eapply assign_keys, L.
Qed.

Lemma fold_fix_field_keys (ks : list string) (props : list (jsstring * json)) :
  map fst (fold_left fix_field ks props) = map fst props.
Proof.
  revert props. induction ks as [|k0 ks IH]; intros props; simpl; [reflexivity|].
  rewrite IH. apply fix_field_keys.
Qed.

Lemma fold_fix_field_lookup (ks : list string) (props : list (jsstring * json))
      (k : jsstring) :
  NoDup (map lit ks) ->
  lookup k (fold_left fix_field ks props)
  = if existsb (str_eqb k) (map lit ks)
    then option_map validateAndParse (lookup k props)
    else lookup k props.
Proof.
  revert props. induction ks as [|k0 ks IH]; intros props ND; simpl; [reflexivity|].
  inversion ND as [|? ? Hnot ND']; subst.
  rewrite (IH _ ND'), fix_field_lookup.
  destruct (str_eqb k (lit k0)) eqn:E; simpl.
  - apply str_eqb_eq in E. subst k.
    replace (existsb (str_eqb (lit k0)) (map lit ks)) with false; [reflexivity|].
    symmetry. destruct (existsb _ _) eqn:X; [|reflexivity].
    apply existsb_exists in X as (x & Hx & Ex). apply str_eqb_eq in Ex. subst x.
    contradiction.
  - reflexivity.
Qed.

Lemma fixed_fields_distinct : NoDup (map lit fixed_fields).
Proof.
  unfold fixed_fields. cbn [map].
  repeat (constructor; [intros H; cbn [In] in H;
                        repeat (destruct H as [H|H]; [discriminate H|]); exact H|]).
  constructor.
Qed.

End FixedFields.

(** X2.  [_validateAndFixParsedData] keeps the properties of the object
    and their order; it passes each of the eight named properties
    through [validateAndParse] and leaves every other property (such as
    confidence, riskLevel or complianceScore) exactly as parsed.  A value
    that is not a string is never changed by [validateAndParse]. *)
Theorem validateAndFix_touches_only_fixed_fields :
  (forall props,
      exists props',
        _validateAndFixParsedData (JObj props) = JObj props'
        /\ map fst props' = map fst props
        /\ forall k,
             lookup k props'
             = if is_fixed_field k then option_map validateAndParse (lookup k props)
               else lookup k props)
  /\ (forall v, (forall s, v <> JStr s) -> validateAndParse v = v).
Proof.
  split.
  - intros props. exists (fold_left fix_field fixed_fields props).
    split; [reflexivity|]. split; [apply fold_fix_field_keys|].
    intros k. apply fold_fix_field_lookup, fixed_fields_distinct.
  - intros v H. destruct v; try reflexivity. exfalso. eapply H. reflexivity.
Qed.

Lemma validateAndFix_touches_only_fixed_fields_witness :
  validateAndParse (JArr [JNum 1]) = JArr [JNum 1]
  /\ _validateAndFixParsedData
       (JObj [(lit "risks", JStr (lit "[{'category': 'legal'}]"));
              (lit "note", JStr (lit "[1]"))])
     = JObj [(lit "risks", JArr [JObj [(lit "category", JStr (lit "legal"))]]);
             (lit "note", JStr (lit "[1]"))].
Proof.
  split.
  - apply (proj2 validateAndFix_touches_only_fixed_fields).
    intros s H. discriminate H.
  - reflexivity.
Defined.

(** ** The tolerant parser: fences and prose around the object *)

Section Surroundings.

Lemma strip_prefix_head (p s r : jsstring) (x : ascii) :
  strip_prefix (x :: p) s = Some r -> exists t, s = x :: t.
Proof.
  simpl. destruct s as [|y s]; [discriminate|].
  destruct (Ascii.eqb_spec x y) as [->|]; [eauto|discriminate].
Qed.

Lemma re_fence_json_head s out len :
  re_fence_json s = Some (out, len) -> exists t, s = backtick :: t.
Proof.
  unfold re_fence_json.
  destruct (strip_prefix (lit "```json") s) eqn:E; [|discriminate].
  intros _. apply (strip_prefix_head _ _ _ _ E).
Qed.

Lemma re_fence_head s out len :
  re_fence s = Some (out, len) -> exists t, s = backtick :: t.
Proof.
  unfold re_fence.
  destruct (strip_prefix (lit "```") s) eqn:E; [|discriminate].
  intros _. apply (strip_prefix_head _ _ _ _ E).
Qed.

(** A pattern that starts with a backtick copies a run without backticks. *)
Lemma replace_scan_copy (m : jsstring -> option (jsstring * nat)) :
  (forall s out len, m s = Some (out, len) -> exists t, s = backtick :: t) ->
  forall a b, ~ In backtick a ->
              replace_scan m 0 (a ++ b) = a ++ replace_scan m 0 b.
Proof.
  intros Hm a b. induction a as [|x a IH]; intros N; [reflexivity|].
  cbn [app replace_scan].
  destruct (m (x :: a ++ b)) as [[out len]|] eqn:E.
  - destruct (Hm _ _ _ E) as (t & Ht). inversion Ht; subst.
    exfalso. apply N. left. reflexivity.
  - f_equal. apply IH. intros H. apply N. right. exact H.
Qed.

Lemma replace_all_no_backtick (m : jsstring -> option (jsstring * nat)) (s : jsstring) :
  (forall s out len, m s = Some (out, len) -> exists t, s = backtick :: t) ->
  ~ In backtick s -> replace_all m s = s.
Proof.
  intros Hm N. unfold replace_all.
  rewrite <- (app_nil_r s) at 1. rewrite (replace_scan_copy m Hm s [] N).
  simpl. apply app_nil_r.
Qed.

Lemma dropWhile_app_keep (p : ascii -> bool) (a b : jsstring) :
  dropWhile p a <> [] -> dropWhile p (a ++ b) = dropWhile p a ++ b.
Proof.
  induction a as [|x a IH]; simpl; [congruence|].
  destruct (p x); [exact IH|reflexivity].
Qed.

Lemma dropWhile_app_all (p : ascii -> bool) (a b : jsstring) :
  dropWhile p a = [] -> dropWhile p (a ++ b) = dropWhile p b.
Proof.
  induction a as [|x a IH]; simpl; [reflexivity|].
  destruct (p x); [exact IH|discriminate].
Qed.

(** Trailing white space does not survive [trim]. *)
Lemma trim_app_space (s : jsstring) (c : ascii) :
  is_space c = true -> trim (s ++ [c]) = trim s.
Proof.
  intros Hc. unfold trim.
  destruct (dropWhile is_space s) as [|x d] eqn:D.
  - rewrite (dropWhile_app_all _ _ _ D). simpl. rewrite Hc. reflexivity.
  - rewrite dropWhile_app_keep by (rewrite D; discriminate). rewrite D.
    rewrite rev_app_distr. simpl. rewrite Hc. reflexivity.
Qed.

Lemma upto_last_none (c : ascii) (s : jsstring) :
  ~ In c s -> upto_last c s = None.
Proof.
  induction s as [|x s IH]; intros N; simpl; [reflexivity|].
  rewrite IH by (intros H; apply N; right; exact H).
  destruct (Ascii.eqb_spec x c) as [->|]; [|reflexivity].
  exfalso. apply N. left. reflexivity.
Qed.

Lemma upto_last_app (c : ascii) (x s : jsstring) :
  ~ In c s -> upto_last c (x ++ c :: s) = Some (x ++ [c]).
Proof.
  intros N. induction x as [|y x IH]; simpl.
  - rewrite (upto_last_none c s N), Ascii.eqb_refl. reflexivity.
  - rewrite IH. reflexivity.
Qed.

Lemma dropWhile_skip (p : ascii -> bool) (a b : jsstring) :
  (forall x, In x a -> p x = true) -> dropWhile p (a ++ b) = dropWhile p b.
Proof.
  induction a as [|x a IH]; intros H; simpl; [reflexivity|].
  rewrite (H x (or_introl eq_refl)). apply IH. intros y Hy. apply H. right. exact Hy.
Qed.

(** The object found in a text: prose before the first opening brace and
    after the last closing brace is not part of it. *)
Lemma match_braces_found (p b s : jsstring) :
  ~ In "{"%char p -> ~ In "}"%char s ->
  match_braces (p ++ ("{"%char :: b ++ ["}"%char]) ++ s)
  = Some ("{"%char :: b ++ ["}"%char]).
Proof.
  intros Np Ns. unfold match_braces.
  rewrite dropWhile_skip.
  - cbn [app dropWhile]. unfold not_char at 1. rewrite Ascii.eqb_refl. cbn [negb].
    rewrite <- app_assoc. cbn [app]. rewrite (upto_last_app "}" b s Ns). reflexivity.
  - intros x Hx. unfold not_char. apply negb_true_iff.
    destruct (Ascii.eqb_spec x "{"%char) as [->|]; [contradiction|reflexivity].
Qed.

Lemma trim_In_rev (s : jsstring) (c : ascii) :
  In c (rev (dropWhile is_space (rev s))) -> In c s.
Proof. intros H. apply in_rev, dropWhile_In, in_rev in H. exact H. Qed.

(** [trim] of prose, an object and prose is trimmed prose, the object,
    trimmed prose. *)
Lemma trim_around (p b s : jsstring) :
  exists p' s',
    trim (p ++ ("{"%char :: b ++ ["}"%char]) ++ s)
    = p' ++ ("{"%char :: b ++ ["}"%char]) ++ s'
    /\ (forall c, In c p' -> In c p) /\ (forall c, In c s' -> In c s).
Proof.
  unfold trim.
  exists (dropWhile is_space p), (rev (dropWhile is_space (rev s))).
  split; [|split; [apply dropWhile_In|apply trim_In_rev]].
  assert (E1 : dropWhile is_space (p ++ ("{"%char :: b ++ ["}"%char]) ++ s)
               = dropWhile is_space p ++ ("{"%char :: b ++ ["}"%char]) ++ s).
  { destruct (dropWhile is_space p) eqn:D.
    - rewrite (dropWhile_app_all _ _ _ D). reflexivity.
    - rewrite dropWhile_app_keep by (rewrite D; discriminate). rewrite D. reflexivity. }
  rewrite E1. rewrite !rev_app_distr. cbn [rev]. rewrite !rev_app_distr. cbn [rev app].
  rewrite <- !app_assoc.
  assert (E2 : forall t, dropWhile is_space (rev s ++ "}"%char :: t)
                         = dropWhile is_space (rev s) ++ "}"%char :: t).
  { intros t. destruct (dropWhile is_space (rev s)) eqn:D.
    - rewrite (dropWhile_app_all _ _ _ D). reflexivity.
    - rewrite dropWhile_app_keep by (rewrite D; discriminate). rewrite D. reflexivity. }
  cbn [app]. rewrite E2. rewrite rev_app_distr. cbn [rev].
  rewrite !rev_app_distr. cbn [rev app]. rewrite rev_involutive, rev_involutive.
  rewrite <- !app_assoc. reflexivity.
Qed.

End Surroundings.

Section Transparency.

Lemma parseAIResponse_by_match (a b : jsstring) :
  match_braces (trim (replace_all re_fence (replace_all re_fence_json a)))
  = match_braces (trim (replace_all re_fence (replace_all re_fence_json b))) ->
  _parseAIResponse a = _parseAIResponse b.
Proof. intros H. unfold _parseAIResponse. cbv zeta. rewrite H. reflexivity. Qed.

Lemma nil_of_no_member {A : Type} (l : list A) :
  (forall c, In c l -> In c (@nil A)) -> l = [].
Proof.
  destruct l as [|x l]; [reflexivity|].
  intros H. destruct (H x (or_introl eq_refl)).
Qed.

Lemma match_braces_trim (p b s : jsstring) :
  ~ In "{"%char p -> ~ In "}"%char s ->
  match_braces (trim (p ++ ("{"%char :: b ++ ["}"%char]) ++ s))
  = Some ("{"%char :: b ++ ["}"%char]).
Proof.
  intros Np Ns. destruct (trim_around p b s) as (p' & s' & E & Hp & Hs).
  rewrite E. apply match_braces_found.
  - intros H. apply Np, Hp, H.
  - intros H. apply Ns, Hs, H.
Qed.

Lemma not_in_app {A : Type} (x : A) (l1 l2 : list A) :
  ~ In x l1 -> ~ In x l2 -> ~ In x (l1 ++ l2).
Proof. intros H1 H2 H. apply in_app_or in H. tauto. Qed.

Lemma fenced_clean (t : jsstring) :
  ~ In backtick t ->
  trim (replace_all re_fence
          (replace_all re_fence_json
             (lit "```json" ++ chr 10 :: t ++ chr 10 :: lit "```")))
  = trim t.
Proof.
  intros N. unfold replace_all.
  change (replace_scan re_fence_json 0
            (lit "```json" ++ chr 10 :: t ++ chr 10 :: lit "```"))
    with (replace_scan re_fence_json 0 (t ++ chr 10 :: lit "```")).
  rewrite (replace_scan_copy re_fence_json re_fence_json_head t _ N).
  change (replace_scan re_fence_json 0 (chr 10 :: lit "```"))
    with (chr 10 :: lit "```").
  rewrite (replace_scan_copy re_fence re_fence_head t _ N).
  change (replace_scan re_fence 0 (chr 10 :: lit "```")) with [chr 10].
  apply trim_app_space. reflexivity.
Qed.

End Transparency.

(** X3.  Prose and a Markdown fence around the object do not matter.  When
    the text before the object has no opening brace, the text after it has
    no closing brace and there is no backtick anywhere, [_parseAIResponse]
    gives for the surrounded object, and for the same text inside a
    json fence, exactly what it gives for the object alone. *)
Theorem parseAIResponse_ignores_surroundings (p b s : jsstring) :
  ~ In "{"%char p -> ~ In "}"%char s ->
  ~ In backtick p -> ~ In backtick b -> ~ In backtick s ->
  let object := "{"%char :: b ++ ["}"%char] in
  _parseAIResponse (p ++ object ++ s) = _parseAIResponse object
  /\ _parseAIResponse (lit "```json" ++ chr 10 :: (p ++ object ++ s) ++ chr 10 :: lit "```")
     = _parseAIResponse object.
Proof.
  intros Np Ns Bp Bb Bs object.
  assert (Bo : ~ In backtick object).
  { unfold object. intros [H|H]; [discriminate H|].
    apply in_app_or in H as [H|[H|[]]]; [exact (Bb H)|discriminate H]. }
  assert (Bt : ~ In backtick (p ++ object ++ s)).
  { apply not_in_app; [exact Bp|]. apply not_in_app; [exact Bo|exact Bs]. }
  assert (Eo : match_braces (trim (replace_all re_fence (replace_all re_fence_json object)))
               = Some object).
  { rewrite (replace_all_no_backtick _ _ re_fence_json_head Bo).
    rewrite (replace_all_no_backtick _ _ re_fence_head Bo).
    replace object with ([] ++ object ++ []) at 1 by (cbn [app]; apply app_nil_r).
    apply match_braces_trim; intros []. }
  split; apply parseAIResponse_by_match; rewrite Eo.
  - rewrite (replace_all_no_backtick _ _ re_fence_json_head Bt).
    rewrite (replace_all_no_backtick _ _ re_fence_head Bt).
    apply match_braces_trim; assumption.
  - rewrite (fenced_clean _ Bt). apply match_braces_trim; assumption.
Qed.

Lemma parseAIResponse_ignores_surroundings_witness :
  _parseAIResponse (lit "Here is the analysis: " ++ qlit "{~riskLevel~: ~low~}" ++ lit " Thank you.")
  = _parseAIResponse (qlit "{~riskLevel~: ~low~}")
  /\ _parseAIResponse (lit "```json" ++ chr 10 ::
                       (lit "Here is the analysis: " ++ qlit "{~riskLevel~: ~low~}"
                        ++ lit " Thank you.") ++ chr 10 :: lit "```")
     = _parseAIResponse (qlit "{~riskLevel~: ~low~}").
Proof.
  apply (parseAIResponse_ignores_surroundings
           (lit "Here is the analysis: ") (qlit "~riskLevel~: ~low~") (lit " Thank you."));
    vm_compute; intros H; repeat (destruct H as [H|H]; [discriminate H|]); exact H.
Defined.

(** ** Keyword extraction *)

Section Keywords.

Lemma count_of_bump (k w : jsstring) (freq : list (jsstring * nat)) :
  count_of k (bump w freq) = count_of k freq + (if str_eqb k w then 1 else 0).
Proof.
  induction freq as [|[k' n] r IH]; simpl.
  - destruct (str_eqb k w); reflexivity.
  - destruct (str_eqb w k') eqn:E; simpl.
    + apply str_eqb_eq in E. subst k'.
      destruct (str_eqb k w); lia.
    + destruct (str_eqb k k') eqn:E'; [|exact IH].
      apply str_eqb_eq in E'. subst k'.
      destruct (str_eqb k w) eqn:E2; [|lia].
      apply str_eqb_eq in E2. subst w. rewrite str_eqb_refl in E. discriminate.
Qed.

Lemma bump_keys_In (x w : jsstring) (freq : list (jsstring * nat)) :
  In x (map fst (bump w freq)) -> x = w \/ In x (map fst freq).
Proof.
  induction freq as [|[k' n] r IH]; simpl.
  - intros [H|[]]. left. symmetry. exact H.
  - destruct (str_eqb w k'); simpl; [tauto|].
    intros [H|H]; [tauto|]. destruct (IH H); tauto.
Qed.

Lemma bump_keys_NoDup (w : jsstring) (freq : list (jsstring * nat)) :
  NoDup (map fst freq) -> NoDup (map fst (bump w freq)).
Proof.
  induction freq as [|[k' n] r IH]; simpl; intros H.
  - constructor; [intros []|constructor].
  - inversion H as [|? ? Hn Hr]; subst.
    destruct (str_eqb w k') eqn:E; simpl; [exact H|].
    constructor; [|apply IH, Hr].
    intros Hin. apply bump_keys_In in Hin as [->|Hin]; [|contradiction].
    rewrite str_eqb_refl in E. discriminate.
Qed.

Lemma bump_positive (w : jsstring) (freq : list (jsstring * nat)) :
  Forall (fun e => 0 < snd e) freq -> Forall (fun e => 0 < snd e) (bump w freq).
Proof.
  induction freq as [|[k' n] r IH]; simpl; intros H.
  - repeat constructor.
  - inversion H; subst. destruct (str_eqb w k'); constructor; simpl in *; auto; lia.
Qed.

(** The table built from [words]: its keys are distinct, its counts are
    positive, and it counts the occurrences. *)
Lemma frequency_table (words : list jsstring) (acc : list (jsstring * nat)) :
  NoDup (map fst acc) -> Forall (fun e => 0 < snd e) acc ->
  let freq := fold_left (fun f w => bump w f) words acc in
  NoDup (map fst freq)
  /\ Forall (fun e => 0 < snd e) freq
  /\ forall k, count_of k freq = count_of k acc + List.length (filter (str_eqb k) words).
Proof.
  revert acc. induction words as [|w ws IH]; intros acc N P; simpl.
  - repeat split; auto.
  - destruct (IH (bump w acc) (bump_keys_NoDup _ _ N) (bump_positive _ _ P))
      as (N' & P' & C).
    split; [exact N'|]. split; [exact P'|].
    intros k. rewrite C, count_of_bump. destruct (str_eqb k w); simpl; lia.
Qed.

Lemma count_of_In (k : jsstring) (n : nat) (freq : list (jsstring * nat)) :
  NoDup (map fst freq) -> In (k, n) freq -> count_of k freq = n.
Proof.
  induction freq as [|[k' n'] r IH]; simpl; intros N H; [contradiction|].
  inversion N as [|? ? Hn Hr]; subst.
  destruct H as [H|H].
  - inversion H; subst. rewrite str_eqb_refl. reflexivity.
  - destruct (str_eqb k k') eqn:E; [|apply IH; assumption].
    apply str_eqb_eq in E. subst k'. exfalso. apply Hn.
    apply (in_map fst) in H. exact H.
Qed.

Lemma In_of_count (k : jsstring) (freq : list (jsstring * nat)) :
  0 < count_of k freq -> In (k, count_of k freq) freq.
Proof.
  induction freq as [|[k' n'] r IH]; simpl; [lia|].
  destruct (str_eqb k k') eqn:E.
  - apply str_eqb_eq in E. subst k'. intros _. left. reflexivity.
  - intros H. right. apply IH, H.
Qed.

Lemma object_entries_perm (freq : list (jsstring * nat)) :
  Permutation (object_entries freq) freq.
Proof.
  unfold object_entries. rewrite stable_sort_perm.
  induction freq as [|e r IH]; simpl; [reflexivity|].
  destruct (is_array_index (fst e)); simpl.
  - constructor. exact IH.
  - rewrite <- Permutation_middle. constructor. exact IH.
Qed.

Lemma StronglySorted_app_inv' {A : Type} (R : A -> A -> Prop) (l1 l2 : list A) :
  StronglySorted R (l1 ++ l2) ->
  StronglySorted R l1 /\ forall a b, In a l1 -> In b l2 -> R a b.
Proof.
  induction l1 as [|x l1 IH]; simpl; intros H.
  - split; [constructor|intros a b []].
  - inversion H as [|? ? Hs Hf]; subst. destruct (IH Hs) as [S1 S2].
    rewrite Forall_forall in Hf. split.
    + constructor; [exact S1|]. apply Forall_forall. intros y Hy.
      apply Hf, in_or_app. left. exact Hy.
    + intros a b [<-|Ha] Hb; [|apply S2; assumption].
      apply Hf, in_or_app. right. exact Hb.
Qed.

Lemma StronglySorted_map {A B : Type} (R : B -> B -> Prop) (f : A -> B) (l : list A) :
  StronglySorted (fun a b => R (f a) (f b)) l -> StronglySorted R (map f l).
Proof.
  induction 1 as [|x l Hs IH Hf]; simpl; constructor; [exact IH|].
  rewrite Forall_forall in Hf |- *. intros y Hy.
  apply in_map_iff in Hy as (z & <- & Hz). apply Hf, Hz.
Qed.

Lemma occurrences_positive (text w : jsstring) :
  In w (long_tokens text) <-> 0 < occurrences text w.
Proof.
  unfold occurrences. split.
  - intros H. assert (I : In w (filter (str_eqb w) (long_tokens text))).
    { apply filter_In. split; [exact H|apply str_eqb_refl]. }
    destruct (filter (str_eqb w) (long_tokens text)); [destruct I|simpl; lia].
  - destruct (filter (str_eqb w) (long_tokens text)) as [|x l] eqn:E; simpl; [lia|].
    intros _. assert (I : In x (filter (str_eqb w) (long_tokens text))).
    { rewrite E. left. reflexivity. }
    apply filter_In in I as [I Ex]. apply str_eqb_eq in Ex. subst x. exact I.
Qed.

End Keywords.

(** X4.  For a text none of whose long tokens (tokens of more than four
    characters) names an inherited property of the frequency object, the
    keywords are at most twenty distinct long tokens of the text, listed
    by falling number of occurrences; a long token that is left out
    occurs no more often than any keyword, and then there are exactly
    twenty keywords. *)
Theorem extractKeywords_most_frequent (text : jsstring) :
  plain_tokens text ->
  let ks := _extractKeywords text in
  List.length ks <= 20
  /\ NoDup ks
  /\ (forall k, In k ks -> In k (tokens text) /\ 4 < List.length k)
  /\ StronglySorted (fun a b => occurrences text b <= occurrences text a) ks
  /\ (forall w, In w (long_tokens text) -> ~ In w ks ->
        List.length ks = 20
        /\ forall k, In k ks -> occurrences text w <= occurrences text k).
Proof.
  intros _ ks.
  set (freq := fold_left (fun f w => bump w f) (long_tokens text) []).
  set (sorted := stable_sort (fun a b : jsstring * nat => snd b <=? snd a)
                             (object_entries freq)).
  assert (Eks : ks = map fst (firstn 20 sorted)) by reflexivity.
  destruct (frequency_table (long_tokens text) [] (NoDup_nil _) (Forall_nil _))
    as (N & P & C). fold freq in N, P, C.
  assert (Cnt : forall k, count_of k freq = occurrences text k).
  { intros k. rewrite C. reflexivity. }
  assert (Perm : Permutation sorted freq).
  { unfold sorted. rewrite stable_sort_perm. apply object_entries_perm. }
  assert (Ent : forall e, In e sorted -> snd e = occurrences text (fst e) /\ 0 < snd e).
  { intros [k n] He. apply (Permutation_in _ Perm) in He. simpl.
    rewrite <- Cnt, (count_of_In k n freq N He). split; [reflexivity|].
    rewrite Forall_forall in P. apply (P _ He). }
  assert (Srt : StronglySorted
                  (fun a b => occurrences text (fst b) <= occurrences text (fst a)) sorted).
  { apply Sorted_StronglySorted.
    { intros a b c H1 H2. lia. }
    apply (stable_sort_sorted _ _ (fun e => snd e = occurrences text (fst e))).
    - intros a b Ha Hb H. apply Nat.leb_le in H. lia.
    - intros a b Ha Hb H. apply Nat.leb_gt in H. lia.
    - apply Forall_forall. intros e He.
      assert (He' : In e sorted).
      { apply (Permutation_in _ (Permutation_sym (stable_sort_perm _ _))). exact He. }
      apply (Ent e He'). }
  rewrite <- (firstn_skipn 20 sorted) in Srt.
  apply StronglySorted_app_inv' in Srt as [S1 S2].
  assert (Sub : forall e, In e (firstn 20 sorted) -> In e sorted).
  { intros e He. rewrite <- (firstn_skipn 20 sorted). apply in_or_app. left. exact He. }
  split; [|split; [|split; [|split]]].
  - rewrite Eks, length_map. apply firstn_le_length.
  - rewrite Eks, <- firstn_map.
    assert (Nd : NoDup (map fst sorted)).
    { apply (Permutation_NoDup (Permutation_sym (Permutation_map fst Perm))), N. }
    rewrite <- (firstn_skipn 20 (map fst sorted)) in Nd.
    apply NoDup_app_remove_r in Nd. exact Nd.
  - intros k Hk. rewrite Eks in Hk. apply in_map_iff in Hk as (e & <- & He).
    destruct (Ent e (Sub e He)) as [E1 E2].
    assert (L : In (fst e) (long_tokens text)).
    { apply occurrences_positive. lia. }
    apply filter_In in L as [L1 L2]. split; [exact L1|]. apply Nat.ltb_lt, L2.
  - rewrite Eks. apply StronglySorted_map. exact S1.
  - intros w Hw Hn.
    assert (Hpos : 0 < count_of w freq).
    { rewrite Cnt. apply occurrences_positive, Hw. }
    apply In_of_count in Hpos.
    apply (Permutation_in _ (Permutation_sym Perm)) in Hpos.
    rewrite <- (firstn_skipn 20 sorted) in Hpos. apply in_app_or in Hpos as [Hpos|Hpos].
    { exfalso. apply Hn. rewrite Eks. apply in_map_iff.
      exists (w, count_of w freq). split; [reflexivity|exact Hpos]. }
    split.
    + rewrite Eks, length_map. apply firstn_length_le.
      destruct (Nat.le_gt_cases 20 (List.length sorted)) as [L|L]; [exact L|].
      rewrite skipn_all2 in Hpos by lia. destruct Hpos.
    + intros k Hk. rewrite Eks in Hk. apply in_map_iff in Hk as (e & <- & He).
      apply (S2 e _ He Hpos).
Qed.

Lemma extractKeywords_most_frequent_witness :
  _extractKeywords (lit "Alpha beta, alpha gamma; delta 2024!")
  = [lit "alpha"; lit "gamma"; lit "delta"]
  /\ NoDup (_extractKeywords (lit "Alpha beta, alpha gamma; delta 2024!"))
  /\ occurrences (lit "Alpha beta, alpha gamma; delta 2024!") (lit "alpha") = 2.
Proof.
  split; [reflexivity|]. split; [|reflexivity].
  refine (proj1 (proj2 (extractKeywords_most_frequent
                          (lit "Alpha beta, alpha gamma; delta 2024!") _))).
  intros w H. vm_compute in H.
  repeat (destruct H as [<-|H]; [split; discriminate|]). destruct H.
Defined.

(** ** Candidates without text, and what a result entry holds *)

Section Candidates.

Lemma score_all_throws (text : jsstring) (keywords : list jsstring)
      (cs : list (Z * option jsstring)) :
  existsb (includes text) features = true ->
  existsb without_text cs = true ->
  score_all text keywords cs = Throw TypeError.
Proof.
  intros F. induction cs as [|[id t] r IH]; cbn [existsb score_all]; [discriminate|].
  unfold without_text at 1. cbn [snd]. destruct t as [t|].
  - cbn [orb _findMatchedFeatures]. intros H. rewrite (IH H). reflexivity.
  - intros _. cbn [_findMatchedFeatures]. rewrite F. reflexivity.
Qed.

Lemma score_all_entries (text : jsstring) (keywords : list jsstring)
      (cs : list (Z * option jsstring)) (scored : list SimilarContract) :
  score_all text keywords cs = Return scored ->
  forall e, In e scored ->
            exists c, In c cs /\ contractId e = fst c
                      /\ similarity e = _calculateSimilarity keywords (snd c)
                      /\ _findMatchedFeatures text (snd c) = Return (matchedFeatures e).
Proof.
  revert scored. induction cs as [|[id t] r IH]; cbn [score_all]; intros scored H e He.
  - inversion H; subst. destruct He.
  - destruct (_findMatchedFeatures text t) as [mf|] eqn:M; [|discriminate].
    destruct (score_all text keywords r) as [l|]; [|discriminate].
    inversion H; subst. destruct He as [<-|He].
    + exists (id, t). cbn. repeat split; [left; reflexivity|exact M].
    + destruct (IH l eq_refl e He) as (c & Hc & R). exists c. split; [right; exact Hc|exact R].
Qed.

Lemma ratio_le_1 (m n : nat) (q : Q) :
  m <= n -> ratio m n = Num q -> (0 <= q <= 1)%Q.
Proof.
  destruct n as [|n]; [discriminate|]. cbn [ratio]. intros L H. inversion H; subst.
  assert (E : Z.pos (Pos.of_nat (S n)) = Z.of_nat (S n)).
  { rewrite <- (positive_nat_Z (Pos.of_nat (S n))), Nat2Pos.id by discriminate.
    reflexivity. }
  unfold Qle. cbn [Qnum Qden].
  change (match n with 0%nat => 1%positive | S _ => Pos.succ (Pos.of_nat n) end)
    with (Pos.of_nat (S n)).
  rewrite E. lia.
Qed.

Lemma findSimilarContracts_entry (text : jsstring)
        (allContracts : list (Z * option jsstring)) (data : list SimilarContract) :
  findSimilarContracts text allContracts = SimilarOk data ->
  forall e, In e data ->
    exists id c t q,
      In (id, Some (c :: t)) allContracts
      /\ contractId e = id
      /\ similarity e = Num q /\ (3 # 10 < q)%Q /\ (q <= 1)%Q
      /\ matchedFeatures e = common_features text (c :: t).
Proof.
  unfold findSimilarContracts. cbv zeta.
  destruct (score_all text (_extractKeywords text) allContracts) as [scored|] eqn:S;
    [|discriminate].
  intros H e He. assert (D : data = firstn 5 (stable_sort sim_before
                                     (filter above_threshold scored))) by congruence.
  rewrite D in He. clear H D.
  assert (He' : In e (stable_sort sim_before (filter above_threshold scored))).
  { rewrite <- (firstn_skipn 5 _). apply in_or_app. left. exact He. }
  apply (proj1 (stable_sort_In _ _ _)) in He'. apply filter_In in He' as [Hs Ha].
  destruct (score_all_entries _ _ _ _ S e Hs) as ([id t] & Hc & Eid & Esim & Emf).
  cbn [fst snd] in *.
  apply above_threshold_num in Ha as (q & Eq & Hq).
  destruct t as [[|c t]|].
  - rewrite Esim in Eq. cbn in Eq. inversion Eq; subst. discriminate Hq.
  - exists id, c, t, q. split; [exact Hc|]. split; [exact Eid|].
    split; [exact Eq|]. split; [exact Hq|]. split.
    + rewrite Esim in Eq. cbn [_calculateSimilarity] in Eq.
      eapply (ratio_le_1 _ _ q); [|exact Eq]. apply filter_length_le.
    + cbn [_findMatchedFeatures] in Emf. inversion Emf. reflexivity.
  - rewrite Esim in Eq. cbn in Eq. inversion Eq; subst. discriminate Hq.
Qed.

End Candidates.

(** X5.  [findSimilarContracts] fails exactly when the target text
    contains one of the five feature tags as written and some candidate
    has no text; the failure is then the TypeError of reading a property
    of a missing text.  In every other case the result is ok. *)
Theorem findSimilarContracts_fails_iff (text : jsstring)
        (allContracts : list (Z * option jsstring)) :
  if existsb (includes text) features && existsb without_text allContracts
  then findSimilarContracts text allContracts = SimilarFailed (message TypeError)
  else exists data, findSimilarContracts text allContracts = SimilarOk data.
Proof.
  unfold findSimilarContracts. cbv zeta.
  destruct (existsb (includes text) features) eqn:F; cbn [andb].
  - destruct (existsb without_text allContracts) eqn:W.
    + rewrite (score_all_throws _ _ _ F W). reflexivity.
    + destruct (score_all_with_text text (_extractKeywords text) allContracts)
        as (scored & ->); [|eauto].
      intros c Hc E.
      assert (X : existsb without_text allContracts = true).
      { apply existsb_exists. exists c. split; [exact Hc|].
        unfold without_text. rewrite E. reflexivity. }
      congruence.
  - destruct (score_all_no_feature text (_extractKeywords text) allContracts F)
      as (scored & ->). eauto.
Qed.

(** X6.  Every entry of an ok result stands for a candidate that has a
    non-empty text; its similarity is a number above 0.3 and at most 1,
    and its matchedFeatures are the feature tags found as written in both
    the target text and that candidate's text. *)
Theorem findSimilarContracts_entries (text : jsstring)
        (allContracts : list (Z * option jsstring)) (data : list SimilarContract) :
  findSimilarContracts text allContracts = SimilarOk data ->
  forall e, In e data ->
    exists id c t q,
      In (id, Some (c :: t)) allContracts
      /\ contractId e = id
      /\ similarity e = Num q /\ (3 # 10 < q)%Q /\ (q <= 1)%Q
      /\ matchedFeatures e = common_features text (c :: t).
Proof. apply findSimilarContracts_entry. Qed.

Lemma findSimilarContracts_entries_witness :
  exists id c t q,
    In (id, Some (c :: t)) tagged_pool
    /\ contractId {| contractId := 7%Z; similarity := Num (3 # 3);
                     matchedFeatures := [lit "payment"; lit "liability"] |} = id
    /\ Num (3 # 3) = Num q /\ (3 # 10 < q)%Q /\ (q <= 1)%Q
    /\ [lit "payment"; lit "liability"] = common_features tagged_target (c :: t).
Proof.
  apply (findSimilarContracts_entries tagged_target tagged_pool
           [{| contractId := 7%Z; similarity := Num (3 # 3);
               matchedFeatures := [lit "payment"; lit "liability"] |}]).
  - vm_compute. reflexivity.
  - left. reflexivity.
Defined.

(** ** The four stage clients with a credential *)

Lemma run_stage_enabled (a : Capability) (req : request) (fb : json) :
  enabled a = true ->
  run_stage a req fb
  = (match complete a req with
     | Return rawResponse =>
         match _parseAIResponse rawResponse with
         | Return result => StageOk result
         | Throw e => StageFailed (message e) fb
         end
     | Throw e => StageFailed (message e) fb
     end, [req]).
Proof. intros E. unfold run_stage. rewrite E. reflexivity. Qed.


(** X7.  With the capability enabled, each client sends exactly one
    request; the risk and compliance prompts carry the first 15000
    characters of the text and the pricing prompt the first 10000, so
    that texts agreeing on that prefix get the same answer.  A client is
    ok only with an object parsed from the reply, never returns a bare
    fallback, and on failure hands back its own fallback object. *)
Theorem enabled_stage_clients (a : Capability) :
  enabled a = true ->
  (forall text title,
      snd (extractContractIntelligence a text title) = [IntelligencePrompt text title])
  /\ (forall text d,
        snd (assessRisks a text d) = [RiskPrompt (firstn 15000 text) d]
        /\ snd (checkCompliance a text d) = [CompliancePrompt (firstn 15000 text) d])
  /\ (forall text terms,
        snd (analyzePricing a text terms) = [PricingPrompt (firstn 10000 text) terms])
  /\ (forall text text' d terms,
        (firstn 15000 text = firstn 15000 text' ->
         assessRisks a text d = assessRisks a text' d
         /\ checkCompliance a text d = checkCompliance a text' d)
        /\ (firstn 10000 text = firstn 10000 text' ->
            analyzePricing a text terms = analyzePricing a text' terms))
  /\ (forall req fb,
        (forall d, fst (run_stage a req fb) = StageOk d ->
                   exists raw props,
                     complete a req = Return raw
                     /\ _parseAIResponse raw = Return d /\ d = JObj props)
        /\ (forall x, fst (run_stage a req fb) <> Fallback x)
        /\ (forall e x, fst (run_stage a req fb) = StageFailed e x -> x = fb)).
Proof.
  intros E.
  assert (R : forall req fb,
             run_stage a req fb
             = (match complete a req with
                | Return rawResponse =>
                    match _parseAIResponse rawResponse with
                    | Return result => StageOk result
                    | Throw e => StageFailed (message e) fb
                    end
                | Throw e => StageFailed (message e) fb
                end, [req])).
  { intros req fb. unfold run_stage. rewrite E. reflexivity. }
  split; [|split; [|split; [|split]]].
  - intros text title. unfold extractContractIntelligence. rewrite R. reflexivity.
  - intros text d. unfold assessRisks, checkCompliance. rewrite !R. split; reflexivity.
  - intros text terms. unfold analyzePricing. rewrite R. reflexivity.
  - intros text text' d terms. unfold assessRisks, checkCompliance, analyzePricing.
    split; [intros ->; split; reflexivity|intros ->; reflexivity].
  - intros req fb. rewrite R. cbn [fst].
    destruct (complete a req) as [raw|e0]; [|repeat split; try discriminate; congruence].
    destruct (_parseAIResponse raw) as [d0|e0] eqn:P;
      [|repeat split; try discriminate; congruence].
    split; [|split; discriminate].
    intros d H. assert (d0 = d) by congruence. subst d0.
    destruct (parseAIResponse_object_shape raw d P) as (props & ->).
    exists raw, props. repeat split. exact P.
Qed.

Lemma enabled_stage_clients_witness :
  snd (assessRisks (ai degraded) (lit "This agreement is made between A and B.") JNull)
  = [RiskPrompt (lit "This agreement is made between A and B.") JNull]
  /\ forall x, fst (run_stage (ai degraded) (RiskPrompt [] JNull) JNull) <> Fallback x.
Proof.
  pose proof (enabled_stage_clients (ai degraded) eq_refl) as (_ & R & _ & _ & S).
  split.
  - exact (proj1 (R (lit "This agreement is made between A and B.") JNull)).
  - exact (proj1 (proj2 (S (RiskPrompt [] JNull) JNull))).
Defined.

(** ** What a run sends to the language model *)

Section Requests.

Variable w : World.



Lemma pricing_stage_calls_disabled (contractText : jsstring) (c : Contract) :
  enabled (ai w) = false -> snd (pricing_stage w contractText c) = [].
Proof.
  intros E. unfold pricing_stage.
  destruct (financialTerms c) as [|x l]; [reflexivity|].
  unfold analyzePricing. rewrite run_stage_disabled by exact E. reflexivity.
Qed.




End Requests.



(** ** The similarity search inside a run *)

Section RunSimilarity.

Lemma otherContracts_put (x : Contract) (s : Store) :
  otherContracts (_id x) (put x s) = otherContracts (_id x) s.
Proof.
  unfold otherContracts. f_equal.
  induction s as [|d r IH]; simpl.
  - rewrite Z.eqb_refl. reflexivity.
  - destruct (_id d =? _id x)%Z eqn:E; simpl; rewrite ?E, ?Z.eqb_refl; simpl.
    + reflexivity.
    + rewrite IH. reflexivity.
Qed.

Lemma otherContracts_In (id : Z) (s : Store) (d : Contract) :
  In d (otherContracts id s) ->
  In d s /\ _id d <> id /\ exists t, textContent d = Some t.
Proof.
  unfold otherContracts. intros H.
  assert (H' : In d (filter (fun c => negb (_id c =? id)%Z
                                      && match textContent c with
                                         | Some _ => true
                                         | None => false
                                         end) s)).
  { rewrite <- (firstn_skipn 50 _). apply in_or_app. left. exact H. }
  apply filter_In in H' as [I E]. apply andb_prop in E as [E1 E2].
  split; [exact I|]. split.
  - apply negb_true_iff, Z.eqb_neq in E1. exact E1.
  - destruct (textContent d) as [t|]; [eauto|discriminate].
Qed.

Lemma candidates_have_text (id : Z) (s : Store) (c : Z * option jsstring) :
  In c (candidates id s) -> snd c <> None.
Proof.
  unfold candidates. intros H. apply in_map_iff in H as (d & <- & Hd).
  apply otherContracts_In in Hd as (_ & _ & t & E). cbn. rewrite E. discriminate.
Qed.

Lemma candidates_length (id : Z) (s : Store) : List.length (candidates id s) <= 50.
Proof. unfold candidates, otherContracts. rewrite length_map. apply firstn_le_length. Qed.

(** The search of a run never fails: the query keeps the documents that
    have a text. *)
Lemma run_similarity_ok (text : jsstring) (id : Z) (s : Store) :
  exists data, findSimilarContracts text (candidates id s) = SimilarOk data.
Proof.
  unfold findSimilarContracts. cbv zeta.
  destruct (score_all_with_text text (_extractKeywords text) (candidates id s)
              (candidates_have_text id s)) as (scored & ->).
  eauto.
Qed.

Lemma later_stages_similarContracts (w : World) (store : Store) (id : Z)
      (contractText : jsstring) (intelligence : json) (c : Contract) :
  similarContracts (fst (later_stages w store id contractText intelligence c))
  = match findSimilarContracts contractText (candidates id store) with
    | SimilarOk data => data
    | SimilarFailed _ => similarContracts c
    end.
Proof.
  rewrite later_stages_doc.
  set (rr := fst (assessRisks (ai w) contractText intelligence)).
  set (cr := fst (checkCompliance (ai w) contractText intelligence)).
  cbn [finalize set_lastError set_errorCount set_status set_aiConfidenceScore
       set_aiProcessingTime set_aiAnalysisDate similarContracts].
  unfold similarity_stage. fold (candidates id store).
  destruct (run_similarity_ok contractText id store) as (data & ->).
  reflexivity.
Qed.

End RunSimilarity.

(** X9.  In a run that ends ok the similarity search cannot fail, since
    its candidates are the other documents that have a text (at most 50
    of them): similarContracts is always replaced by the fresh result,
    which has at most 5 entries, never names the analysed document
    itself, and names only documents of the collection that have a
    non-empty text. *)
Theorem analyzeContract_similarContracts (w : World) (s : Store) (id : Z)
        (contract : Contract) (c : ascii) (t : jsstring)
        (intelligence : json) (k1 : list request) :
  findById id s = Some contract ->
  textContent contract = Some (c :: t) ->
  (forall d, save_error w d = None) ->
  extractContractIntelligence (ai w) (c :: t) (title contract)
  = (StageOk intelligence, k1) ->
  exists doc,
    response (analyzeContract w s id)
    = Return {| ok := true; error := None; data := Some doc |}
    /\ findSimilarContracts (c :: t) (candidates id s)
       = SimilarOk (similarContracts doc)
    /\ List.length (candidates id s) <= 50
    /\ List.length (similarContracts doc) <= 5
    /\ forall e, In e (similarContracts doc) ->
         contractId e <> id
         /\ exists d c' t', In d s /\ _id d = contractId e
                            /\ textContent d = Some (c' :: t').
Proof.
  intros F T S I.
  rewrite (analyzeContract_success w s id contract c t intelligence k1 F T S I).
  cbn [response].
  set (started := set_status processing contract).
  set (doc := fst (later_stages w (put started s) id (c :: t) intelligence started)).
  exists doc. split; [reflexivity|].
  destruct (findById_some _ _ _ F) as [Hid _].
  assert (Ec : candidates id (put started s) = candidates id s).
  { unfold candidates. replace id with (_id started) by exact Hid.
    rewrite otherContracts_put. reflexivity. }
  assert (Es : findSimilarContracts (c :: t) (candidates id s)
               = SimilarOk (similarContracts doc)).
  { unfold doc. rewrite later_stages_similarContracts, Ec.
    destruct (run_similarity_ok (c :: t) id s) as (data & ->). reflexivity. }
  split; [exact Es|]. split; [apply candidates_length|]. split.
  - unfold findSimilarContracts in Es. cbv zeta in Es.
    destruct (score_all _ _ _) as [scored|]; [|discriminate].
    assert (D : similarContracts doc
                = firstn 5 (stable_sort sim_before (filter above_threshold scored)))
      by congruence.
    rewrite D. apply firstn_le_length.
  - intros e He.
    destruct (findSimilarContracts_entry _ _ _ Es e He)
      as (i & c' & t' & q & Hin & Ei & _).
    unfold candidates in Hin. apply in_map_iff in Hin as (d & Ed & Hd).
    apply otherContracts_In in Hd as (Hs & Hn & _).
    inversion Ed; subst. split; [congruence|].
    exists d, c', t'. repeat split; [exact Hs|congruence|congruence].
Qed.

Lemma analyzeContract_similarContracts_witness :
  exists doc,
    response (analyzeContract degraded uploaded 1)
    = Return {| ok := true; error := None; data := Some doc |}
    /\ similarContracts doc = [].
Proof.
  destruct (analyzeContract_similarContracts degraded uploaded 1
              (new_contract 1 upload None (lit "This agreement is made between A and B."))
              "T"%char (lit "his agreement is made between A and B.")
              (JObj [(lit "parties",
                      JArr [JObj [(lit "name", JStr (lit "Acme"));
                                  (lit "role", JStr (lit "provider"))]]);
                     (lit "keyDates", JArr []);
                     (lit "confidence", JNum (9 # 10))])
              [IntelligencePrompt (lit "This agreement is made between A and B.")
                                  (lit "nda.txt")]
              eq_refl eq_refl (fun _ => eq_refl) eq_refl)
    as (doc & R & E & _).
  exists doc. split; [exact R|].
  assert (X : SimilarOk (similarContracts doc) = SimilarOk [])
    by (rewrite <- E; reflexivity).
  inversion X. reflexivity.
Defined.

(** ** How a run ends *)

Section RunEnd.

Variable w : World.

Lemma handleAnalysisError_shape (s : Store) (base : Contract) (m : option jsstring) :
  (exists x, snd (_handleAnalysisError w s base m) = Throw x)
  \/ snd (_handleAnalysisError w s base m)
     = Return {| ok := false; error := m; data := Some (failure_of base m) |}.
Proof.
  unfold _handleAnalysisError. fold (failure_of base m).
  destruct (save_error w (failure_of base m)); cbn [snd]; eauto.
Qed.

Lemma on_error_shape (s : Store) (id : Z) (msg : jsstring) :
  (exists x, snd (on_error w s id msg) = Throw x)
  \/ exists resp, snd (on_error w s id msg) = Return resp /\ ok resp = false.
Proof.
  unfold on_error. destruct (findById id s) as [base|].
  - destruct (handleAnalysisError_shape s base (Some msg)) as [H|H]; [left; exact H|].
    right. eexists. split; [exact H|reflexivity].
  - right. eexists. split; reflexivity.
Qed.

(** The notifier is only reached at the end of an ok run. *)
Lemma analyzeContract_alert_run (s : Store) (id : Z) :
  let r := analyzeContract w s id in
  (ended_ok r = false /\ alert r = None)
  \/ exists doc,
       response r = Return {| ok := true; error := None; data := Some doc |}
       /\ alert r = _checkDeadlinesAndAlert (now w) doc.
Proof.
  unfold analyzeContract, ended_ok.
  destruct (findById id s) as [contract|]; [|left; split; reflexivity].
  destruct (textContent contract) as [[|c t]|]; try (left; split; reflexivity).
  destruct (save_error w (set_status processing contract)) as [m|].
  { destruct (on_error_shape s id m) as [(x & H)|(resp & H & O)];
      destruct (on_error w s id m) as [st r0]; cbn [snd] in H; subst r0;
      left; split; cbn; auto. }
  destruct (extractContractIntelligence (ai w) (c :: t) _) as [[intelligence|e fb|fb] k1].
  - destruct (later_stages w _ id (c :: t) intelligence _) as [d k].
    destruct (save_error w d) as [m|].
    + destruct (on_error_shape (put (set_status processing contract) s) id m)
        as [(x & H)|(resp & H & O)];
        destruct (on_error w _ id m) as [st r0]; cbn [snd] in H; subst r0;
        left; split; cbn; auto.
    + right. exists d. split; reflexivity.
  - destruct (handleAnalysisError_shape (put (set_status processing contract) s)
                (set_status processing contract) (error_of (StageFailed e fb)))
      as [(x & H)|H];
      destruct (_handleAnalysisError w _ _ _) as [st r0]; cbn [snd] in H; subst r0;
      left; split; reflexivity.
  - destruct (handleAnalysisError_shape (put (set_status processing contract) s)
                (set_status processing contract) (error_of (Fallback fb)))
      as [(x & H)|H];
      destruct (_handleAnalysisError w _ _ _) as [st r0]; cbn [snd] in H; subst r0;
      left; split; reflexivity.
Qed.

End RunEnd.

(** X10.  The deadline notifier is invoked only at the end of a run that
    ends ok, and then only when the saved document has an upcoming key
    date; it receives exactly the upcoming key dates of that document,
    so never an empty list.  A run that does not end ok alerts nobody. *)
Theorem analyzeContract_alert (w : World) (s : Store) (id : Z) :
  let r := analyzeContract w s id in
  (ended_ok r = false -> alert r = None)
  /\ (forall l, alert r = Some l ->
        l <> []
        /\ exists doc,
             response r = Return {| ok := true; error := None; data := Some doc |}
             /\ l = filter (is_upcoming (now w)) (keyDates doc))
  /\ (forall doc,
        response r = Return {| ok := true; error := None; data := Some doc |} ->
        filter (is_upcoming (now w)) (keyDates doc) <> [] ->
        alert r = Some (filter (is_upcoming (now w)) (keyDates doc))).
Proof.
  intros r. destruct (analyzeContract_alert_run w s id) as [[E A]|(doc & R & A)];
    fold r in E, A || fold r in R, A.
  - split; [intros _; exact A|]. split.
    + intros l H. congruence.
    + intros doc R. unfold ended_ok in E. rewrite R in E. discriminate.
  - split; [|split].
    + intros E. unfold ended_ok in E. rewrite R in E. discriminate.
    + intros l H. rewrite A in H. unfold _checkDeadlinesAndAlert in H.
      destruct (filter (is_upcoming (now w)) (keyDates doc)) as [|x u] eqn:U;
        [discriminate|].
      inversion H; subst. split; [discriminate|].
      exists doc. split; [exact R|]. symmetry. exact U.
    + intros doc' R' N. assert (doc' = doc) by congruence. subst doc'.
      rewrite A. unfold _checkDeadlinesAndAlert.
      destruct (filter (is_upcoming (now w)) (keyDates doc)); [contradiction|reflexivity].
Qed.

(** X11.  The response of a run and the stored document agree.  When the
    run returns a document, it is the one then stored under the
    identifier: analyzed with no error when the response is ok, failed
    with the response's error as lastError otherwise.  A response
    without a document leaves the stored one untouched.  A run that
    rejects leaves it untouched or in status processing; so the status
    processing outlasts a run only if the run rejects. *)
Theorem analyzeContract_response_document (w : World) (s : Store) (id : Z)
        (contract : Contract) :
  findById id s = Some contract ->
  let r := analyzeContract w s id in
  exists doc,
    findById id (final_store r) = Some doc
    /\ _id doc = id
    /\ match response r with
       | Return resp =>
           match data resp with
           | Some d =>
               d = doc
               /\ if ok resp
                  then status doc = analyzed /\ error resp = None
                  else status doc = failed /\ error resp = lastError doc
           | None => doc = contract /\ ok resp = false
           end
       | Throw _ => doc = contract \/ doc = set_status processing contract
       end
    /\ (status doc = processing ->
        status contract = processing \/ exists x, response r = Throw x).
Proof.
  intros F r.
  destruct (analyzeContract_cases w s id contract F) as (doc & Fd & _ & _ & Cases).
  fold r in Fd, Cases. exists doc. split; [exact Fd|].
  split; [apply (findById_some _ _ _ Fd)|].
  destruct Cases as [[E [[e R]|[m R]]]|[[E [m R]]
                    |[(base & m & B & E & R)|(tx & i & E & R)]]]; rewrite R.
  - cbn. split; [auto|]. intros H. left. congruence.
  - split; [auto|]. intros H. left. congruence.
  - split; [auto|]. intros _. right. eauto.
  - cbn. split; [split; [reflexivity|]|].
    + rewrite E. split; reflexivity.
    + rewrite E. discriminate.
  - cbn.
    destruct (later_stages_fields w (put (set_status processing contract) s) id tx i
                (set_status processing contract)) as (_ & _ & _ & St & _).
    rewrite <- E in St. split; [auto|]. rewrite St. discriminate.
Qed.

Lemma analyzeContract_response_document_witness :
  exists doc,
    findById 1 (final_store (analyzeContract degraded uploaded 1)) = Some doc
    /\ _id doc = 1%Z
    /\ response (analyzeContract degraded uploaded 1)
       = Return {| ok := true; error := None; data := Some doc |}
    /\ status doc = analyzed.
Proof.
  destruct (analyzeContract_response_document degraded uploaded 1
              (new_contract 1 upload None (lit "This agreement is made between A and B."))
              eq_refl) as (doc & F & I & M & _).
  exists doc. split; [exact F|]. split; [exact I|].
  assert (O : ended_ok (analyzeContract degraded uploaded 1) = true)
    by (vm_compute; reflexivity).
  unfold ended_ok in O.
  destruct (response (analyzeContract degraded uploaded 1)) as [resp|x]; [|discriminate O].
  destruct resp as [o e d]. cbn [ok data error] in *. subst o.
  destruct d as [d|]; [|destruct M; discriminate].
  destruct M as (-> & St & ->). split; [reflexivity|exact St].
Defined.

(** ** Invariants of the reachable collections *)

Section ReachableInvariant.

Variable P : Contract -> Prop.

Hypothesis P_new :
  forall id fileData title content,
    trim content <> [] -> P (new_contract id fileData title content).
Hypothesis P_started : forall c, P c -> P (set_status processing c).
Hypothesis P_failure : forall c m, P c -> P (failure_of c m).
Hypothesis P_analysed :
  forall w s tx i c,
    P c -> P (fst (later_stages w s (_id c) tx i (set_status processing c))).

Lemma reachable_invariant (s : Store) :
  reachable s -> forall c, In c s -> P c.
Proof.
  induction 1 as [|s s' R IH St]; [contradiction|].
  destruct St as [w s id fileData title extracted Fresh|w s id|s id].
  - intros c. unfold createContract. cbv zeta.
    destruct extracted as [content|e]; [|apply IH].
    destruct (trim content) eqn:T; [apply IH|].
    destruct (save_error w _); [apply IH|]. cbn [fst].
    intros H. apply put_In in H. destruct H as [E|H]; [|apply IH, H].
    subst c. apply P_new. rewrite T. discriminate.
  - intros c Hc. destruct (findById id s) as [contract|] eqn:F.
    + destruct (analyzeContract_cases w s id contract F)
        as (doc & _ & _ & Hin & Cases).
      destruct (findById_some _ _ _ F) as [Hid Inc].
      pose proof (IH contract Inc) as Pc.
      apply Hin in Hc. destruct Hc as [Hc|[E|E]];
        [apply IH, Hc|rewrite E; clear E|rewrite E; apply P_started, Pc].
      destruct Cases as [[E _]|[[E _]|[(base & m & B & E & _)|(tx & i & E & _)]]];
        rewrite E; clear E.
      * exact Pc.
      * apply P_started, Pc.
      * apply P_failure. destruct B as [E|E]; rewrite E; [exact Pc|apply P_started, Pc].
      * rewrite <- Hid. apply P_analysed, Pc.
    + rewrite analyzeContract_not_found in Hc by exact F. apply IH, Hc.
  - intros c. unfold deleteContract.
    destruct (findById id s); cbn [fst]; [|apply IH].
    intros H. apply filter_In in H as [H _]. apply IH, H.
Qed.

End ReachableInvariant.

Section Lifecycle.

Lemma later_stages_textContent (w : World) (store : Store) (id : Z)
      (contractText : jsstring) (intelligence : json) (c : Contract) :
  textContent (fst (later_stages w store id contractText intelligence c)) = textContent c.
Proof.
  rewrite later_stages_doc.
  set (rr := fst (assessRisks (ai w) contractText intelligence)).
  set (cr := fst (checkCompliance (ai w) contractText intelligence)).
  assert (I0 : forall d, textContent (merge_intelligence w intelligence d) = textContent d).
  { intros d. unfold merge_intelligence.
    destruct (nonempty_array (field "parties" intelligence));
      destruct (nonempty_array (field "keyDates" intelligence));
      destruct (nonempty_array (field "financialTerms" intelligence));
      destruct (nonempty_array (field "clauses" intelligence)); reflexivity. }
  assert (I1 : forall d, textContent (apply_risk rr d) = textContent d)
    by (intros; destruct rr; reflexivity).
  assert (I2 : forall d, textContent (apply_compliance cr d) = textContent d)
    by (intros; destruct cr; reflexivity).
  assert (I3 : forall d, textContent (fst (pricing_stage w contractText d)) = textContent d).
  { intros d. unfold pricing_stage. destruct (financialTerms d) as [|x l]; [reflexivity|].
    destruct (analyzePricing (ai w) contractText (x :: l)) as [[?|? ?|?] ?]; reflexivity. }
  assert (I4 : forall d, textContent (similarity_stage store id contractText d)
                         = textContent d).
  { intros d. unfold similarity_stage, apply_similar.
    destruct (findSimilarContracts _ _); reflexivity. }
  cbn [finalize set_lastError set_errorCount set_status set_aiConfidenceScore
       set_aiProcessingTime set_aiAnalysisDate textContent].
  rewrite I4, I3, I2, I1. apply I0.
Qed.

Lemma later_stages_analysed (w : World) (store : Store) (id : Z)
      (contractText : jsstring) (intelligence : json) (c : Contract) :
  let doc := fst (later_stages w store id contractText intelligence c) in
  status doc = analyzed /\ analysed_sound doc.
Proof.
  intros doc. subst doc. rewrite later_stages_doc. unfold analysed_sound. cbn.
  repeat split; discriminate.
Qed.

Lemma lifecycle_invariant (s : Store) :
  reachable s -> forall c, In c s -> lifecycle_sound c.
Proof.
  apply reachable_invariant.
  - intros id fileData title content T. split; [|split].
    + exists content. split; [reflexivity|exact T].
    + intros _. exists fileData, title, content. reflexivity.
    + discriminate.
  - intros c (T & _). split; [exact T|]. split; discriminate.
  - intros c m (T & _). split; [exact T|]. split; discriminate.
  - intros w s0 tx i c (T & _).
    destruct (later_stages_analysed w s0 (_id c) tx i (set_status processing c)) as [St A].
    split; [rewrite later_stages_textContent; exact T|].
    split; [rewrite St; discriminate|]. intros _. exact A.
Qed.

Lemma similar_invariant (s : Store) :
  reachable s -> forall c, In c s -> similar_sound c.
Proof.
  apply reachable_invariant.
  - intros id fileData title content _. split; [cbn; lia|intros e []].
  - intros c H. exact H.
  - intros c m H. exact H.
  - intros w s0 tx i c _. unfold similar_sound.
    rewrite later_stages_similarContracts, later_stages_id.
    destruct (run_similarity_ok tx (_id c) s0) as (data & E). rewrite E.
    split.
    + unfold findSimilarContracts in E. cbv zeta in E.
      destruct (score_all _ _ _) as [scored|]; [|discriminate].
      assert (D : data = firstn 5 (stable_sort sim_before (filter above_threshold scored)))
        by congruence.
      rewrite D. apply firstn_le_length.
    + intros e He.
      destruct (findSimilarContracts_entry _ _ _ E e He)
        as (i0 & c' & t' & q & Hin & Ei & Eq & Q1 & Q2 & _).
      unfold candidates in Hin. apply in_map_iff in Hin as (d & Ed & Hd).
      apply otherContracts_In in Hd as (_ & Hn & _).
      inversion Ed; subst.
      change (_id (set_status processing c)) with (_id c).
      split; [congruence|]. exists q. auto.
Qed.

End Lifecycle.

(** X12.  In every collection reachable by uploads, runs and deletions,
    each document has a text that is not blank; a pending document is
    exactly as its upload left it; and an analyzed document has error
    count 0, no lastError, and an analysis date, a confidence score and a
    processing time. *)
Theorem reachable_lifecycle (s : Store) (c : Contract) :
  reachable s -> In c s ->
  (exists t, textContent c = Some t /\ trim t <> [])
  /\ (status c = pending -> fresh c)
  /\ (status c = analyzed -> analysed_sound c).
Proof. intros R I. exact (lifecycle_invariant s R c I). Qed.

Lemma reachable_lifecycle_witness :
  reachable failed_once
  /\ forall c, In c failed_once ->
       (exists t, textContent c = Some t /\ trim t <> [])
       /\ (status c = pending -> fresh c).
Proof.
  split; [exact reachable_failed_once|].
  intros c I.
  destruct (reachable_lifecycle failed_once c reachable_failed_once I) as (T & P & _).
  split; [exact T|exact P].
Defined.

(** X13.  In every reachable collection the similarContracts of a
    document has at most 5 entries, none of which names the document
    itself, each with a similarity above 0.3 and at most 1. *)
Theorem reachable_similarContracts (s : Store) (c : Contract) :
  reachable s -> In c s ->
  List.length (similarContracts c) <= 5
  /\ forall e, In e (similarContracts c) ->
       contractId e <> _id c
       /\ exists q, similarity e = Num q /\ (3 # 10 < q)%Q /\ (q <= 1)%Q.
Proof. intros R I. exact (similar_invariant s R c I). Qed.

Lemma reachable_analysed_pair : reachable analysed_pair.
Proof.
  eapply reach_step; [eapply reach_step; [eapply reach_step; [apply reach_empty|]|]|].
  - apply (step_create offline [] 1 upload None
                       (Return (lit "This agreement is made between A and B."))).
    reflexivity.
  - apply (step_create offline uploaded 2 upload None
                       (Return (lit "This agreement is made between A and B."))).
    reflexivity.
  - apply (step_analyze degraded).
Qed.

Lemma reachable_similarContracts_witness :
  exists c e,
    findById 1 analysed_pair = Some c
    /\ similarContracts c = [e]
    /\ contractId e = 2%Z
    /\ contractId e <> _id c
    /\ exists q, similarity e = Num q /\ (3 # 10 < q)%Q /\ (q <= 1)%Q.
Proof.
  destruct (findById 1 analysed_pair) as [c|] eqn:F;
    [|exfalso; revert F; vm_compute; discriminate].
  assert (S : option_map similarContracts (findById 1 analysed_pair)
              = Some [{| contractId := 2%Z; similarity := Num (2 # 2);
                         matchedFeatures := [] |}])
    by (vm_compute; reflexivity).
  rewrite F in S. cbn [option_map] in S. inversion S as [S'].
  exists c, {| contractId := 2%Z; similarity := Num (2 # 2); matchedFeatures := [] |}.
  split; [reflexivity|]. split; [exact S'|]. split; [reflexivity|].
  apply (proj2 (reachable_similarContracts analysed_pair c reachable_analysed_pair
                  (proj2 (findById_some _ _ _ F)))).
  rewrite S'. left. reflexivity.
Defined.

(** ** Identifiers *)

Section Identifiers.

Lemma findById_None (id : Z) (s : Store) :
  findById id s = None <-> ~ In id (map _id s).
Proof.
  unfold findById. induction s as [|d r IH]; simpl; [tauto|].
  destruct (Z.eqb_spec (_id d) id) as [E|N].
  - split; [discriminate|]. intros H. exfalso. apply H. left. exact E.
  - rewrite IH. tauto.
Qed.

Lemma put_ids_known (x : Contract) (s : Store) :
  In (_id x) (map _id s) -> map _id (put x s) = map _id s.
Proof.
  induction s as [|d r IH]; simpl; [contradiction|].
  destruct (Z.eqb_spec (_id d) (_id x)) as [E|N]; simpl.
  - intros _. rewrite E. reflexivity.
  - intros [H|H]; [contradiction|]. rewrite (IH H). reflexivity.
Qed.

Lemma put_new (x : Contract) (s : Store) :
  ~ In (_id x) (map _id s) -> put x s = s ++ [x].
Proof.
  induction s as [|d r IH]; simpl; [reflexivity|].
  intros H. destruct (Z.eqb_spec (_id d) (_id x)) as [E|N]; [tauto|].
  rewrite IH by tauto. reflexivity.
Qed.

Lemma handleAnalysisError_ids (w : World) (s : Store) (base : Contract)
      (m : option jsstring) :
  In (_id base) (map _id s) ->
  map _id (fst (_handleAnalysisError w s base m)) = map _id s.
Proof.
  intros H. unfold _handleAnalysisError.
  destruct (save_error w _); cbn [fst]; [reflexivity|].
  apply put_ids_known. exact H.
Qed.

Lemma on_error_ids (w : World) (s : Store) (id : Z) (msg : jsstring) :
  map _id (fst (on_error w s id msg)) = map _id s.
Proof.
  unfold on_error. destruct (findById id s) as [base|] eqn:F; [|reflexivity].
  apply handleAnalysisError_ids. destruct (findById_some _ _ _ F) as [_ I].
  apply in_map, I.
Qed.

(** A run keeps the identifiers of the collection, in their order. *)
Lemma analyzeContract_ids (w : World) (s : Store) (id : Z) :
  map _id (final_store (analyzeContract w s id)) = map _id s.
Proof.
  unfold analyzeContract.
  destruct (findById id s) as [contract|] eqn:F; [|reflexivity].
  destruct (textContent contract) as [[|c t]|]; try reflexivity.
  destruct (findById_some _ _ _ F) as [Hid Hin].
  assert (K : In (_id (set_status processing contract)) (map _id s)).
  { apply (in_map _id) in Hin. exact Hin. }
  assert (E1 : map _id (put (set_status processing contract) s) = map _id s)
    by (apply put_ids_known, K).
  destruct (save_error w (set_status processing contract)) as [m|].
  { pose proof (on_error_ids w s id m) as O.
    destruct (on_error w s id m) as [st r0]. exact O. }
  destruct (extractContractIntelligence (ai w) (c :: t) _) as [[intelligence|e fb|fb] k1].
  - destruct (later_stages w _ id (c :: t) intelligence _) as [d k] eqn:L.
    assert (Did : _id d = _id contract).
    { replace d with (fst (later_stages w (put (set_status processing contract) s) id
                                        (c :: t) intelligence
                                        (set_status processing contract)))
        by (rewrite L; reflexivity).
      rewrite later_stages_id. reflexivity. }
    destruct (save_error w d) as [m|].
    + pose proof (on_error_ids w (put (set_status processing contract) s) id m) as O.
      destruct (on_error w _ id m) as [st r0]. cbn [final_store fst] in *. congruence.
    + cbn [final_store]. rewrite put_ids_known; [exact E1|]. rewrite E1, Did. exact K.
  - pose proof (handleAnalysisError_ids w (put (set_status processing contract) s)
                  (set_status processing contract) (error_of (StageFailed e fb))) as O.
    destruct (_handleAnalysisError w _ _ _) as [st r0]. cbn [final_store fst] in *.
    rewrite O; [exact E1|]. rewrite E1. exact K.
  - pose proof (handleAnalysisError_ids w (put (set_status processing contract) s)
                  (set_status processing contract) (error_of (Fallback fb))) as O.
    destruct (_handleAnalysisError w _ _ _) as [st r0]. cbn [final_store fst] in *.
    rewrite O; [exact E1|]. rewrite E1. exact K.
Qed.

Lemma createContract_ids (w : World) (s : Store) (id : Z) (fileData : FileData)
      (title : option jsstring) (extracted : outcome jsstring) :
  findById id s = None ->
  let r := createContract w s id fileData title extracted in
  map _id (fst r) = if ok (snd r) then map _id s ++ [id] else map _id s.
Proof.
  intros F. unfold createContract. cbv zeta.
  destruct extracted as [content|e]; [|reflexivity].
  destruct (trim content); [reflexivity|].
  destruct (save_error w _); [reflexivity|]. cbn [fst snd ok].
  rewrite put_new by (apply findById_None; exact F).
  rewrite map_app. reflexivity.
Qed.

Lemma deleteContract_ids (s : Store) (id : Z) :
  map _id (fst (deleteContract s id)) = filter (fun i => negb (i =? id)%Z) (map _id s).
Proof.
  unfold deleteContract. destruct (findById id s) eqn:F; cbn [fst].
  - clear F. induction s as [|d r IH]; simpl; [reflexivity|].
    destruct (negb (_id d =? id)%Z); simpl; rewrite IH; reflexivity.
  - apply findById_None in F. symmetry.
    induction (map _id s) as [|i l IH]; simpl; [reflexivity|].
    destruct (Z.eqb_spec i id) as [E|N]; simpl.
    + exfalso. apply F. left. exact E.
    + rewrite IH; [reflexivity|]. intros H. apply F. right. exact H.
Qed.

Lemma reachable_ids (s : Store) : reachable s -> NoDup (map _id s).
Proof.
  induction 1 as [|s s' R IH St]; [constructor|].
  destruct St as [w s id fileData title extracted Fresh|w s id|s id].
  - rewrite (createContract_ids w s id fileData title extracted Fresh).
    destruct (ok _); [|exact IH].
    apply NoDup_app; [exact IH|repeat constructor; intros []|].
    intros x Hx [<-|[]]. apply findById_None in Fresh. contradiction.
  - rewrite analyzeContract_ids. exact IH.
  - rewrite deleteContract_ids. apply NoDup_filter, IH.
Qed.

End Identifiers.

Section Lookup.

Lemma findById_unique (s : Store) (c : Contract) :
  NoDup (map _id s) -> In c s -> findById (_id c) s = Some c.
Proof.
  unfold findById. induction s as [|d r IH]; simpl; [contradiction|].
  intros N H. inversion N as [|? ? Hn Hr]; subst.
  destruct H as [->|H]; [rewrite Z.eqb_refl; reflexivity|].
  destruct (Z.eqb_spec (_id d) (_id c)) as [E|_]; [|apply IH; assumption].
  exfalso. apply Hn. rewrite E. apply in_map, H.
Qed.

Lemma findById_app_new (x : Contract) (s : Store) :
  ~ In (_id x) (map _id s) -> findById (_id x) (s ++ [x]) = Some x.
Proof.
  unfold findById. induction s as [|d r IH]; simpl.
  - rewrite Z.eqb_refl. reflexivity.
  - intros H. destruct (Z.eqb_spec (_id d) (_id x)) as [E|_]; [tauto|].
    apply IH. tauto.
Qed.

Lemma filter_other_ids (id : Z) (s : Store) :
  ~ In id (map _id s) -> filter (fun c => negb (_id c =? id)%Z) s = s.
Proof.
  induction s as [|d r IH]; simpl; [reflexivity|].
  intros H. destruct (Z.eqb_spec (_id d) id) as [E|_]; [tauto|].
  simpl. rewrite IH by tauto. reflexivity.
Qed.

End Lookup.

(** X14.  Identifiers.  A run keeps the identifiers of the collection and
    their order; a deletion removes one identifier and nothing else; an
    accepted upload appends its identifier.  So in every reachable
    collection the identifiers are distinct, and [findById] returns the
    one document that carries the identifier. *)
Theorem collection_identifiers :
  (forall w s id, map _id (final_store (analyzeContract w s id)) = map _id s)
  /\ (forall s id,
        map _id (fst (deleteContract s id))
        = filter (fun i => negb (i =? id)%Z) (map _id s))
  /\ (forall w s id fileData title extracted,
        findById id s = None ->
        let r := createContract w s id fileData title extracted in
        map _id (fst r) = if ok (snd r) then map _id s ++ [id] else map _id s)
  /\ (forall s, reachable s -> NoDup (map _id s))
  /\ (forall s id c,
        reachable s -> (findById id s = Some c <-> In c s /\ _id c = id)).
Proof.
  split; [exact analyzeContract_ids|]. split; [exact deleteContract_ids|].
  split; [exact createContract_ids|]. split; [exact reachable_ids|].
  intros s id c R. split.
  - intros F. destruct (findById_some _ _ _ F). auto.
  - intros [I <-]. apply findById_unique; [apply reachable_ids, R|exact I].
Qed.

Lemma createContract_shape (w : World) (s : Store) (id : Z) (fileData : FileData)
      (title : option jsstring) (extracted : outcome jsstring) :
  let r := createContract w s id fileData title extracted in
  (ok (snd r) = false /\ fst r = s)
  \/ exists doc,
       fst r = put doc s
       /\ snd r = {| ok := true; error := None; data := Some doc |}
       /\ (findById id s = None -> findById id (put doc s) = Some doc).
Proof.
  unfold createContract. cbv zeta.
  destruct extracted as [content|e]; [|left; split; reflexivity].
  destruct (trim content); [left; split; reflexivity|].
  destruct (save_error w _); [left; split; reflexivity|].
  right. eexists. split; [reflexivity|]. split; [reflexivity|].
  intros _. apply (findById_put_same (new_contract id fileData title content)).
Qed.

(** X15.  An upload is accepted exactly when the file could be read, its
    text has a character that is not white space, and the new document
    can be saved.  A refused upload leaves the collection as it was and
    answers with an error and no document; an accepted one appends the
    new, pending document and returns it.  Deleting the identifier
    afterwards gives back the collection as it was before the upload. *)
Theorem createContract_accepts (w : World) (s : Store) (id : Z) (fileData : FileData)
        (title : option jsstring) (extracted : outcome jsstring) :
  findById id s = None ->
  let r := createContract w s id fileData title extracted in
  (ok (snd r) = true
   <-> exists content,
         extracted = Return content /\ trim content <> []
         /\ save_error w (new_contract id fileData title content) = None)
  /\ (ok (snd r) = false ->
      fst r = s /\ data (snd r) = None /\ error (snd r) <> None)
  /\ (forall content,
        ok (snd r) = true -> extracted = Return content ->
        let doc := new_contract id fileData title content in
        fst r = s ++ [doc] /\ data (snd r) = Some doc
        /\ findById id (fst r) = Some doc
        /\ status doc = pending /\ textContent doc = Some content)
  /\ fst (deleteContract (fst r) id) = s
  /\ ok (snd (deleteContract (fst r) id)) = ok (snd r).
Proof.
  intros F r. subst r. unfold createContract. cbv zeta.
  assert (Del : fst (deleteContract s id) = s /\ ok (snd (deleteContract s id)) = false).
  { unfold deleteContract. rewrite F. split; reflexivity. }
  assert (Refused : forall m,
             let r := (s, {| ok := false; error := Some m; data := None |}) in
             (ok (snd r) = false ->
              fst r = s /\ data (snd r) = None /\ error (snd r) <> None)
             /\ (forall content,
                    ok (snd r) = true -> extracted = Return content ->
                    let doc := new_contract id fileData title content in
                    fst r = s ++ [doc] /\ data (snd r) = Some doc
                    /\ findById id (fst r) = Some doc
                    /\ status doc = pending /\ textContent doc = Some content)
             /\ fst (deleteContract (fst r) id) = s
             /\ ok (snd (deleteContract (fst r) id)) = ok (snd r)).
  { intros m r. cbn [fst snd ok data error] in *. split.
    - intros _. repeat split. discriminate.
    - split; [discriminate|]. exact Del. }
  destruct extracted as [content|e].
  2:{ split; [|apply Refused].
      split; [discriminate|]. intros (content & E & _). discriminate E. }
  destruct (trim content) as [|x tr] eqn:T.
  { split; [|apply Refused].
    split; [discriminate|]. intros (content' & E & N & _).
    inversion E; subst. contradiction. }
  destruct (save_error w (new_contract id fileData title content)) as [m|] eqn:S.
  { split; [|apply Refused].
    split; [discriminate|]. intros (content' & E & _ & S').
    inversion E; subst. congruence. }
  assert (New : ~ In (_id (new_contract id fileData title content)) (map _id s)).
  { apply findById_None. exact F. }
  rewrite (put_new _ _ New). cbn [fst snd ok data error].
  split.
  { split; [|reflexivity]. intros _. exists content.
    split; [reflexivity|]. split; [rewrite T; discriminate|exact S]. }
  split; [discriminate|]. split.
  { intros content' _ E. inversion E; subst content'. cbv zeta.
    repeat split. apply (findById_app_new (new_contract id fileData title content) s New). }
  unfold deleteContract.
  pose proof (findById_app_new (new_contract id fileData title content) s New) as FN.
  change (_id (new_contract id fileData title content)) with id in FN.
  rewrite FN. cbn [fst snd ok]. split; [|reflexivity].
  rewrite filter_app. cbn [filter _id new_contract]. rewrite Z.eqb_refl. cbn [negb].
  rewrite app_nil_r. apply filter_other_ids. apply findById_None. exact F.
Qed.

Lemma createContract_accepts_witness :
  ok (snd (createContract offline [] 1 upload None
                          (Return (lit "This agreement is made between A and B."))))
  = true
  /\ fst (deleteContract uploaded 1) = [].
Proof.
  pose proof (createContract_accepts offline [] 1 upload None
                (Return (lit "This agreement is made between A and B.")) eq_refl)
    as (A & _ & _ & D & _).
  split; [|exact D].
  apply (proj2 A). exists (lit "This agreement is made between A and B.").
  split; [reflexivity|]. split; [discriminate|reflexivity].
Defined.

(** ** Deadlines and the dashboard *)

Section Dashboard.

Lemma flat_map_filter_nil {A B : Type} (p : A -> bool) (f : A -> list B) (l : list A) :
  (forall x, p x = false -> f x = []) ->
  flat_map f (filter p l) = flat_map f l.
Proof.
  intros H. induction l as [|x r IH]; simpl; [reflexivity|].
  destruct (p x) eqn:E; simpl; rewrite IH; [reflexivity|].
  rewrite (H x E). reflexivity.
Qed.

Lemma getUpcomingDeadlines_perm (now : Z) (store : Store) :
  Permutation (_getUpcomingDeadlines now store) (flat_map (deadlines_of now) store).
Proof.
  unfold _getUpcomingDeadlines. cbv zeta. rewrite stable_sort_perm.
  fold (deadlines_of now).
  rewrite (flat_map_filter_nil (date_query now) (deadlines_of now)); [reflexivity|].
  intros c Q. unfold deadlines_of. rewrite (date_query_complete now c Q). reflexivity.
Qed.

Lemma deadlines_of_In (now : Z) (store : Store) (d : Deadline) :
  In d (flat_map (deadlines_of now) store) ->
  is_upcoming now (deadline d) = true
  /\ exists c, In c store /\ _id c = deadline_contractId d
               /\ title c = contractTitle d /\ In (deadline d) (keyDates c).
Proof.
  intros H. apply in_flat_map in H as (c & Hc & Hd).
  unfold deadlines_of in Hd. apply in_map_iff in Hd as (kd & <- & Hk).
  apply filter_In in Hk as [Hk U]. cbn. split; [exact U|].
  exists c. repeat split; assumption.
Qed.

Lemma deadline_le_trans (a b c : Deadline) :
  deadline_le a b -> deadline_le b c -> deadline_le a c.
Proof.
  unfold deadline_le.
  destruct (date (deadline a)), (date (deadline b)), (date (deadline c));
    try tauto. lia.
Qed.

Lemma sum_range (lo hi : Q) (l : list Q) :
  (forall x, In x l -> (lo <= x <= hi)%Q) ->
  (lo * inject_Z (Z.of_nat (List.length l)) <= fold_right Qplus 0 l)%Q
  /\ (fold_right Qplus 0 l <= hi * inject_Z (Z.of_nat (List.length l)))%Q.
Proof.
  induction l as [|a r IH]; intros H.
  - cbn. rewrite !Qmult_0_r. split; apply Qle_refl.
  - destruct IH as [L U]; [intros x Hx; apply H; right; exact Hx|].
    destruct (H a (or_introl eq_refl)) as [La Ua].
    cbn [fold_right List.length].
    rewrite Nat2Z.inj_succ, <- Z.add_1_l, inject_Z_plus.
    rewrite !Qmult_plus_distr_r, !Qmult_1_r.
    split; apply Qplus_le_compat; assumption.
Qed.

Lemma mean_range (lo hi : Q) (l : list Q) :
  l <> [] -> (forall x, In x l -> (lo <= x <= hi)%Q) -> (lo <= mean l <= hi)%Q.
Proof.
  intros N H. unfold mean.
  assert (P : (0 < inject_Z (Z.of_nat (List.length l)))%Q).
  { rewrite <- (Zlt_Qlt 0). destruct l; [contradiction|cbn [List.length]; lia]. }
  destruct (sum_range lo hi l H) as [L U]. split.
  - apply Qle_shift_div_l; assumption.
  - apply Qle_shift_div_r; assumption.
Qed.

Lemma numeric_scores_In (store : Store) (q : Q) :
  In q (numeric_scores store)
  <-> exists c, In c store /\ complianceScore c = Some (JNum q).
Proof.
  unfold numeric_scores. rewrite in_flat_map. split.
  - intros (c & Hc & Hq). exists c. split; [exact Hc|].
    destruct (complianceScore c) as [[| |x| | |]|]; try contradiction.
    destruct Hq as [->|[]]. reflexivity.
  - intros (c & Hc & E). exists c. split; [exact Hc|]. rewrite E. left. reflexivity.
Qed.

End Dashboard.

(** X16.  The upcoming deadlines of the collection are exactly the
    upcoming key dates of all its documents, each with the identifier and
    title of its document (the date query beforehand loses none), listed
    by rising date. *)
Theorem getUpcomingDeadlines_sorted (now : Z) (store : Store) :
  let deadlines := _getUpcomingDeadlines now store in
  Permutation deadlines (flat_map (deadlines_of now) store)
  /\ StronglySorted deadline_le deadlines
  /\ forall d, In d deadlines ->
       is_upcoming now (deadline d) = true
       /\ exists c, In c store /\ _id c = deadline_contractId d
                    /\ title c = contractTitle d /\ In (deadline d) (keyDates c).
Proof.
  intros deadlines.
  pose proof (getUpcomingDeadlines_perm now store) as Perm. fold deadlines in Perm.
  assert (Up : forall d, In d deadlines ->
                 is_upcoming now (deadline d) = true
                 /\ exists c, In c store /\ _id c = deadline_contractId d
                              /\ title c = contractTitle d /\ In (deadline d) (keyDates c)).
  { intros d Hd. apply (deadlines_of_In now store d).
    apply (Permutation_in _ Perm). exact Hd. }
  split; [exact Perm|]. split; [|exact Up].
  apply Sorted_StronglySorted; [intros a b c; apply deadline_le_trans|].
  unfold deadlines, _getUpcomingDeadlines. cbv zeta.
  apply (stable_sort_sorted deadline_before deadline_le
           (fun d => is_upcoming now (deadline d) = true)).
  - intros a b Ha Hb. unfold deadline_before, deadline_le.
    apply is_upcoming_iff in Ha as (x & -> & _). apply is_upcoming_iff in Hb as (y & -> & _).
    apply Z.leb_le.
  - intros a b Ha Hb. unfold deadline_before, deadline_le.
    apply is_upcoming_iff in Ha as (x & -> & _). apply is_upcoming_iff in Hb as (y & -> & _).
    intros H. apply Z.leb_gt in H. lia.
  - apply Forall_forall. intros d Hd. apply Up. unfold deadlines, _getUpcomingDeadlines.
    cbv zeta. apply (proj2 (stable_sort_In _ _ _)). exact Hd.
Qed.

(** X17.  The dashboard counts: the analyzed and the high-risk documents
    are at most the total; the average compliance score is 0 when no
    document has a numeric score and otherwise the mean of the numeric
    scores, so it lies within any bounds they all respect. *)
Theorem getDashboardStats_bounds (now : Z) (store : Store) :
  let stats := getDashboardStats now store in
  totalContracts stats = List.length store
  /\ analyzedContracts stats <= totalContracts stats
  /\ highRiskContracts stats <= totalContracts stats
  /\ (forall q, In q (numeric_scores store)
                <-> exists c, In c store /\ complianceScore c = Some (JNum q))
  /\ (numeric_scores store = [] -> avgComplianceScore stats = 0%Q)
  /\ (numeric_scores store <> [] ->
      (avgComplianceScore stats == mean (numeric_scores store))%Q
      /\ forall lo hi,
           (forall q, In q (numeric_scores store) -> (lo <= q <= hi)%Q) ->
           (lo <= avgComplianceScore stats <= hi)%Q).
Proof.
  intros stats. split; [reflexivity|]. split; [apply filter_length_le|].
  split; [apply filter_length_le|]. split; [apply numeric_scores_In|].
  unfold stats, getDashboardStats. cbn [avgComplianceScore].
  split; [intros ->; reflexivity|]. intros N.
  destruct (numeric_scores store) as [|x l] eqn:E; [contradiction|].
  assert (M : (sum_Q (x :: l) / inject_Z (Z.of_nat (List.length (x :: l)))
               == mean (x :: l))%Q).
  { unfold mean. rewrite sum_Q_fold_right. reflexivity. }
  split; [exact M|]. intros lo hi H. rewrite M. apply mean_range; [discriminate|exact H].
Qed.

(** ** Listing *)

Section Listing.

Lemma matches_query_iff (filters : Filters) (c : Contract) :
  matches_query filters c = true
  <-> status_matches filters c /\ riskLevel_matches filters c.
Proof.
  unfold matches_query, status_matches, riskLevel_matches.
  rewrite andb_true_iff.
  assert (S : forall a b, str_eqb a b = true <-> a = b).
  { intros a b. split; [apply str_eqb_eq|intros ->; apply str_eqb_refl]. }
  assert (A : match filter_status filters with
              | Some (x :: s) => str_eqb (status_name (status c)) (x :: s)
              | _ => true
              end = true
              <-> match filter_status filters with
                  | Some (x :: s) => status_name (status c) = x :: s
                  | _ => True
                  end).
  { destruct (filter_status filters) as [[|x s]|]; try tauto. apply S. }
  assert (B : match filter_riskLevel filters with
              | Some (x :: s) =>
                  match riskLevel c with
                  | Some (JStr r) => str_eqb r (x :: s)
                  | _ => false
                  end
              | _ => true
              end = true
              <-> match filter_riskLevel filters with
                  | Some (x :: s) => riskLevel c = Some (JStr (x :: s))
                  | _ => True
                  end).
  { destruct (filter_riskLevel filters) as [[|x s]|]; try tauto.
    destruct (riskLevel c) as [[| | |r| |]|]; try (split; [discriminate|congruence]).
    rewrite S. split; [intros ->; reflexivity|congruence]. }
  tauto.
Qed.

End Listing.

(** X18.  [listContracts] returns documents of the collection that meet
    the filters (a filter that is absent or empty asks nothing), newest
    first, at most [limit] of them, where a limit that is absent or 0
    stands for 100.  A matching document that is left out is no newer
    than any returned one, and then the list is full. *)
Theorem listContracts_newest (createdAt : Contract -> Z) (store : Store)
        (filters : Filters) :
  let result := listContracts createdAt store filters in
  1 <= effective_limit filters
  /\ (filter_limit filters = None \/ filter_limit filters = Some 0 ->
      effective_limit filters = 100)
  /\ List.length result <= effective_limit filters
  /\ (forall c, In c result ->
        In c store /\ status_matches filters c /\ riskLevel_matches filters c)
  /\ StronglySorted (fun a b => (createdAt b <= createdAt a)%Z) result
  /\ (forall c, In c store -> status_matches filters c -> riskLevel_matches filters c ->
        ~ In c result ->
        List.length result = effective_limit filters
        /\ forall d, In d result -> (createdAt c <= createdAt d)%Z).
Proof.
  intros result.
  set (sorted := stable_sort (fun a b => (createdAt b <=? createdAt a)%Z)
                             (filter (matches_query filters) store)).
  assert (Er : result = firstn (effective_limit filters) sorted) by reflexivity.
  assert (Srt : StronglySorted (fun a b => (createdAt b <= createdAt a)%Z) sorted).
  { apply Sorted_StronglySorted; [intros a b c H1 H2; lia|].
    apply (stable_sort_sorted _ _ (fun _ => True)).
    - intros a b _ _ H. apply Z.leb_le, H.
    - intros a b _ _ H. apply Z.leb_gt in H. lia.
    - apply Forall_forall. auto. }
  rewrite <- (firstn_skipn (effective_limit filters) sorted) in Srt.
  apply StronglySorted_app_inv' in Srt as [S1 S2]. rewrite <- Er in S1, S2.
  assert (Mem : forall c, In c sorted <-> In c store /\ matches_query filters c = true).
  { intros c. unfold sorted. rewrite stable_sort_In. apply filter_In. }
  split; [unfold effective_limit; destruct (filter_limit filters) as [[|n]|]; lia|].
  split; [intros [H|H]; unfold effective_limit; rewrite H; reflexivity|].
  split; [rewrite Er; apply firstn_le_length|].
  split.
  { intros c Hc. assert (Hs : In c sorted).
    { rewrite <- (firstn_skipn (effective_limit filters) sorted).
      apply in_or_app. left. rewrite <- Er. exact Hc. }
    apply Mem in Hs as [I M]. apply matches_query_iff in M. tauto. }
  split; [exact S1|].
  intros c I Ms Mr N.
  assert (Hs : In c sorted).
  { apply Mem. split; [exact I|]. apply matches_query_iff. tauto. }
  rewrite <- (firstn_skipn (effective_limit filters) sorted) in Hs.
  apply in_app_or in Hs as [Hs|Hs]; [rewrite <- Er in Hs; contradiction|].
  split.
  - rewrite Er. apply firstn_length_le.
    destruct (Nat.le_gt_cases (effective_limit filters) (List.length sorted)) as [L|L];
      [exact L|].
    rewrite skipn_all2 in Hs by lia. destruct Hs.
  - intros d Hd. apply (S2 d c Hd Hs).
Qed.

Lemma listContracts_newest_witness :
  listContracts created_at analysed_pair only_analyzed <> []
  /\ forall c, In c (listContracts created_at analysed_pair only_analyzed) ->
               In c analysed_pair /\ status c = analyzed.
Proof.
  split; [vm_compute; discriminate|].
  intros c Hc.
  destruct (proj1 (proj2 (proj2 (proj2
              (listContracts_newest created_at analysed_pair only_analyzed)))) c Hc)
    as (I & S & _).
  split; [exact I|]. unfold status_matches in S. cbn in S.
  destruct (status c); try discriminate S. reflexivity.
Defined.

(** ** The routes *)

Section RouteIdentifiers.

Lemma radix_value_digits (s : jsstring) (acc : N) :
  Coercion.radix_value 16 s acc <> None
  <-> forall c, In c s -> Coercion.digit_value 16 c <> None.
Proof.
  revert acc. induction s as [|x s IH]; intros acc; cbn [Coercion.radix_value].
  - split; [intros _ c []|discriminate].
  - destruct (Coercion.digit_value 16 x) as [d|] eqn:D.
    + rewrite IH. split.
      * intros H c [<-|Hc]; [rewrite D; discriminate|apply H, Hc].
      * intros H c Hc. apply H. right. exact Hc.
    + split; [intros H; contradiction|].
      intros H. exfalso. apply (H x); [left; reflexivity|exact D].
Qed.

Lemma castObjectId_castable (id : jsstring) :
  Routes.castObjectId id <> None
  <-> List.length id = 24
      /\ forall c, In c id -> Coercion.digit_value 16 c <> None.
Proof.
  unfold Routes.castObjectId. destruct (Nat.eqb_spec (List.length id) 24) as [L|L].
  - rewrite <- (radix_value_digits id 0).
    destruct (Coercion.radix_value 16 id 0); cbn [option_map]; split.
    + intros _. split; [exact L|discriminate].
    + discriminate.
    + intros H. contradiction.
    + intros [_ H]. contradiction.
  - split; [intros H; contradiction|]. intros [H _]. contradiction.
Qed.

End RouteIdentifiers.

(** X19.  Status codes.  The segment of the URL is cast to an identifier
    exactly when it is 24 hexadecimal digits.  With a segment that
    cannot be cast the analysis route answers 500 with the fixed message
    Analysis failed, the read and the delete route 404 with the message
    of the cast error, and none changes the collection.  With one that
    can, the analysis route answers 200 exactly when the run ends ok,
    500 with the fixed message exactly when the run rejects, and 400
    otherwise, and leaves the collection as the run leaves it; for an
    identifier that is not in the collection it answers 400, the read
    and the delete route 404, all three with Contract not found, and
    none changes the collection; after a delete answered 200 a read of
    the same identifier is answered 404.  An upload is answered 201 or
    400, and after a 201 with a fresh identifier a read returns the new
    document. *)
Theorem route_status_codes (castErrorMessage : jsstring -> jsstring)
        (w : World) (store : Store) (segment : jsstring) (id : Z) :
  (Routes.castObjectId segment <> None
   <-> List.length segment = 24
       /\ forall c, In c segment -> Coercion.digit_value 16 c <> None)
  /\ (Routes.castObjectId segment = None ->
      Routes.post_analyze w store segment
      = (store, {| Routes.statusCode := 500;
                   Routes.body := Routes.failure_body "Analysis failed" |})
      /\ Routes.get_contract castErrorMessage store segment
         = {| Routes.statusCode := 404;
              Routes.body := {| ok := false; error := Some (castErrorMessage segment);
                                data := None |} |}
      /\ Routes.delete_contract castErrorMessage store segment
         = (store, {| Routes.statusCode := 404;
                      Routes.body := {| ok := false;
                                        error := Some (castErrorMessage segment);
                                        data := None |} |}))
  /\ (Routes.castObjectId segment = Some id ->
      (let run := analyzeContract w store id in
       let answer := snd (Routes.post_analyze w store segment) in
       fst (Routes.post_analyze w store segment) = final_store run
       /\ (Routes.statusCode answer = 200 <-> ended_ok run = true)
       /\ (Routes.statusCode answer = 500 <-> exists x, response run = Throw x)
       /\ (Routes.statusCode answer = 500 ->
           Routes.body answer = Routes.failure_body "Analysis failed")
       /\ (Routes.statusCode answer = 200 \/ Routes.statusCode answer = 400
           \/ Routes.statusCode answer = 500))
      /\ (findById id store = None ->
          Routes.post_analyze w store segment
          = (store, {| Routes.statusCode := 400;
                       Routes.body := Routes.failure_body "Contract not found" |})
          /\ Routes.get_contract castErrorMessage store segment
             = {| Routes.statusCode := 404;
                  Routes.body := Routes.failure_body "Contract not found" |}
          /\ Routes.delete_contract castErrorMessage store segment
             = (store, {| Routes.statusCode := 404;
                          Routes.body := Routes.failure_body "Contract not found" |}))
      /\ (forall contract,
            findById id store = Some contract ->
            Routes.get_contract castErrorMessage store segment
            = {| Routes.statusCode := 200;
                 Routes.body := {| ok := true; error := None; data := Some contract |} |}
            /\ Routes.statusCode
                 (snd (Routes.delete_contract castErrorMessage store segment)) = 200
            /\ Routes.statusCode
                 (Routes.get_contract
                    castErrorMessage
                    (fst (Routes.delete_contract castErrorMessage store segment))
                    segment) = 404))
  /\ (forall file title extracted,
        let answer := snd (Routes.post_upload w store id file title extracted) in
        (Routes.statusCode answer = 201 \/ Routes.statusCode answer = 400)
        /\ (Routes.statusCode answer = 201 <-> ok (Routes.body answer) = true)
        /\ (Routes.statusCode answer = 400 ->
            fst (Routes.post_upload w store id file title extracted) = store)
        /\ (findById id store = None -> Routes.statusCode answer = 201 ->
            Routes.castObjectId segment = Some id ->
            Routes.get_contract
              castErrorMessage
              (fst (Routes.post_upload w store id file title extracted)) segment
            = {| Routes.statusCode := 200;
                 Routes.body := {| ok := true; error := None;
                                   data := data (Routes.body answer) |} |})).
Proof.
  split; [apply castObjectId_castable|]. split; [|split].
  - intros C. unfold Routes.post_analyze, Routes.get_contract, Routes.delete_contract,
      Routes.read_failure. rewrite C. repeat split.
  - intros C. split; [|split].
    + cbv zeta. unfold Routes.post_analyze, ended_ok. rewrite C. cbn [fst snd].
      destruct (response (analyzeContract w store id)) as [resp|x].
      * destruct (ok resp) eqn:O; cbn [Routes.statusCode Routes.body].
        -- split; [reflexivity|]. split; [tauto|].
           split; [split; [discriminate|intros (x & H); discriminate H]|].
           split; [discriminate|auto].
        -- split; [reflexivity|]. split; [split; discriminate|].
           split; [split; [discriminate|intros (x & H); discriminate H]|].
           split; [discriminate|auto].
      * cbn [Routes.statusCode Routes.body].
        split; [reflexivity|]. split; [split; discriminate|].
        split; [split; eauto|]. split; auto.
    + intros F. unfold Routes.post_analyze, Routes.get_contract, Routes.delete_contract,
        getContract, deleteContract, analyzeContract. rewrite C, F. repeat split.
    + intros contract F.
      unfold Routes.get_contract, Routes.delete_contract, getContract, deleteContract.
      rewrite C, F. cbn [ok fst snd Routes.statusCode]. rewrite ?C. repeat split.
      replace (findById id (filter (fun c => negb (_id c =? id)%Z) store))
        with (@None Contract); [reflexivity|].
      symmetry. apply findById_None. intros H. apply in_map_iff in H as (d & E & Hd).
      apply filter_In in Hd as [_ Hd]. rewrite E, Z.eqb_refl in Hd. discriminate.
  - intros file title extracted. cbv zeta. unfold Routes.post_upload.
    destruct file as [fileData|].
    2:{ cbn. repeat split; try discriminate; auto. }
    pose proof (createContract_shape w store id fileData title extracted) as Sh.
    destruct (createContract w store id fileData title extracted) as [store' result].
    cbn [fst snd] in Sh.
    destruct (ok result) eqn:O; cbn [fst snd Routes.statusCode Routes.body].
    + split; [auto|]. split; [rewrite O; tauto|]. split; [discriminate|].
      intros F _ C. destruct Sh as [[O' _]|(doc & E1 & E2 & E3)]; [congruence|].
      unfold Routes.get_contract, getContract. rewrite C. subst store'.
      rewrite E2, E3 by exact F. reflexivity.
    + split; [auto|]. split; [rewrite O; split; discriminate|].
      split; [|discriminate]. intros _.
      destruct Sh as [[_ E]|(doc & E1 & E2 & E3)]; [exact E|].
      rewrite E2 in O. discriminate.
Qed.

(** ** The configuration *)

Section Configuration.

Lemma int_or_default_nonzero (v : option jsstring) (d : Z) :
  d <> 0%Z -> Config.int_or_default v d <> 0%Z.
Proof.
  intros D. unfold Config.int_or_default.
  destruct v as [s|]; [|exact D].
  destruct (Config.parseInt s) as [n|]; [|exact D].
  destruct (Z.eqb_spec n 0); assumption.
Qed.

End Configuration.

(** X20.  Loading the configuration succeeds exactly when
    ANTHROPIC_API_KEY is set and not empty, and then the AI capability is
    enabled; otherwise the process exits with that one error.  The
    database URI always has a value, so its error is never reported.  The
    numeric settings are never 0; the mail service is enabled exactly
    when both the user and the password are set and not empty; the rate
    limiter is skipped whenever the error handler exposes the stack; and
    the upload filter lets through exactly the PDF and plain-text MIME
    types, of which the first is stored as pdf and the second as text. *)
Theorem config_load (e : Config.Env) :
  (match Config.load e with
   | inl c =>
       c = Config.build e /\ Config.enabled (Config.ai c) = true
       /\ exists k r, e "ANTHROPIC_API_KEY"%string = Some (k :: r)
   | inr errors =>
       errors = [lit "ANTHROPIC_API_KEY is required for AI features"]
       /\ (e "ANTHROPIC_API_KEY"%string = None
           \/ e "ANTHROPIC_API_KEY"%string = Some [])
   end)
  /\ Config.uri (Config.database (Config.build e)) <> []
  /\ (Config.email_port (Config.email (Config.build e)) <> 0%Z
      /\ Config.maxFileSize (Config.upload (Config.build e)) <> 0%Z
      /\ Config.rateLimitWindowMs (Config.security (Config.build e)) <> 0%Z
      /\ Config.rateLimitMaxRequests (Config.security (Config.build e)) <> 0%Z)
  /\ (Config.email_enabled (Config.email (Config.build e)) = true
      <-> (exists u r, e "EMAIL_USER"%string = Some (u :: r))
          /\ exists p r, e "EMAIL_PASSWORD"%string = Some (p :: r))
  /\ (Server.exposes_stack e = true -> Server.rate_limit_skipped (Config.build e) = true)
  /\ (e "NODE_ENV"%string = None ->
      Server.rate_limit_skipped (Config.build e) = true
      /\ Server.exposes_stack e = false)
  /\ (forall file,
        Config.fileFilter (Config.build e) file = Return true
        <-> mimetype file = lit "application/pdf" \/ mimetype file = lit "text/plain")
  /\ (forall file id title content,
        Config.fileFilter (Config.build e) file = Return true ->
        fileType (new_contract id file title content)
        = if str_eqb (mimetype file) (lit "text/plain") then text else pdf).
Proof.
  split.
  { destruct (load_cases e) as [[N ->]|[N ->]].
    - split; [reflexivity|]. split; [exact N|]. apply nonempty_iff, N.
    - split; [reflexivity|].
      destruct (e "ANTHROPIC_API_KEY"%string) as [[|c r]|]; auto. discriminate N. }
  split; [apply or_default_nonempty; discriminate|].
  split.
  { repeat split; apply int_or_default_nonzero; discriminate. }
  split.
  { cbn [Config.build Config.email Config.email_enabled].
    rewrite andb_true_iff, !nonempty_iff. tauto. }
  split.
  { unfold Server.exposes_stack, Server.rate_limit_skipped.
    cbn [Config.build Config.server Config.env].
    destruct (e "NODE_ENV"%string) as [[|c r]|]; try discriminate.
    intros H. exact H. }
  split.
  { intros H. unfold Server.exposes_stack, Server.rate_limit_skipped.
    cbn [Config.build Config.server Config.env]. rewrite H. split; reflexivity. }
  assert (F : forall file,
             Config.fileFilter (Config.build e) file = Return true
             <-> mimetype file = lit "application/pdf" \/ mimetype file = lit "text/plain").
  { intros file. unfold Config.fileFilter.
    cbn [Config.build Config.upload Config.allowedMimeTypes existsb].
    destruct (str_eqb (mimetype file) (lit "application/pdf")) eqn:E1.
    { apply str_eqb_eq in E1. cbn [orb]. tauto. }
    destruct (str_eqb (mimetype file) (lit "text/plain")) eqn:E2.
    { apply str_eqb_eq in E2. cbn [orb]. tauto. }
    cbn [orb]. split; [discriminate|].
    intros [H|H]; rewrite H in *; discriminate. }
  split; [exact F|].
  intros file id title content H. apply F in H.
  cbn [new_contract fileType]. destruct H as [H|H]; rewrite H; reflexivity.
Qed.

Lemma config_load_witness :
  Config.load production_env = inl (Config.build production_env)
  /\ Config.enabled (Config.ai (Config.build production_env)) = true
  /\ Config.email_port (Config.email (Config.build production_env)) = 587%Z
  /\ Config.maxFileSize (Config.upload (Config.build production_env)) = 256%Z
  /\ Config.rateLimitMaxRequests (Config.security (Config.build production_env)) <> 0%Z.
Proof.
  pose proof (config_load production_env) as (H & _ & (_ & _ & _ & P) & _).
  change (Config.load production_env)
    with (@inl Config.config (list jsstring) (Config.build production_env)) in H.
  destruct H as (_ & En & _).
  split; [reflexivity|]. split; [exact En|]. split; [reflexivity|].
  split; [reflexivity|exact P].
Defined.

(** ** The deadline mail *)

(** X21.  The deadline mail.  Without a mail account the alert is
    skipped and nothing reaches the transport.  With one, the transport
    gets at most one mail, and exactly one when every deadline has a
    date: from the configured sender to the configured user, which is
    then not empty, about the given document and deadlines; a transport
    failure comes back as a result that is not ok.  The deadlines a run
    hands over all have a date, so with a mail account a run that ends ok
    with an upcoming key date causes exactly one mail, about the
    document as saved. *)
Theorem sendDeadlineAlert_mail (e : Config.Env) (sendMail : EmailService.Mail -> outcome jsstring)
        (contract : Contract) (deadlines : list KeyDate) :
  let c := Config.build e in
  let r := EmailService.sendDeadlineAlert c sendMail contract deadlines in
  (Config.email_enabled (Config.email c) = false ->
   r = (EmailService.Skipped (lit "Email service not configured"), []))
  /\ (Config.email_enabled (Config.email c) = true ->
      (forall reason, fst r <> EmailService.Skipped reason)
      /\ (forallb EmailService.has_date deadlines = false -> snd r = [])
      /\ (forallb EmailService.has_date deadlines = true ->
          exists mail u,
            snd r = [mail]
            /\ EmailService.mail_to mail = Some u /\ u <> []
            /\ EmailService.mail_from mail <> []
            /\ EmailService.mail_contract mail = contract
            /\ EmailService.mail_deadlines mail = deadlines
            /\ match sendMail mail with
               | Return messageId => fst r = EmailService.Sent messageId
               | Throw x => fst r = EmailService.NotSent (message x)
               end))
  /\ (forall w s id l,
        alert (analyzeContract w s id) = Some l ->
        forallb EmailService.has_date l = true
        /\ exists doc,
             response (analyzeContract w s id)
             = Return {| ok := true; error := None; data := Some doc |}
             /\ (Config.email_enabled (Config.email c) = true ->
                 exists mail,
                   snd (EmailService.sendDeadlineAlert c sendMail doc l) = [mail]
                   /\ EmailService.mail_contract mail = doc
                   /\ EmailService.mail_deadlines mail = l)).
Proof.
  intros c r.
  assert (On : forall doc l,
             Config.email_enabled (Config.email c) = true ->
             forallb EmailService.has_date l = true ->
             exists mail u,
               snd (EmailService.sendDeadlineAlert c sendMail doc l) = [mail]
               /\ EmailService.mail_to mail = Some u /\ u <> []
               /\ EmailService.mail_from mail <> []
               /\ EmailService.mail_contract mail = doc
               /\ EmailService.mail_deadlines mail = l
               /\ match sendMail mail with
                  | Return messageId =>
                      fst (EmailService.sendDeadlineAlert c sendMail doc l)
                      = EmailService.Sent messageId
                  | Throw x =>
                      fst (EmailService.sendDeadlineAlert c sendMail doc l)
                      = EmailService.NotSent (message x)
                  end).
  { intros doc l E D. unfold EmailService.sendDeadlineAlert. rewrite E, D. cbn [negb].
    assert (U : exists u r0, Config.user (Config.email c) = Some (u :: r0)).
    { unfold c in E |- *. cbn [Config.build Config.email Config.email_enabled] in E.
      apply andb_prop in E as [E _]. apply nonempty_iff in E. exact E. }
    destruct U as (u & r0 & U).
    set (mail := {| EmailService.mail_from := Config.from (Config.email c);
                    EmailService.mail_to := Config.user (Config.email c);
                    EmailService.mail_contract := doc;
                    EmailService.mail_deadlines := l |}).
    exists mail, (u :: r0).
    assert (Fr : EmailService.mail_from mail <> [])
      by (apply or_default_nonempty; discriminate).
    destruct (sendMail mail) as [mid|x] eqn:M; cbn [fst snd];
      (split; [reflexivity|]); (split; [exact U|]); (split; [discriminate|]);
      (split; [exact Fr|]); (split; [reflexivity|]); (split; [reflexivity|]);
      reflexivity. }
  split; [|split].
  - intros E. unfold r, EmailService.sendDeadlineAlert. rewrite E. reflexivity.
  - intros E. split; [|split].
    + intros reason. unfold r, EmailService.sendDeadlineAlert. rewrite E. cbn [negb].
      destruct (forallb EmailService.has_date deadlines); [|discriminate].
      destruct (sendMail _); discriminate.
    + intros D. unfold r, EmailService.sendDeadlineAlert. rewrite E, D. reflexivity.
    + intros D. apply (On contract deadlines E D).
  - intros w s id l A.
    destruct (analyzeContract_alert_run w s id) as [[_ N]|(doc & R & A')];
      [cbv zeta in N; congruence|].
    cbv zeta in R, A'. rewrite A' in A. unfold _checkDeadlinesAndAlert in A.
    assert (L : l = filter (is_upcoming (now w)) (keyDates doc)).
    { destruct (filter (is_upcoming (now w)) (keyDates doc)); [discriminate|congruence]. }
    assert (D : forallb EmailService.has_date l = true).
    { apply forallb_forall. intros kd Hkd. rewrite L in Hkd.
      apply filter_In in Hkd as [_ U]. apply is_upcoming_iff in U as (d & Ed & _).
      unfold EmailService.has_date. rewrite Ed. reflexivity. }
    split; [exact D|]. exists doc. split; [exact R|].
    intros E. destruct (On doc l E D) as (mail & u & S & _ & _ & _ & Mc & Md & _).
    exists mail. auto.
Qed.

(** ** Failures with the capability enabled *)

Section EnabledFailures.

Variable w : World.

Lemma handleAnalysisError_message (s : Store) (base : Contract) (m : jsstring)
      (resp : Response) (d : Contract) :
  snd (_handleAnalysisError w s base (Some m)) = Return resp ->
  data resp = Some d ->
  status d = failed /\ lastError d = Some m /\ error resp = Some m.
Proof.
  intros R D.
  destruct (handleAnalysisError_shape w s base (Some m)) as [(x & H)|H];
    rewrite H in R; [discriminate|].
  inversion R; subst resp. cbn [data] in D. inversion D; subst d.
  repeat split.
Qed.

Lemma on_error_message (s : Store) (id : Z) (m : jsstring)
      (resp : Response) (d : Contract) :
  snd (on_error w s id m) = Return resp ->
  data resp = Some d ->
  status d = failed /\ lastError d = Some m /\ error resp = Some m.
Proof.
  unfold on_error. destruct (findById id s) as [base|].
  - apply handleAnalysisError_message.
  - cbn [snd]. intros R D. inversion R; subst resp. discriminate D.
Qed.

Lemma enabled_failure (s : Store) (id : Z) (resp : Response) (d : Contract) :
  enabled (ai w) = true ->
  response (analyzeContract w s id) = Return resp ->
  ok resp = false -> data resp = Some d ->
  status d = failed /\ exists m, lastError d = Some m /\ error resp = Some m.
Proof.
  intros E. unfold analyzeContract.
  destruct (findById id s) as [contract|];
    [|cbn [response]; intros R _ D; inversion R; subst resp; discriminate D].
  destruct (textContent contract) as [[|c t]|];
    try (cbn [response]; intros R _ D; inversion R; subst resp; discriminate D).
  destruct (save_error w (set_status processing contract)) as [m|].
  { pose proof (on_error_message s id m resp d) as H.
    destruct (on_error w s id m) as [st r0]. cbn [snd response] in *.
    intros R _ D. destruct (H R D) as (S1 & S2 & S3). eauto. }
  unfold extractContractIntelligence. rewrite run_stage_enabled by exact E.
  destruct (complete (ai w) _) as [raw|x].
  - destruct (_parseAIResponse raw) as [intelligence|x].
    + destruct (later_stages w _ id (c :: t) intelligence _) as [doc k].
      destruct (save_error w doc) as [m|].
      * pose proof (on_error_message (put (set_status processing contract) s) id m resp d)
          as H.
        destruct (on_error w _ id m) as [st r0]. cbn [snd response] in *.
        intros R _ D. destruct (H R D) as (S1 & S2 & S3). eauto.
      * cbn [response]. intros R O. inversion R; subst resp. discriminate O.
    + pose proof (handleAnalysisError_message (put (set_status processing contract) s)
                    (set_status processing contract) (message x) resp d) as H.
      cbn [error_of].
      destruct (_handleAnalysisError w _ _ _) as [st r0]. cbn [snd response] in *.
      intros R _ D. destruct (H R D) as (S1 & S2 & S3). eauto.
  - pose proof (handleAnalysisError_message (put (set_status processing contract) s)
                  (set_status processing contract) (message x) resp d) as H.
    cbn [error_of].
    destruct (_handleAnalysisError w _ _ _) as [st r0]. cbn [snd response] in *.
    intros R _ D. destruct (H R D) as (S1 & S2 & S3). eauto.
Qed.

End EnabledFailures.

(** X22.  With a configuration that loaded, the capability is enabled,
    and then a run that returns a failure together with a document has
    written status failed and a lastError, which is the error of the
    response; no client returns a bare fallback object. *)
Theorem loaded_configuration_failures (e : Config.Env) (c : Config.config) (w : World) :
  Config.load e = inl c ->
  enabled (ai w) = Config.enabled (Config.ai c) ->
  enabled (ai w) = true
  /\ (forall req fb x, fst (run_stage (ai w) req fb) <> Fallback x)
  /\ (forall s id resp d,
        response (analyzeContract w s id) = Return resp ->
        ok resp = false -> data resp = Some d ->
        findById id (final_store (analyzeContract w s id)) = Some d
        /\ status d = failed
        /\ exists m, lastError d = Some m /\ error resp = Some m).
Proof.
  intros L En.
  assert (E : enabled (ai w) = true).
  { rewrite En. destruct (load_cases e) as [[N L']|[N L']]; rewrite L' in L.
    - inversion L. exact N.
    - discriminate L. }
  split; [exact E|]. split.
  - intros req fb x. rewrite run_stage_enabled by exact E. cbn [fst].
    destruct (complete (ai w) req) as [raw|y]; [|discriminate].
    destruct (_parseAIResponse raw); discriminate.
  - intros s id resp d R O D. split; [|apply (enabled_failure w s id resp d E R O D)].
    destruct (findById id s) as [contract|] eqn:F.
    + destruct (analyzeContract_cases w s id contract F) as (doc & Fd & _ & _ & Cases).
      rewrite Fd. f_equal.
      destruct Cases as [[_ [[x R']|[m R']]]|[[_ [m R']]
                        |[(base & m & _ & _ & R')|(tx & i & _ & R')]]];
        rewrite R' in R; inversion R; subst resp; cbn [data] in D; congruence.
    + unfold analyzeContract in R. rewrite F in R. cbn [response] in R.
      inversion R; subst resp. discriminate D.
Qed.

Lemma loaded_configuration_failures_witness :
  enabled (ai degraded) = true
  /\ forall req fb x, fst (run_stage (ai degraded) req fb) <> Fallback x.
Proof.
  destruct (loaded_configuration_failures production_env
              (Config.build production_env) degraded eq_refl eq_refl) as (E & F & _).
  split; [exact E|exact F].
Defined.

(** ** Failed documents of the started service *)

Section ServiceFailures.

Lemma parseAIResponse_message (raw : jsstring) x :
  _parseAIResponse raw = Throw x -> message x <> [].
Proof.
  unfold _parseAIResponse.
  destruct (match_braces _) as [jsonStr|]; [|intros [= <-]; discriminate].
  destruct (JSON_parse jsonStr); try (intros H; discriminate H);
    destruct (JSON_parse _); try (intros H; discriminate H);
    intros [= <-]; discriminate.
Qed.

Lemma in_service_enabled (w : World) : in_service w -> enabled (ai w) = true.
Proof.
  intros ((e & c & L & En) & _). rewrite En.
  destruct (load_cases e) as [[N L']|[N L']]; rewrite L' in L.
  - inversion L. exact N.
  - discriminate L.
Qed.

(** The message a stage of the started service fails with is not empty. *)
Lemma run_stage_message (w : World) (req : request) (fb : json) :
  in_service w ->
  match fst (run_stage (ai w) req fb) with
  | StageOk _ => True
  | StageFailed m _ => m <> []
  | Fallback _ => False
  end.
Proof.
  intros S. pose proof (in_service_enabled w S) as E.
  destruct S as (_ & Hc & _).
  rewrite run_stage_enabled by exact E. cbn [fst].
  destruct (complete (ai w) req) as [raw|x] eqn:C.
  - destruct (_parseAIResponse raw) as [v|x] eqn:P; [exact I|].
    apply (parseAIResponse_message raw x P).
  - apply (Hc req x C).
Qed.

(** A failure the started service records carries a message. *)
Lemma service_failure_message (w : World) (s : Store) (id : Z)
      (resp : Response) (d : Contract) :
  in_service w ->
  response (analyzeContract w s id) = Return resp ->
  ok resp = false -> data resp = Some d ->
  exists m, lastError d = Some m /\ m <> [].
Proof.
  intros S. pose proof S as (_ & _ & Hs). unfold analyzeContract.
  destruct (findById id s) as [contract|];
    [|cbn [response]; intros R _ D; inversion R; subst resp; discriminate D].
  destruct (textContent contract) as [[|c t]|];
    try (cbn [response]; intros R _ D; inversion R; subst resp; discriminate D).
  destruct (save_error w (set_status processing contract)) as [m|] eqn:S1.
  { pose proof (on_error_message w s id m resp d) as H.
    destruct (on_error w s id m) as [st r0]. cbn [snd response] in *.
    intros R _ D. destruct (H R D) as (_ & L & _). exists m. split; [exact L|].
    apply (Hs _ m S1). }
  pose proof (run_stage_message w (IntelligencePrompt (c :: t) (title (set_status processing contract)))
                                _fallbackExtraction S) as M.
  unfold extractContractIntelligence.
  destruct (run_stage (ai w) _ _fallbackExtraction) as [[intelligence|e fb|fb] k1];
    cbn [fst] in M; [| |contradiction].
  - destruct (later_stages w _ id (c :: t) intelligence _) as [doc k].
    destruct (save_error w doc) as [m|] eqn:S2.
    + pose proof (on_error_message w (put (set_status processing contract) s) id m resp d)
        as H.
      destruct (on_error w _ id m) as [st r0]. cbn [snd response] in *.
      intros R _ D. destruct (H R D) as (_ & L & _). exists m. split; [exact L|].
      apply (Hs _ m S2).
    + cbn [response]. intros R O. inversion R; subst resp. discriminate O.
  - pose proof (handleAnalysisError_message w (put (set_status processing contract) s)
                  (set_status processing contract) e resp d) as H.
    cbn [error_of].
    destruct (_handleAnalysisError w _ _ _) as [st r0]. cbn [snd response] in *.
    intros R _ D. destruct (H R D) as (_ & L & _). exists e. split; [exact L|exact M].
Qed.

Lemma reachable_in_service_reachable (s : Store) :
  reachable_in_service s -> reachable s.
Proof.
  induction 1 as [|s s' R IH St]; [apply reach_empty|].
  apply (reach_step s s' IH).
  destruct St as [w s id fileData title extracted _ Fresh|w s id _|s id].
  - apply step_create, Fresh.
  - apply step_analyze.
  - apply step_delete.
Qed.

Lemma reachable_in_service_message (s : Store) :
  reachable_in_service s ->
  forall c, In c s -> status c = failed -> exists m, lastError c = Some m /\ m <> [].
Proof.
  induction 1 as [|s s' R IH St]; [contradiction|].
  destruct St as [w s id fileData title extracted S Fresh|w s id S|s id].
  - intros c. unfold createContract. cbv zeta.
    destruct extracted as [content|e]; [|apply IH].
    destruct (trim content); [apply IH|].
    destruct (save_error w _); [apply IH|]. cbn [fst].
    intros H. apply put_In in H. destruct H as [E|H]; [|apply IH, H].
    subst c. discriminate.
  - intros c Hc. destruct (findById id s) as [contract|] eqn:F.
    + destruct (analyzeContract_cases w s id contract F)
        as (doc & _ & _ & Hin & Cases).
      destruct (findById_some _ _ _ F) as [_ Inc].
      apply Hin in Hc. destruct Hc as [Hc|[E|E]];
        [apply IH, Hc|rewrite E; clear E|rewrite E; discriminate].
      destruct Cases as [[E _]|[[E _]|[(base & m & B & E & Rs)|(tx & i & E & _)]]].
      * rewrite E. apply IH, Inc.
      * rewrite E. discriminate.
      * intros _.
        apply (service_failure_message w s id _ doc S Rs); reflexivity.
      * rewrite E.
        destruct (later_stages_fields w (put (set_status processing contract) s) id tx i
                    (set_status processing contract))
          as (_ & _ & _ & Hs & _).
        rewrite Hs. discriminate.
    + rewrite analyzeContract_not_found in Hc by exact F. apply IH, Hc.
  - intros c. unfold deleteContract.
    destruct (findById id s); cbn [fst]; [|apply IH].
    intros H. apply filter_In in H as [H _]. apply IH, H.
Qed.

Lemma in_service_timed_out : in_service timed_out.
Proof.
  split; [|split].
  - exists production_env, (Config.build production_env). split; reflexivity.
  - intros req x [= <-]. discriminate.
  - intros d m H. discriminate H.
Qed.

Lemma reachable_timed_out_once : reachable_in_service timed_out_once.
Proof.
  eapply service_next; [eapply service_next; [apply service_empty|]|].
  - apply (service_create timed_out [] 1 upload None
                          (Return (lit "This agreement is made between A and B."))
                          in_service_timed_out).
    reflexivity.
  - apply (service_analyze timed_out received 1 in_service_timed_out).
Qed.

End ServiceFailures.

(** C6.  In every collection the started service can reach (its
    configuration loaded, so the capability is enabled, and the errors
    thrown by the client of the language model and by save() carry a
    message), a document whose status is failed has a lastError that is
    a string and not empty, and an errorCount of at least 1.  This holds
    in particular for the failure state written when the intelligence
    stage fails: its lastError is the message of the stage's error, and
    its errorCount is one more than before. *)
Theorem failed_document_lastError :
  (forall s c,
      reachable_in_service s -> In c s -> status c = failed ->
      (exists m, lastError c = Some m /\ m <> []) /\ (1 <= errorCount c)%Z)
  /\ (forall w s id contract c t,
        in_service w ->
        reachable_in_service s ->
        findById id s = Some contract ->
        textContent contract = Some (c :: t) ->
        (forall d, save_error w d = None) ->
        ok_of (fst (extractContractIntelligence (ai w) (c :: t) (title contract)))
        = false ->
        exists doc m,
          findById id (final_store (analyzeContract w s id)) = Some doc
          /\ response (analyzeContract w s id)
             = Return {| ok := false; error := Some m; data := Some doc |}
          /\ error_of (fst (extractContractIntelligence (ai w) (c :: t) (title contract)))
             = Some m
          /\ status doc = failed
          /\ lastError doc = Some m /\ m <> []
          /\ errorCount doc = (errorCount contract + 1)%Z
          /\ (1 <= errorCount doc)%Z).
Proof.
  split.
  - intros s c R I F. split.
    + apply (reachable_in_service_message s R c I F).
    + apply (reachable_counter_sound s (reachable_in_service_reachable s R) c I), F.
  - intros w s id contract c t S R F T Sv O.
    pose proof (run_stage_message w (IntelligencePrompt (c :: t) (title contract))
                                  _fallbackExtraction S) as M.
    fold (extractContractIntelligence (ai w) (c :: t) (title contract)) in M.
    destruct (extractContractIntelligence (ai w) (c :: t) (title contract))
      as [[intelligence|e fb|fb] k1] eqn:I; cbn [fst ok_of] in *;
      [discriminate O| |contradiction].
    rewrite (analyzeContract_stage_failed w s id contract c t e fb k1 F T Sv I).
    cbn [final_store response error_of].
    exists (failure_of (set_status processing contract) (Some e)), e.
    destruct (findById_some _ _ _ F) as [Hid Inc].
    split.
    { rewrite <- Hid at 1.
      apply (findById_put_same (failure_of (set_status processing contract) (Some e))). }
    split; [reflexivity|]. split; [reflexivity|]. split; [reflexivity|].
    split; [reflexivity|]. split; [exact M|]. split; [reflexivity|].
    cbn [failure_of errorCount set_errorCount].
    destruct (reachable_counter_sound s (reachable_in_service_reachable s R) contract Inc)
      as [P _].
    cbn. lia.
Qed.

Lemma failed_document_lastError_witness :
  reachable_in_service timed_out_once
  /\ (exists doc,
        findById 1 timed_out_once = Some doc
        /\ status doc = failed
        /\ lastError doc = Some (lit "Request timed out.")
        /\ errorCount doc = 1%Z)
  /\ forall c, In c timed_out_once -> status c = failed ->
               (exists m, lastError c = Some m /\ m <> []) /\ (1 <= errorCount c)%Z.
Proof.
  split; [exact reachable_timed_out_once|].
  split; [eexists; split; [reflexivity|repeat split]|].
  intros c I. exact (proj1 failed_document_lastError timed_out_once c
                           reachable_timed_out_once I).
Defined.


(** ** The virtual of the schema *)

(** X23.  The virtual upcomingDeadlines of a document and the window of
    the service differ at one instant: the virtual leaves out a key date
    that falls exactly on now, which the alert and the dashboard count.
    Otherwise they agree: the virtual is the service's list without the
    key dates due now. *)
Theorem virtual_upcomingDeadlines (now : Z) (c : Contract) :
  Virtuals.upcomingDeadlines now c
  = filter (fun kd => negb (due_now now kd)) (filter (is_upcoming now) (keyDates c))
  /\ (forall kd, In kd (Virtuals.upcomingDeadlines now c) ->
                 In kd (filter (is_upcoming now) (keyDates c)))
  /\ (forall kd, In kd (keyDates c) -> date kd = Some now ->
                 In kd (filter (is_upcoming now) (keyDates c))
                 /\ ~ In kd (Virtuals.upcomingDeadlines now c))
  /\ ((forall kd, In kd (keyDates c) -> date kd <> Some now) ->
      Virtuals.upcomingDeadlines now c = filter (is_upcoming now) (keyDates c)).
Proof.
  assert (E : Virtuals.upcomingDeadlines now c
              = filter (fun kd => negb (due_now now kd))
                       (filter (is_upcoming now) (keyDates c))).
  { unfold Virtuals.upcomingDeadlines.
    assert (P : forall kd,
               match date kd with
               | Some d => ((now <? d) && (d <=? now + thirty_days))%Z
               | None => false
               end = is_upcoming now kd && negb (due_now now kd)).
    { intros kd. unfold is_upcoming, due_now. destruct (date kd) as [d|]; [|reflexivity].
      destruct (Z.ltb_spec now d), (Z.leb_spec now d), (Z.eqb_spec d now);
        cbn [andb negb]; try lia; try reflexivity;
        destruct (d <=? now + thirty_days)%Z; reflexivity. }
    rewrite (filter_ext _ _ P).
    induction (keyDates c) as [|kd l IH]; [reflexivity|].
    cbn [filter]. destruct (is_upcoming now kd); cbn [andb filter]; [|exact IH].
    destruct (negb (due_now now kd)); rewrite IH; reflexivity. }
  split; [exact E|]. split; [|split].
  - intros kd H. rewrite E in H. apply filter_In in H as [H _]. exact H.
  - intros kd I D. split.
    + apply filter_In. split; [exact I|]. unfold is_upcoming. rewrite D.
      apply andb_true_iff. rewrite !Z.leb_le. unfold thirty_days. lia.
    + rewrite E. intros H. apply filter_In in H as [_ H].
      unfold due_now in H. rewrite D, Z.eqb_refl in H. discriminate.
  - intros H. rewrite E. apply forallb_filter_id, forallb_forall.
    intros kd Hk. apply filter_In in Hk as [Hk _]. apply negb_true_iff.
    unfold due_now. destruct (date kd) as [d|] eqn:D; [|reflexivity].
    destruct (Z.eqb_spec d now) as [X|_]; [|reflexivity].
    exfalso. apply (H kd Hk). congruence.
Qed.

Lemma virtual_upcomingDeadlines_witness :
  In {| dateType := Some (lit "effective"); date := Some 1690000000000%Z;
        description := None |}
     (filter (is_upcoming 1690000000000) (keyDates analysed_before))
  /\ ~ In {| dateType := Some (lit "effective"); date := Some 1690000000000%Z;
             description := None |}
          (Virtuals.upcomingDeadlines 1690000000000 analysed_before).
Proof.
  exact (proj1 (proj2 (proj2 (virtual_upcomingDeadlines 1690000000000 analysed_before)))
           {| dateType := Some (lit "effective");
              date := Some 1690000000000%Z;
              description := None |}
           (or_introl eq_refl) eq_refl).
Defined.

(** ** When the parser finds no object *)

Section NoObject.

Lemma upto_last_In (c : ascii) (s : jsstring) :
  In c s -> exists p, upto_last c s = Some p.
Proof.
  induction s as [|x s IH]; simpl; [contradiction|].
  intros [->|H].
  - destruct (upto_last c s); [eauto|]. rewrite Ascii.eqb_refl. eauto.
  - destruct (IH H) as (p & ->). eauto.
Qed.

Lemma match_braces_spec (s : jsstring) :
  match_braces s = None <-> ~ has_braces s.
Proof.
  unfold match_braces, has_braces. split.
  - intros H (a & b & c & ->).
    assert (G : forall a, exists r,
                 dropWhile (not_char "{") (a ++ "{"%char :: b ++ "}"%char :: c)
                 = "{"%char :: r /\ In "}"%char r).
    { clear. intros a. induction a as [|x a IH]; simpl.
      - exists (b ++ "}"%char :: c). split; [reflexivity|].
        apply in_or_app. right. left. reflexivity.
      - unfold not_char at 1. destruct (Ascii.eqb_spec x "{"%char) as [->|N]; cbn [negb].
        + exists (a ++ "{"%char :: b ++ "}"%char :: c). split; [reflexivity|].
          apply in_or_app. right. right. apply in_or_app. right. left. reflexivity.
        + exact IH. }
    destruct (G a) as (r & E & I). rewrite E in H.
    destruct (upto_last_In _ _ I) as (p & U). rewrite U in H. discriminate.
  - intros N.
    destruct (dropWhile (not_char "{") s) as [|x r] eqn:D; [reflexivity|].
    destruct (upto_last "}" r) as [p|] eqn:U; [|reflexivity].
    exfalso. apply N.
    assert (S1 : exists a, s = a ++ "{"%char :: r).
    { clear U N. revert D. induction s as [|y s IH]; simpl; [discriminate|].
      destruct (not_char "{" y) eqn:Ny.
      - intros D. destruct (IH D) as (a & ->). exists (y :: a). reflexivity.
      - intros D. exists []. inversion D; subst. unfold not_char in Ny.
        apply negb_false_iff in Ny. apply Ascii.eqb_eq in Ny. subst x. reflexivity. }
    destruct S1 as (a & ->).
    assert (I : In "}"%char r).
    { destruct (in_dec ascii_dec "}"%char r) as [I|I]; [exact I|].
      exfalso. rewrite (upto_last_none "}" r I) in U. discriminate U. }
    apply in_split in I as (b & c & ->). exists a, b, c. reflexivity.
Qed.

Lemma filter_app_inv (p : ascii -> bool) (s l1 l2 : jsstring) (x : ascii) :
  filter p s = l1 ++ x :: l2 ->
  exists s1 s2, s = s1 ++ x :: s2 /\ filter p s1 = l1 /\ filter p s2 = l2.
Proof.
  revert l1. induction s as [|y s IH]; intros l1; simpl.
  - destruct l1; discriminate.
  - destruct (p y) eqn:Py.
    + destruct l1 as [|z l1]; simpl; intros E; injection E as Ey El.
      * subst y. exists [], s. repeat split. exact El.
      * subst z. destruct (IH l1 El) as (s1 & s2 & Es & F1 & F2).
        exists (y :: s1), s2. simpl. rewrite Py, F1, Es. repeat split. exact F2.
    + intros E. destruct (IH l1 E) as (s1 & s2 & -> & F1 & F2).
      exists (y :: s1), s2. simpl. rewrite Py. repeat split; assumption.
Qed.

(** Having braces depends on the braces alone. *)
Lemma has_braces_skeleton (s : jsstring) :
  has_braces s <-> has_braces (filter is_brace s).
Proof.
  unfold has_braces. split.
  - intros (a & b & c & ->).
    exists (filter is_brace a), (filter is_brace b), (filter is_brace c).
    rewrite filter_app.
    change (filter is_brace ("{"%char :: b ++ "}"%char :: c))
      with ("{"%char :: filter is_brace (b ++ "}"%char :: c)).
    rewrite filter_app.
    change (filter is_brace ("}"%char :: c)) with ("}"%char :: filter is_brace c).
    reflexivity.
  - intros (a & b & c & E).
    apply filter_app_inv in E as (s1 & s2 & -> & _ & E2).
    apply filter_app_inv in E2 as (s3 & s4 & -> & _ & _).
    exists s1, s3, s4. reflexivity.
Qed.

Lemma filter_dropWhile (p q : ascii -> bool) (s : jsstring) :
  (forall c, p c = true -> q c = false) ->
  filter q (dropWhile p s) = filter q s.
Proof.
  intros H. induction s as [|c s IH]; simpl; [reflexivity|].
  destruct (p c) eqn:Pc; [|reflexivity].
  rewrite (H c Pc). exact IH.
Qed.

Lemma filter_rev {A : Type} (q : A -> bool) (l : list A) :
  filter q (rev l) = rev (filter q l).
Proof.
  induction l as [|x l IH]; simpl; [reflexivity|].
  rewrite filter_app, IH. simpl. destruct (q x); simpl; [reflexivity|apply app_nil_r].
Qed.

Lemma space_not_brace (c : ascii) : is_space c = true -> is_brace c = false.
Proof.
  unfold is_brace. destruct (Ascii.eqb_spec c "{"%char) as [->|_]; [discriminate|].
  destruct (Ascii.eqb_spec c "}"%char) as [->|_]; [discriminate|]. reflexivity.
Qed.

Lemma trim_skeleton (s : jsstring) : filter is_brace (trim s) = filter is_brace s.
Proof.
  unfold trim. rewrite filter_rev, filter_dropWhile by exact space_not_brace.
  rewrite filter_rev, rev_involutive. apply filter_dropWhile, space_not_brace.
Qed.

(** A replacement whose matches hold no brace and leave nothing behind
    keeps the braces. *)
Lemma replace_scan_skeleton (m : jsstring -> option (jsstring * nat)) :
  (forall s out len, m s = Some (out, len) ->
                     out = [] /\ 1 <= len /\ filter is_brace (firstn len s) = []) ->
  forall s k, filter is_brace (firstn k s) = [] ->
              filter is_brace (replace_scan m k s) = filter is_brace s.
Proof.
  intros Hm. induction s as [|c r IH]; intros k Hk; [reflexivity|].
  cbn [replace_scan]. destruct k as [|k].
  - destruct (m (c :: r)) as [[out len]|] eqn:E.
    + destruct (Hm _ _ _ E) as (-> & L & F). cbn [app].
      destruct len as [|len]; [lia|]. cbn [pred].
      cbn [firstn filter] in F. destruct (is_brace c) eqn:B; [discriminate|].
      cbn [filter]. rewrite B. apply IH, F.
    + cbn [filter]. destruct (is_brace c); [f_equal|]; apply (IH 0); reflexivity.
  - cbn [firstn filter] in Hk. destruct (is_brace c) eqn:B; [discriminate|].
    cbn [filter]. rewrite B. apply IH, Hk.
Qed.

Lemma fence_matches (s out : jsstring) (len : nat) :
  re_fence_json s = Some (out, len) \/ re_fence s = Some (out, len) ->
  out = [] /\ 1 <= len /\ filter is_brace (firstn len s) = [].
Proof.
  intros [H|H].
  - unfold re_fence_json in H.
    destruct (strip_prefix (lit "```json") s) as [r|] eqn:P; [|discriminate].
    apply strip_prefix_app in P. subst s.
    destruct r as [|c r].
    + injection H as <- <-. repeat split. lia.
    + destruct (Ascii.eqb c (chr 10)) eqn:C; injection H as <- <-.
      * apply Ascii.eqb_eq in C. subst c. repeat split. lia.
      * repeat split. lia.
  - unfold re_fence in H.
    destruct (strip_prefix (lit "```") s) as [r|] eqn:P; [|discriminate].
    apply strip_prefix_app in P. subst s.
    destruct r as [|c r].
    + injection H as <- <-. repeat split. lia.
    + destruct (Ascii.eqb c (chr 10)) eqn:C; injection H as <- <-.
      * apply Ascii.eqb_eq in C. subst c. repeat split. lia.
      * repeat split. lia.
Qed.

Lemma cleanText_skeleton (text : jsstring) :
  filter is_brace (trim (replace_all re_fence (replace_all re_fence_json text)))
  = filter is_brace text.
Proof.
  rewrite trim_skeleton. unfold replace_all.
  rewrite (replace_scan_skeleton re_fence) by
      (try reflexivity; intros s out len H; apply (fence_matches s out len); right; exact H).
  apply (replace_scan_skeleton re_fence_json); [|reflexivity].
  intros s out len H. apply (fence_matches s out len). left. exact H.
Qed.

End NoObject.

(** X25.  [_parseAIResponse] throws its No JSON found error exactly when
    the reply has no opening brace with a closing brace after it; the
    removal of the fences and the trimming play no part in that.  A reply
    that has such braces is either parsed or rejected as invalid JSON. *)
Theorem parseAIResponse_no_json_iff (text : jsstring) :
  (_parseAIResponse text = Throw NoJsonFound <-> ~ has_braces text)
  /\ (has_braces text ->
      (exists props, _parseAIResponse text = Return (JObj props))
      \/ _parseAIResponse text = Throw InvalidJson)
  /\ (forall e, _parseAIResponse text = Throw e -> e = NoJsonFound \/ e = InvalidJson).
Proof.
  set (clean := trim (replace_all re_fence (replace_all re_fence_json text))).
  assert (B : has_braces clean <-> has_braces text).
  { rewrite (has_braces_skeleton clean), (has_braces_skeleton text).
    unfold clean. rewrite cleanText_skeleton. reflexivity. }
  assert (Shape : forall jsonStr,
             match_braces clean = Some jsonStr ->
             (exists props, _parseAIResponse text = Return (JObj props))
             \/ _parseAIResponse text = Throw InvalidJson).
  { intros jsonStr M.
    destruct (_parseAIResponse text) as [v|e] eqn:P.
    - left. destruct (parseAIResponse_object_shape text v P) as (props & ->). eauto.
    - right. revert P. unfold _parseAIResponse. fold clean. rewrite M.
      destruct (JSON_parse jsonStr); try discriminate;
        destruct (JSON_parse _); try discriminate; intros H; inversion H; reflexivity. }
  assert (Found : has_braces text -> exists jsonStr, match_braces clean = Some jsonStr).
  { intros H. apply B in H.
    destruct (match_braces clean) as [j|] eqn:M; [eauto|].
    apply match_braces_spec in M. contradiction. }
  split; [|split].
  - split.
    + intros P H. destruct (Found H) as (j & M).
      destruct (Shape j M) as [(props & R)|R]; rewrite R in P; discriminate.
    + intros N. unfold _parseAIResponse. fold clean.
      assert (M : match_braces clean = None).
      { apply match_braces_spec. intros H. apply N, B, H. }
      rewrite M. reflexivity.
  - intros H. destruct (Found H) as (j & M). apply (Shape j M).
  - intros e P. destruct (match_braces clean) as [j|] eqn:M.
    + destruct (Shape j eq_refl) as [(props & R)|R]; rewrite R in P; [discriminate|].
      inversion P. auto.
    + unfold _parseAIResponse in P. fold clean in P. rewrite M in P.
      inversion P. auto.
Qed.

Lemma parseAIResponse_no_json_iff_witness :
  _parseAIResponse (lit "I cannot analyse this } document {.") = Throw NoJsonFound
  /\ _parseAIResponse (lit "{ not json }") = Throw InvalidJson.
Proof.
  split.
  - apply (proj1 (parseAIResponse_no_json_iff _)).
    apply match_braces_spec. reflexivity.
  - destruct (proj1 (proj2 (parseAIResponse_no_json_iff (lit "{ not json }"))))
      as [(props & R)|R].
    + exists [], (lit " not json "), []. reflexivity.
    + exfalso. revert R. vm_compute. discriminate.
    + exact R.
Defined.
